(** * Creative-camera toys: gesture predicates, coordinate mapping, dwell
    timers and effect simulations.

    Shallow embedding of the TypeScript sources: the gesture predicates
    (gestureUtils), the tear filter (ARCanvas), the gun gesture and the
    engine of the catch game (ARGame), the grid-stretch effect
    (gridStretchUtils), the horse puppet (santaUtils), the detector
    callback of the time-slice camera (App) with the particles of its
    pixel grid, the tiles of the flip effect (slice3DUtils) and the blocks
    of the pixel text (pixelTextEffect).  Painting, sound and the private
    state of the effects that no property below concerns are left out.

    JavaScript numbers are modelled as exact rationals ([Q]), so the
    properties about numbers are properties of the formulas: an equation
    between computed numbers, or a comparison that holds with equality,
    need not survive the rounding of binary64 floats.  One case in which
    it does not, the column widths of the grid, is shown on floats
    ([FloatGrid]).  Millisecond readings of
    [Date.now()] are integers ([Z]).  The functions of the run-time that
    the sources call but do not define ([Math.sqrt], [Math.exp],
    [Math.sin], [Math.cos]) are the fields of the class [MathLib], and
    [Math.random()], the clock and the page under the pointer are inputs
    of the handlers. *)

From Stdlib Require Import QArith Qabs Qminmax Qround Lqa ZArith List Lia Bool.
From Stdlib Require String.
From Stdlib Require Import PrimFloat.
From Stdlib Require Import Permutation.
Import ListNotations.

Local Open Scope Q_scope.

(** ** Numbers *)

Definition Qltb (a b : Q) : bool := negb (Qle_bool b a).
Definition Qgtb (a b : Q) : bool := Qltb b a.
Definition Qleb (a b : Q) : bool := Qle_bool a b.
Definition Qgeb (a b : Q) : bool := Qle_bool b a.

(** The run-time's mathematical functions.  [Math.exp] never returns a
    negative number, which is all the grid effect relies on. *)
Class MathLib := {
  Math_sqrt : Q -> Q;
  Math_exp : Q -> Q;
  Math_sin : Q -> Q;
  Math_cos : Q -> Q;
  Math_exp_nonneg : forall x, 0 <= Math_exp x
}.

Definition Math_max (a b : Q) : Q := if Qltb a b then b else a.
Definition Math_min (a b : Q) : Q := if Qltb b a then b else a.
Definition Math_abs (a : Q) : Q := if Qltb a 0 then - a else a.
(** [Math.round] rounds to the nearest integer, halves up. *)
Definition Math_round (a : Q) : Q := inject_Z (Qfloor (a + (1 # 2))).

(** ** Landmarks and JavaScript array reads *)

Record Landmark := mkLandmark { x : Q; y : Q; z : Q }.
Definition NormalizedLandmarkList := list Landmark.

Record Point := mkPoint { px : Q; py : Q }.
Record Rect := mkRect { rx : Q; ry : Q; rw : Q; rh : Q }.

(** A computation records the landmark indices it reads and either returns
    a value or throws ([None]): reading a field of [landmarks[i]] when [i]
    is out of range is a [TypeError]. *)
Definition Js (A : Type) : Type := (list nat * option A)%type.

Definition ret {A} (a : A) : Js A := ([], Some a).

Definition bind {A B} (m : Js A) (k : A -> Js B) : Js B :=
  match m with
  | (t, None) => (t, None)
  | (t, Some a) => let '(t', r) := k a in (t ++ t', r)
  end.

Notation "v <- m ;; k" := (bind m (fun v => k))
  (at level 61, m at next level, right associativity).

Definition reads {A} (m : Js A) : list nat := fst m.
Definition result {A} (m : Js A) : option A := snd m.

(** [landmarks[i].x] and [landmarks[i].y]. *)
Definition field (f : Landmark -> Q) (l : NormalizedLandmarkList) (i : nat) : Js Q :=
  ([i], option_map f (nth_error l i)).

(** The value of a boolean computation inside an [if]: a thrown error is
    not a truthy value. *)
Definition holds (m : Js bool) : bool :=
  match result m with Some b => b | None => false end.

(** ** gestureUtils *)

Module Gesture.

Section Predicates.
Context `{MathLib}.

(** [!landmarks || landmarks.length < 21] *)
Definition tooShort (landmarks : option NormalizedLandmarkList) : bool :=
  match landmarks with
  | None => true
  | Some l => (length l <? 21)%nat
  end.

Definition elems (landmarks : option NormalizedLandmarkList) : NormalizedLandmarkList :=
  match landmarks with None => [] | Some l => l end.

Definition isPointingUp (landmarks : option NormalizedLandmarkList) : Js bool :=
  if tooShort landmarks then ret false else
  let l := elems landmarks in
  t8 <- field y l 8 ;; p6 <- field y l 6 ;;
  let indexUp := Qltb t8 p6 in
  t12 <- field y l 12 ;; p10 <- field y l 10 ;;
  let middleDown := Qgtb t12 p10 in
  t16 <- field y l 16 ;; p14 <- field y l 14 ;;
  let ringDown := Qgtb t16 p14 in
  t20 <- field y l 20 ;; p18 <- field y l 18 ;;
  let pinkyDown := Qgtb t20 p18 in
  ret (indexUp && middleDown && ringDown && pinkyDown).

Definition isHandClosed (landmarks : option NormalizedLandmarkList) : Js bool :=
  if tooShort landmarks then ret false else
  let l := elems landmarks in
  t8 <- field y l 8 ;; p6 <- field y l 6 ;;
  let indexClosed := Qgtb t8 p6 in
  t12 <- field y l 12 ;; p10 <- field y l 10 ;;
  let middleClosed := Qgtb t12 p10 in
  t16 <- field y l 16 ;; p14 <- field y l 14 ;;
  let ringClosed := Qgtb t16 p14 in
  t20 <- field y l 20 ;; p18 <- field y l 18 ;;
  let pinkyClosed := Qgtb t20 p18 in
  ret (indexClosed && middleClosed && ringClosed && pinkyClosed).

Definition isPinching (landmarks : option NormalizedLandmarkList) : Js bool :=
  if tooShort landmarks then ret false else
  let l := elems landmarks in
  x8 <- field x l 8 ;; x4 <- field x l 4 ;;
  let dx := x8 - x4 in
  y8 <- field y l 8 ;; y4 <- field y l 4 ;;
  let dy := y8 - y4 in
  let dist := Math_sqrt (dx * dx + dy * dy) in
  ret (Qltb dist (5 # 100)).

Definition isVictoryHand (landmarks : option NormalizedLandmarkList) : Js bool :=
  if tooShort landmarks then ret false else
  let l := elems landmarks in
  t8 <- field y l 8 ;; p6 <- field y l 6 ;;
  let indexUp := Qltb t8 p6 in
  t12 <- field y l 12 ;; p10 <- field y l 10 ;;
  let middleUp := Qltb t12 p10 in
  t16 <- field y l 16 ;; p14 <- field y l 14 ;;
  let ringDown := Qgtb t16 p14 in
  t20 <- field y l 20 ;; p18 <- field y l 18 ;;
  let pinkyDown := Qgtb t20 p18 in
  ret (indexUp && middleUp && ringDown && pinkyDown).

(** [toScreenCoords] *)
Definition toScreenCoords (point : Landmark) (width height : Q) : Point :=
  {| px := x point * width; py := y point * height |}.

End Predicates.

End Gesture.

(** ** ARCanvas: the tear / typography face filter *)

Module ARCanvas.

Definition L_EYE : nat := 145.
Definition L_CHEEK : nat := 205.
Definition L_DROP : nat := 136.
Definition R_EYE : nat := 374.
Definition R_CHEEK : nat := 425.
Definition R_DROP : nat := 365.

Definition INDEX_FINGER_TIP : nat := 8.
Definition INDEX_FINGER_PIP : nat := 6.
Definition MIDDLE_FINGER_TIP : nat := 12.
Definition MIDDLE_FINGER_PIP : nat := 10.
Definition RING_FINGER_TIP : nat := 16.
Definition RING_FINGER_PIP : nat := 14.
Definition PINKY_TIP : nat := 20.
Definition PINKY_PIP : nat := 18.

Record Dimensions := mkDimensions { width : Q; height : Q }.
Record AppSettings := mkSettings { size : Q; speed : Q; bounce : Q }.

Inductive TearState := sliding | falling | rewinding.
Inductive Side := side_left | side_right.

Record TearPluginData := mkPlugin {
  state : TearState;
  side : Side;
  progress : Q;
  pathOffset : Q;
  currentSize : Q;
  origin : Point;
  rewindStartTime : option Z
}.

(** The fields of a Matter.js body that the handlers read or write. *)
Record TearBody := mkBody {
  id : nat;
  isStatic : bool;
  plugin : TearPluginData;
  position : Point;
  velocity : Point;
  angularVelocity : Q;
  force : Point;
  isSensor : bool;
  restitution : Q;
  frictionAir : Q;
  customText : option String.string
}.

Definition set_state (s : TearState) (b : TearBody) : TearBody :=
  let p := plugin b in
  mkBody (id b) (isStatic b)
    (mkPlugin s (side p) (progress p) (pathOffset p) (currentSize p) (origin p)
       (rewindStartTime p))
    (position b) (velocity b) (angularVelocity b) (force b) (isSensor b)
    (restitution b) (frictionAir b) (customText b).

Definition set_progress (t : Q) (b : TearBody) : TearBody :=
  let p := plugin b in
  mkBody (id b) (isStatic b)
    (mkPlugin (state p) (side p) t (pathOffset p) (currentSize p) (origin p)
       (rewindStartTime p))
    (position b) (velocity b) (angularVelocity b) (force b) (isSensor b)
    (restitution b) (frictionAir b) (customText b).

Definition set_rewindStartTime (t : Z) (b : TearBody) : TearBody :=
  let p := plugin b in
  mkBody (id b) (isStatic b)
    (mkPlugin (state p) (side p) (progress p) (pathOffset p) (currentSize p)
       (origin p) (Some t))
    (position b) (velocity b) (angularVelocity b) (force b) (isSensor b)
    (restitution b) (frictionAir b) (customText b).

(** [Body.setPosition], [Body.setVelocity], [Body.setAngularVelocity] and
    [Body.applyForce] at the body's own position. *)
Definition setPosition (p : Point) (b : TearBody) : TearBody :=
  mkBody (id b) (isStatic b) (plugin b) p (velocity b) (angularVelocity b)
    (force b) (isSensor b) (restitution b) (frictionAir b) (customText b).

Definition setVelocity (v : Point) (b : TearBody) : TearBody :=
  mkBody (id b) (isStatic b) (plugin b) (position b) v (angularVelocity b)
    (force b) (isSensor b) (restitution b) (frictionAir b) (customText b).

Definition setAngularVelocity (w : Q) (b : TearBody) : TearBody :=
  mkBody (id b) (isStatic b) (plugin b) (position b) (velocity b) w
    (force b) (isSensor b) (restitution b) (frictionAir b) (customText b).

Definition applyForce (f : Point) (b : TearBody) : TearBody :=
  mkBody (id b) (isStatic b) (plugin b) (position b) (velocity b)
    (angularVelocity b)
    (mkPoint (px (force b) + px f) (py (force b) + py f))
    (isSensor b) (restitution b) (frictionAir b) (customText b).

Definition set_isSensor (s : bool) (b : TearBody) : TearBody :=
  mkBody (id b) (isStatic b) (plugin b) (position b) (velocity b)
    (angularVelocity b) (force b) s (restitution b) (frictionAir b)
    (customText b).

Definition set_restitution (r : Q) (b : TearBody) : TearBody :=
  mkBody (id b) (isStatic b) (plugin b) (position b) (velocity b)
    (angularVelocity b) (force b) (isSensor b) r (frictionAir b)
    (customText b).

Definition set_frictionAir (r : Q) (b : TearBody) : TearBody :=
  mkBody (id b) (isStatic b) (plugin b) (position b) (velocity b)
    (angularVelocity b) (force b) (isSensor b) (restitution b) r
    (customText b).

(** The button under the pointer, and when the pointer arrived on it. *)
Record Interact := mkInteract { element : option nat; startTime : Q }.

(** Everything the component keeps between callbacks. *)
Record World := mkWorld {
  faceLandmarksRef : option (list Landmark);
  handLandmarksRef : option (list NormalizedLandmarkList);
  isCameraOnRef : bool;
  settingsRef : AppSettings;
  dimensionsRef : Dimensions;
  videoDimensionsRef : Dimensions;
  zoomLevelRef : Q;
  textQueueRef : list String.string;
  lastSpawnTimeRef : Z;
  lastInteractRef : Interact;
  mousePosition : Point;
  gravity_y : Q;
  bodies : list TearBody;
  nextId : nat
}.

Section Handlers.
Context `{MathLib}.

(** [dist]: distance between two landmarks. *)
Definition dist (a b : Landmark) : Q :=
  Math_sqrt ((x a - x b) ^ 2 + (y a - y b) ^ 2).

(** [getMappedCoords]: coordinate mapping for zoom and cover. *)
Definition getMappedCoords (w : World) (nx ny : Q) (mirrorX : bool) : Point :=
  let cW := width (dimensionsRef w) in
  let cH := height (dimensionsRef w) in
  let vW := width (videoDimensionsRef w) in
  let vH := height (videoDimensionsRef w) in
  let zoom := zoomLevelRef w in
  let scale := Math_max (cW / vW) (cH / vH) in
  let targetW := vW * scale in
  let targetH := vH * scale in
  let offX := (cW - targetW) / 2 in
  let offY := (cH - targetH) / 2 in
  let p := if mirrorX then 1 - nx else nx in
  let ucX := offX + p * targetW in
  let ucY := offY + ny * targetH in
  let finalX := (cW / 2) + (ucX - cW / 2) * zoom in
  let finalY := (cH / 2) + (ucY - cH / 2) * zoom in
  {| px := finalX; py := finalY |}.

Definition mapLandmark (w : World) (l : Landmark) : Point :=
  getMappedCoords w (x l) (y l) true.

(** The three face landmarks of a tear's path, when all are present. *)
Definition facePath (w : World) (s : Side)
  : option (Landmark * Landmark * Landmark) :=
  if isCameraOnRef w then
    match faceLandmarksRef w with
    | Some face =>
        let isLeft := match s with side_left => true | side_right => false end in
        match nth_error face (if isLeft then L_EYE else R_EYE),
              nth_error face (if isLeft then L_CHEEK else R_CHEEK),
              nth_error face (if isLeft then L_DROP else R_DROP) with
        | Some p0Raw, Some p1Raw, Some p2Raw => Some (p0Raw, p1Raw, p2Raw)
        | _, _, _ => None
        end
    | None => None
    end
  else None.

(** Quadratic Bezier interpolation in screen space. *)
Definition bezier (t : Q) (p0 p1 p2 : Point) : Point :=
  let it := 1 - t in
  {| px := (it * it * px p0) + (2 * it * t * px p1) + (t * t * px p2);
     py := (it * it * py p0) + (2 * it * t * py p1) + (t * t * py p2) |}.

(** Step 1 of [beforeUpdate]: the repulsion points. *)
Definition repulsionPoints (w : World) : list Point :=
  mousePosition w ::
  (if isCameraOnRef w then
     match handLandmarksRef w with
     | Some hands =>
         flat_map (fun hand =>
                     match nth_error hand INDEX_FINGER_TIP with
                     | Some indexTip => [mapLandmark w indexTip]
                     | None => []
                     end) hands
     | None => []
     end
   else []).

(** The rewinding branch of the tear logic; [None] when the body is removed
    from the world. *)
Definition rewindStep (w : World) (now : Z) (body : TearBody) : option TearBody :=
  let pl := plugin body in
  let waiting :=
    match rewindStartTime pl with
    | Some t => negb (t =? 0)%Z && (now <? t)%Z
    | None => false
    end in
  if waiting then
    Some (setAngularVelocity 0 (setVelocity (mkPoint 0 0) body))
  else
    match facePath w (side pl) with
    | Some (p0Raw, p1Raw, p2Raw) =>
        let p0 := mapLandmark w p0Raw in
        let p1 := mapLandmark w p1Raw in
        let p2 := mapLandmark w p2Raw in
        if Qgeb (progress pl) 1 then
          let chinX := px p2 + pathOffset pl in
          let chinY := py p2 in
          let dx := chinX - px (position body) in
          let dy := chinY - py (position body) in
          let distToChin := Math_sqrt (dx * dx + dy * dy) in
          let flySpeed := speed (settingsRef w) * 20 in
          if Qltb distToChin (flySpeed * (15 # 10)) then
            Some (set_progress (99 # 100) body)
          else
            Some (setAngularVelocity 0
                    (setVelocity (mkPoint ((dx / distToChin) * flySpeed)
                                          ((dy / distToChin) * flySpeed)) body))
        else
          let decrement := (4 # 100) * speed (settingsRef w) in
          let t := progress pl - decrement in
          if Qleb t 0 then None
          else
            let b := bezier t p0 p1 p2 in
            Some (setAngularVelocity 0
                    (setVelocity (mkPoint 0 0)
                       (setPosition (mkPoint (px b + pathOffset pl) (py b))
                          (set_progress t body))))
    | None =>
        let dx := px (origin pl) - px (position body) in
        let dy := py (origin pl) - py (position body) in
        let distToOrigin := Math_sqrt (dx * dx + dy * dy) in
        let flySpeed := speed (settingsRef w) * 25 in
        if Qltb distToOrigin flySpeed then None
        else
          Some (setAngularVelocity 0
                  (setVelocity (mkPoint ((dx / distToOrigin) * flySpeed)
                                        ((dy / distToOrigin) * flySpeed)) body))
    end.

(** A. Sliding on the face.  [rnd] are the two [Math.random()] draws used
    when the tear leaves the face. *)
Definition slideStep (w : World) (rnd : Q * Q) (body : TearBody) : TearBody :=
  let pl := plugin body in
  match facePath w (side pl) with
  | Some (p0Raw, p1Raw, p2Raw) =>
      let p0 := mapLandmark w p0Raw in
      let p1 := mapLandmark w p1Raw in
      let p2 := mapLandmark w p2Raw in
      let t := progress pl in
      let b := bezier t p0 p1 p2 in
      let body1 :=
        setAngularVelocity 0
          (setVelocity (mkPoint 0 0)
             (setPosition (mkPoint (px b + pathOffset pl) (py b)) body)) in
      let progressSpeed := (1 # 100) + (t * (3 # 100)) in
      let body2 := set_progress (progress pl + progressSpeed) body1 in
      if Qgeb (progress (plugin body2)) 1 then
        setVelocity (mkPoint ((fst rnd - (1 # 2)) * 2) (5 + snd rnd * 2))
          (set_isSensor false (set_state falling body2))
      else body2
  | None => set_isSensor false (set_state falling body)
  end.

(** B. Falling: repulsion from the mouse and the index fingertips. *)
Definition repel (body : TearBody) (pt : Point) : TearBody :=
  let dx := px (position body) - px pt in
  let dy := py (position body) - py pt in
  let distSq := dx * dx + dy * dy in
  if Qltb distSq 10000 && Qgtb distSq 0 then
    let force := 5 # 1000 in
    applyForce (mkPoint ((dx / Math_sqrt distSq) * force)
                        ((dy / Math_sqrt distSq) * force)) body
  else body.

Definition fallStep (pts : list Point) (body : TearBody) : TearBody :=
  fold_left repel pts body.

(** Step 2 of [beforeUpdate] for one body. *)
Definition tearStep (w : World) (now : Z) (rnd : nat -> Q * Q) (pts : list Point)
    (body : TearBody) : option TearBody :=
  if isStatic body then Some body
  else
    let body := set_restitution (bounce (settingsRef w)) body in
    match state (plugin body) with
    | rewinding => rewindStep w now body
    | _ =>
        let body :=
          match state (plugin body) with
          | sliding => slideStep w (rnd (id body)) body
          | _ => body
          end in
        match state (plugin body) with
        | falling => Some (fallStep pts body)
        | _ => Some body
        end
    end.

Definition filter_map {A B} (f : A -> option B) (l : list A) : list B :=
  flat_map (fun a => match f a with Some b => [b] | None => [] end) l.

(** The random draws of one spawn: side, fallback x, path offset. *)
Record SpawnDraws := mkDraws { drawSide : Q; drawX : Q; drawOffset : Q }.

(** Step 3 of [beforeUpdate]: spawning the next character of the queue. *)
Definition spawn (w : World) (now : Z) (d : SpawnDraws) (bs : list TearBody)
  : list TearBody * Z * list String.string * nat :=
  let unchanged := (bs, lastSpawnTimeRef w, textQueueRef w, nextId w) in
  match textQueueRef w with
  | char :: rest =>
      if (35 <? now - lastSpawnTimeRef w)%Z then
        let sd := if Qgtb (drawSide d) (1 # 2) then side_left else side_right in
        let camOn := isCameraOnRef w in
        let winW := width (dimensionsRef w) in
        let spawnPos :=
          if camOn then
            match faceLandmarksRef w with
            | Some face =>
                match nth_error face
                        (match sd with side_left => L_EYE | side_right => R_EYE end) with
                | Some eye => Some (mapLandmark w eye)
                | None => None
                end
            | None => None
            end
          else Some (mkPoint (winW / 2 + (drawX d - (1 # 2)) * 200) (- (50))) in
        match spawnPos with
        | Some pos =>
            let tearBody :=
              mkBody (nextId w) false
                (mkPlugin (if camOn then sliding else falling) sd 0
                   ((drawOffset d - (1 # 2)) * 10) (size (settingsRef w)) pos None)
                pos (mkPoint 0 0) 0 (mkPoint 0 0) camOn
                (bounce (settingsRef w)) (1 # 100) (Some char) in
            (bs ++ [tearBody], now, rest, S (nextId w))
        | None => unchanged
        end
      else unchanged
  | [] => unchanged
  end.

(** The inputs of one physics frame that come from outside the component. *)
Record Tick := mkTick { tickNow : Z; tickRnd : nat -> Q * Q; tickSpawn : SpawnDraws }.

(** The ['beforeUpdate'] handler. *)
Definition beforeUpdate (k : Tick) (w : World) : World :=
  let pts := repulsionPoints w in
  let bs := filter_map (tearStep w (tickNow k) (tickRnd k) pts) (bodies w) in
  let '(bs', last, queue, next) := spawn w (tickNow k) (tickSpawn k) bs in
  mkWorld (faceLandmarksRef w) (handLandmarksRef w) (isCameraOnRef w)
    (settingsRef w) (dimensionsRef w) (videoDimensionsRef w) (zoomLevelRef w)
    queue last (lastInteractRef w) (mousePosition w)
    (speed (settingsRef w)) bs' next.

(** *** The ['afterRender'] handler: hand interaction points *)

Inductive SettingKey := key_size | key_speed | key_bounce.

(** A range input: its [data-setting-key], bounding rectangle and
    [min], [max], [step]. *)
Record RangeInput := mkRange {
  settingKey : option SettingKey;
  rectLeft : Q; rectBottom : Q; rectWidth : Q; rectHeight : Q;
  inputMin : Q; inputMax : Q; inputStep : Q
}.

(** What [document.elementFromPoint] found: the range input that is the
    element or sits inside it, and the button that is the element or its
    closest ancestor button. *)
Record Element := mkElement { rangeInput : option RangeInput; button : option nat }.

(** The inputs of one rendered frame: [performance.now()], the position of
    the container on screen and the page under the pointer. *)
Record Paint := mkPaint {
  paintNow : Q;
  containerRect : option (Q * Q);
  elementFromPoint : Q -> Q -> option Element
}.

Inductive Action :=
| Click (btn : nat)
| SettingsChange (s : AppSettings).

Definition getScreenCoords (p : Paint) (cx cy : Q) : Point :=
  match containerRect p with
  | None => mkPoint cx cy
  | Some (rleft, rtop) => mkPoint (cx + rleft) (cy + rtop)
  end.

Definition updateSetting (s : AppSettings) (k : SettingKey) (v : Q) : AppSettings :=
  match k with
  | key_size => mkSettings v (speed s) (bounce s)
  | key_speed => mkSettings (size s) v (bounce s)
  | key_bounce => mkSettings (size s) (speed s) v
  end.

Definition sliderValue (inp : RangeInput) (screenPos : Point) : Q :=
  let percent :=
    if Qgtb (rectHeight inp) (rectWidth inp)
    then (rectBottom inp - py screenPos) / rectHeight inp
    else (px screenPos - rectLeft inp) / rectWidth inp in
  let percent := Math_max 0 (Math_min 1 percent) in
  let newVal := inputMin inp + (inputMax inp - inputMin inp) * percent in
  Math_round (newVal / inputStep inp) * inputStep inp.

(** The pointing test of this component compares distances to the wrist.
    [None]: a landmark is missing and reading its coordinates throws. *)
Definition pointing (hand : NormalizedLandmarkList) : option bool :=
  match nth_error hand 0,
        nth_error hand INDEX_FINGER_TIP, nth_error hand INDEX_FINGER_PIP,
        nth_error hand MIDDLE_FINGER_TIP, nth_error hand MIDDLE_FINGER_PIP,
        nth_error hand RING_FINGER_TIP, nth_error hand RING_FINGER_PIP,
        nth_error hand PINKY_TIP, nth_error hand PINKY_PIP with
  | Some wrist, Some it, Some ip, Some mt, Some mp, Some rt, Some rp, Some pt, Some pp =>
      let isIndexExtended := Qgtb (dist wrist it) (dist wrist ip) in
      let isMiddleCurled := Qltb (dist wrist mt) (dist wrist mp) in
      let isRingCurled := Qltb (dist wrist rt) (dist wrist rp) in
      let isPinkyCurled := Qltb (dist wrist pt) (dist wrist pp) in
      Some (isIndexExtended && isMiddleCurled && isRingCurled && isPinkyCurled)
  | _, _, _, _, _, _, _, _, _ => None
  end.

Definition DWELL_TIME : Q := 600.

Definition sameElement (a : option nat) (b : nat) : bool :=
  match a with Some a' => (a' =? b)%nat | None => false end.

(** The body of [currentHands.forEach]; [None] when it throws. *)
Definition handInteract (w : World) (p : Paint) (st : Interact)
    (hand : NormalizedLandmarkList) : option (Interact * list Action) :=
  match nth_error hand INDEX_FINGER_TIP with
  | None => Some (st, [])
  | Some tip =>
      match pointing hand with
      | None => None
      | Some isPointingUp =>
          let pt := mapLandmark w tip in
          if isPointingUp then
            let screenPos := getScreenCoords p (px pt) (py pt) in
            match elementFromPoint p (px screenPos) (py screenPos) with
            | Some el =>
                let changes :=
                  match rangeInput el with
                  | Some inputEl =>
                      match settingKey inputEl with
                      | Some key =>
                          [SettingsChange
                             (updateSetting (settingsRef w) key
                                (sliderValue inputEl screenPos))]
                      | None => []
                      end
                  | None => []
                  end in
                match button el with
                | Some btnEl =>
                    if negb (sameElement (element st) btnEl) then
                      Some (mkInteract (Some btnEl) (paintNow p), changes)
                    else
                      let elapsed := paintNow p - startTime st in
                      if Qgtb elapsed DWELL_TIME then
                        Some (mkInteract (element st) (paintNow p + 1000),
                              changes ++ [Click btnEl])
                      else Some (st, changes)
                | None => Some (mkInteract None (startTime st), changes)
                end
            | None => Some (st, [])
            end
          else Some (mkInteract None (startTime st), [])
      end
  end.

(** [forEach] over the hands; an exception ends the handler and keeps what
    was written before it. *)
Fixpoint forEachHand (w : World) (p : Paint) (st : Interact)
    (hands : list NormalizedLandmarkList) : Interact * list Action :=
  match hands with
  | [] => (st, [])
  | hand :: rest =>
      match handInteract w p st hand with
      | None => (st, [])
      | Some (st', acts) =>
          let '(st'', acts') := forEachHand w p st' rest in
          (st'', acts ++ acts')
      end
  end.

Definition set_lastInteract (i : Interact) (w : World) : World :=
  mkWorld (faceLandmarksRef w) (handLandmarksRef w) (isCameraOnRef w)
    (settingsRef w) (dimensionsRef w) (videoDimensionsRef w) (zoomLevelRef w)
    (textQueueRef w) (lastSpawnTimeRef w) i (mousePosition w)
    (gravity_y w) (bodies w) (nextId w).

Definition afterRender (p : Paint) (w : World) : World * list Action :=
  match handLandmarksRef w with
  | Some currentHands =>
      if isCameraOnRef w then
        let '(st, acts) := forEachHand w p (lastInteractRef w) currentHands in
        (set_lastInteract st w, acts)
      else (w, [])
  | None => (w, [])
  end.

(** *** Detector callbacks and triggers *)

Definition set_face (f : option (list Landmark)) (w : World) : World :=
  mkWorld f (handLandmarksRef w) (isCameraOnRef w)
    (settingsRef w) (dimensionsRef w) (videoDimensionsRef w) (zoomLevelRef w)
    (textQueueRef w) (lastSpawnTimeRef w) (lastInteractRef w) (mousePosition w)
    (gravity_y w) (bodies w) (nextId w).

Definition set_hands (h : option (list NormalizedLandmarkList)) (w : World) : World :=
  mkWorld (faceLandmarksRef w) h (isCameraOnRef w)
    (settingsRef w) (dimensionsRef w) (videoDimensionsRef w) (zoomLevelRef w)
    (textQueueRef w) (lastSpawnTimeRef w) (lastInteractRef w) (mousePosition w)
    (gravity_y w) (bodies w) (nextId w).

Definition set_bodies (bs : list TearBody) (w : World) : World :=
  mkWorld (faceLandmarksRef w) (handLandmarksRef w) (isCameraOnRef w)
    (settingsRef w) (dimensionsRef w) (videoDimensionsRef w) (zoomLevelRef w)
    (textQueueRef w) (lastSpawnTimeRef w) (lastInteractRef w) (mousePosition w)
    (gravity_y w) bs (nextId w).

(** [faceMesh.onResults] *)
Definition onFaceResults (multiFaceLandmarks : option (list (list Landmark)))
    (w : World) : World :=
  match multiFaceLandmarks with
  | Some (first :: _) => set_face (Some first) w
  | _ => set_face None w
  end.

(** [hands.onResults] *)
Definition onHandsResults (multiHandLandmarks : option (list NormalizedLandmarkList))
    (w : World) : World :=
  match multiHandLandmarks with
  | Some (first :: rest) => set_hands (Some (first :: rest)) w
  | _ => set_hands None w
  end.

(** The rewind trigger: tears sorted by id, newest first, start one after
    the other. *)
Fixpoint insertDesc (b : TearBody) (l : list TearBody) : list TearBody :=
  match l with
  | [] => [b]
  | c :: rest => if (id c <? id b)%nat then b :: l else c :: insertDesc b rest
  end.

Definition sortDesc (l : list TearBody) : list TearBody :=
  fold_right insertDesc [] l.

Fixpoint indexOf (i : nat) (l : list TearBody) : option nat :=
  match l with
  | [] => None
  | c :: rest => if (id c =? i)%nat then Some O else option_map S (indexOf i rest)
  end.

Definition onRewind (now : Z) (w : World) : World :=
  let tears := sortDesc (filter (fun b => negb (isStatic b)) (bodies w)) in
  set_bodies
    (map (fun b =>
            if isStatic b then b
            else
              match indexOf (id b) tears with
              | Some index =>
                  setAngularVelocity 0
                    (setVelocity (mkPoint 0 0)
                       (set_frictionAir 0
                          (set_isSensor true
                             (set_rewindStartTime (now + Z.of_nat index * 60)%Z
                                (set_state rewinding b)))))
              | None => b
              end) (bodies w)) w.

(** The clear trigger removes the tears. *)
Definition onClear (w : World) : World :=
  set_bodies (filter isStatic (bodies w)) w.

Inductive Event :=
| FaceResults (multiFaceLandmarks : option (list (list Landmark)))
| HandsResults (multiHandLandmarks : option (list NormalizedLandmarkList))
| BeforeUpdate (k : Tick)
| AfterRender (p : Paint)
| Rewind (now : Z)
| Clear.

Definition step (e : Event) (w : World) : World * list Action :=
  match e with
  | FaceResults r => (onFaceResults r w, [])
  | HandsResults r => (onHandsResults r w, [])
  | BeforeUpdate k => (beforeUpdate k w, [])
  | AfterRender p => afterRender p w
  | Rewind now => (onRewind now w, [])
  | Clear => (onClear w, [])
  end.

Fixpoint run (es : list Event) (w : World) : World * list Action :=
  match es with
  | [] => (w, [])
  | e :: rest =>
      let '(w1, a1) := step e w in
      let '(w2, a2) := run rest w1 in
      (w2, a1 ++ a2)
  end.


End Handlers.

End ARCanvas.

(** ** ARGame: the catch game's gun gesture *)

Module ARGame.

(** One hand of [onResults]: thumb tip higher (smaller y) than index tip. *)
Definition isActive (landmarks : NormalizedLandmarkList) : Js bool :=
  iy <- field y landmarks 8 ;;
  ty <- field y landmarks 4 ;;
  ret (Qltb ty iy).

End ARGame.

(** ** Canvas drawing commands *)

Inductive CanvasOp :=
| Save
| Restore
| BeginPath
| RectPath (r : Rect)
| Clip
| DrawImage (image : nat) (sx sy sw sh dx dy dw dh : Q)
| SetLineWidth (w : Q)
| SetStrokeStyle (rgba : Q * Q * Q * Q)
| StrokeRect (dx dy w h : Q).

(** ** gridStretchUtils *)

Module GridStretch.

Record GridInteraction := mkInteraction { ix : Q; iy : Q; radius : Q }.

Record GridStretchManager := mkGrid {
  n : nat;
  currentWeightsX : list Q;
  currentWeightsY : list Q;
  targetWeightsX : list Q;
  targetWeightsY : list Q
}.

(** [a[i] = v]: an index at or past the end grows the array.  The loops
    below write indices in increasing order from 0, so no hole is ever
    read; a skipped slot is filled with 0. *)
Definition assign (a : list Q) (i : nat) (v : Q) : list Q :=
  firstn i a ++ repeat 0 (i - length a) ++ v :: skipn (S i) a.

(** [a[i]] *)
Definition at_ (a : list Q) (i : nat) : Q := nth i a 0.

Definition ofNat (k : nat) : Q := inject_Z (Z.of_nat k).

(** [for (let i = 0; i < n; i++) body] *)
Definition for_ {S} (n : nat) (body : nat -> S -> S) (s : S) : S :=
  fold_left (fun acc i => body i acc) (seq 0 n) s.

Definition reset (g : GridStretchManager) : GridStretchManager :=
  for_ (n g)
    (fun i g =>
       mkGrid (n g)
         (assign (currentWeightsX g) i 1)
         (assign (currentWeightsY g) i 1)
         (assign (targetWeightsX g) i 1)
         (assign (targetWeightsY g) i 1)) g.

(** The constructor: [n = 15], empty arrays, then [reset]. *)
Definition new : GridStretchManager := reset (mkGrid 15 [] [] [] []).

Section Update.
Context `{MathLib}.

Definition resetTargets (g : GridStretchManager) : GridStretchManager :=
  for_ (n g)
    (fun i g =>
       mkGrid (n g) (currentWeightsX g) (currentWeightsY g)
         (assign (targetWeightsX g) i 1)
         (assign (targetWeightsY g) i 1)) g.

Definition spreadOf (point : GridInteraction) : Q :=
  Math_max (1 # 2) (15 * (1 - Math_min (radius point * 3) (9 # 10))).

Definition intensityOf (point : GridInteraction) : Q :=
  let threshold := 3 # 100 in
  let gain := 50 in
  Math_max 0 ((radius point - threshold) * gain).

Definition influence (point : GridInteraction) (g : GridStretchManager)
  : GridStretchManager :=
  let gridIdxX := Math_round (ix point * (ofNat (n g) - 1)) in
  let gridIdxY := Math_round (iy point * (ofNat (n g) - 1)) in
  let snappedX := gridIdxX / (ofNat (n g) - 1) in
  let snappedY := gridIdxY / (ofNat (n g) - 1) in
  let spread := spreadOf point in
  let intensity := intensityOf point in
  for_ (n g)
    (fun i g =>
       let normIdx := ofNat i / (ofNat (n g) - 1) in
       let distX := Math_abs (normIdx - snappedX) in
       let distY := Math_abs (normIdx - snappedY) in
       let weightX := intensity * Math_exp (- ((distX * spread) ^ 2)) in
       let weightY := intensity * Math_exp (- ((distY * spread) ^ 2)) in
       mkGrid (n g) (currentWeightsX g) (currentWeightsY g)
         (assign (targetWeightsX g) i (at_ (targetWeightsX g) i + weightX))
         (assign (targetWeightsY g) i (at_ (targetWeightsY g) i + weightY))) g.

Definition smooth (g : GridStretchManager) : GridStretchManager :=
  for_ (n g)
    (fun i g =>
       mkGrid (n g)
         (assign (currentWeightsX g) i
            (at_ (currentWeightsX g) i
             + (at_ (targetWeightsX g) i - at_ (currentWeightsX g) i) * (12 # 100)))
         (assign (currentWeightsY g) i
            (at_ (currentWeightsY g) i
             + (at_ (targetWeightsY g) i - at_ (currentWeightsY g) i) * (12 # 100)))
         (targetWeightsX g) (targetWeightsY g)) g.

Definition update (interactions : list GridInteraction) (g : GridStretchManager)
  : GridStretchManager :=
  smooth (fold_left (fun g point => influence point g) interactions (resetTargets g)).

End Update.

(** [(image as any).width || 1280] *)
Definition orDefault (v : option Q) (d : Q) : Q :=
  match v with
  | Some q => if Qeq_bool q 0 then d else q
  | None => d
  end.

Record Image := mkImage { imageId : nat; imageWidth : option Q; imageHeight : option Q }.

Definition totalWeights (g : GridStretchManager) : Q * Q :=
  for_ (n g)
    (fun i '(totalWeightX, totalWeightY) =>
       (totalWeightX + at_ (currentWeightsX g) i,
        totalWeightY + at_ (currentWeightsY g) i)) (0, 0).

Definition unitW (g : GridStretchManager) (rect : Rect) : Q :=
  rw rect / fst (totalWeights g).
Definition unitH (g : GridStretchManager) (rect : Rect) : Q :=
  rh rect / snd (totalWeights g).

Definition colW (g : GridStretchManager) (rect : Rect) (i : nat) : Q :=
  at_ (currentWeightsX g) i * unitW g rect.
Definition rowH (g : GridStretchManager) (rect : Rect) (j : nat) : Q :=
  at_ (currentWeightsY g) j * unitH g rect.

(** The commands of one cell. *)
Definition cellOps (image : nat) (sx sy sw sh dx dy cw rh' : Q) : list CanvasOp :=
  [ DrawImage image sx sy sw sh dx dy (cw + 1) (rh' + 1);
    SetLineWidth 1;
    SetStrokeStyle (200, 0, 0, 1 # 2);
    StrokeRect dx dy cw rh' ].

Definition draw (g : GridStretchManager) (image : Image) (rect : Rect)
    (offsetX offsetY drawW drawH : Q) : list CanvasOp :=
  let imgWidth := orDefault (imageWidth image) 1280 in
  let imgHeight := orDefault (imageHeight image) 720 in
  let relX := (rx rect - offsetX) / drawW in
  let relY := (ry rect - offsetY) / drawH in
  let relW := rw rect / drawW in
  let relH := rh rect / drawH in
  let sourceRectX := relX * imgWidth in
  let sourceRectY := relY * imgHeight in
  let sourceRectW := relW * imgWidth in
  let sourceRectH := relH * imgHeight in
  let sw := sourceRectW / ofNat (n g) in
  let sh := sourceRectH / ofNat (n g) in
  let cells :=
    snd (for_ (n g)
           (fun i '(dx, ops) =>
              let cw := colW g rect i in
              let column :=
                snd (for_ (n g)
                       (fun j '(dy, ops) =>
                          let rh' := rowH g rect j in
                          let sx := sourceRectX + ofNat i * sw in
                          let sy := sourceRectY + ofNat j * sh in
                          (dy + rh',
                           ops ++ cellOps (imageId image) sx sy sw sh dx dy cw rh'))
                       (ry rect, ops)) in
              (dx + cw, column))
           (rx rect, [])) in
  [Save; BeginPath; RectPath rect; Clip] ++ cells ++ [Restore].

(** The rectangles stroked by a list of commands. *)
Definition strokes (ops : list CanvasOp) : list Rect :=
  flat_map (fun op => match op with
                      | StrokeRect dx dy w h => [mkRect dx dy w h]
                      | _ => []
                      end) ops.

(** Commands on the saved states and on the clip. *)
Definition unclips (op : CanvasOp) : bool :=
  match op with
  | Save | Restore | Clip | BeginPath | RectPath _ => true
  | _ => false
  end.

(** [clippedTo rect ops]: the commands open a saved state, clip to [rect],
    paint, and restore; nothing in between lifts the clip. *)
Definition clippedTo (rect : Rect) (ops : list CanvasOp) : Prop :=
  exists body,
    ops = [Save; BeginPath; RectPath rect; Clip] ++ body ++ [Restore]
    /\ forallb (fun op => negb (unclips op)) body = true.

Definition sumQ (l : list Q) : Q := fold_right Qplus 0 l.

(** The sum of the first [k] weights, as the loop of [draw] adds them. *)
Fixpoint partial (a : list Q) (k : nat) : Q :=
  match k with
  | O => 0
  | S k' => partial a k' + at_ a k'
  end.

(** Where column [k] starts and where row [k] starts. *)
Fixpoint colX (g : GridStretchManager) (rect : Rect) (k : nat) : Q :=
  match k with
  | O => rx rect
  | S k' => colX g rect k' + colW g rect k'
  end.

Fixpoint rowY (g : GridStretchManager) (rect : Rect) (k : nat) : Q :=
  match k with
  | O => ry rect
  | S k' => rowY g rect k' + rowH g rect k'
  end.

(** The cells of the grid, column by column. *)
Definition gridCells (g : GridStretchManager) (rect : Rect) : list Rect :=
  flat_map (fun i => map (fun j => mkRect (colX g rect i) (rowY g rect j)
                                     (colW g rect i) (rowH g rect j))
                         (seq 0 (n g)))
           (seq 0 (n g)).

(** A rectangle inside another. *)
Definition inside (cell rect : Rect) : Prop :=
  rx rect <= rx cell /\ rx cell + rw cell <= rx rect + rw rect
  /\ ry rect <= ry cell /\ ry cell + rh cell <= ry rect + rh rect.

(** All weights of the first [n] slots are at least the baseline. *)
Definition baseline (g : GridStretchManager) (a : list Q) : Prop :=
  forall j, (j < n g)%nat -> 1 <= at_ a j.

Definition allOnes (g : GridStretchManager) (a : list Q) : Prop :=
  forall j, (j < n g)%nat -> at_ a j = 1.

End GridStretch.

(** ** santaUtils: the path and the horse puppet *)

Module Santa.

Record BezierPath := mkPath { points : list Point }.

(** [generate]: [r 0], [r 1], ... are the successive [Math.random()] draws. *)
Definition generate (w h : Q) (r : nat -> Q) : BezierPath :=
  let margin := Math_min w h * (2 # 10) in
  let p0 := mkPoint (r 0%nat * (w - 2 * margin) + margin)
                    (r 1%nat * (h - 2 * margin) + margin) in
  let p3 := mkPoint (r 2%nat * (w - 2 * margin) + margin)
                    (r 3%nat * (h - 2 * margin) + margin) in
  let p1 := mkPoint (r 4%nat * w) (r 5%nat * h) in
  let p2 := mkPoint (r 6%nat * w) (r 7%nat * h) in
  mkPath [p0; p1; p2; p3].

Definition getPoint (path : BezierPath) (t : Q) : Point :=
  match points path with
  | p0 :: p1 :: p2 :: p3 :: _ =>
      let invT := 1 - t in
      mkPoint
        (invT ^ 3 * px p0 + 3 * invT ^ 2 * t * px p1
         + 3 * invT * t ^ 2 * px p2 + t ^ 3 * px p3)
        (invT ^ 3 * py p0 + 3 * invT ^ 2 * t * py p1
         + 3 * invT * t ^ 2 * py p2 + t ^ 3 * py p3)
  | _ => mkPoint 0 0
  end.

Inductive HorseTheme := THEME_BROWN | THEME_WHITE.
Inductive Mode := AUTO | PUPPET.

(** The finger positions the strings are drawn from. *)
Record Anchors := mkAnchors { bl : Point; fl : Point; head_ : Point; fr : Point; br : Point }.

Record SantaPuppet := mkPuppet {
  theme : HorseTheme;
  head : Point;
  body : Point;
  flKnee : Point; frKnee : Point; blKnee : Point; brKnee : Point;
  flHoof : Point; frHoof : Point; blHoof : Point; brHoof : Point;
  stringAnchors : option Anchors
}.

Definition new (t : HorseTheme) : SantaPuppet :=
  let o := mkPoint 0 0 in
  mkPuppet t o o o o o o o o o o None.

Definition lerpPoint (current target : Point) (speed : Q) : Point :=
  mkPoint (px current + (px target - px current) * speed)
          (py current + (py target - py current) * speed).

Definition truthy (q : Q) : bool := negb (Qeq_bool q 0).

Section Update.
Context `{MathLib}.

Definition PI : Q := 3141592653589793 # 1000000000000000.

Definition bodyHeight : Q := 30.
Definition legUpperLength : Q := 25.
Definition legLowerLength : Q := 25.
Definition standHeight : Q := legUpperLength + legLowerLength + bodyHeight / 2.

(** The x the auto-pilot steers to: the path position, mirrored about the
    centre of the rect for the second horse. *)
Definition autoTargetX (rect : Rect) (path : BezierPath) (progress : Q)
    (mirrorAuto : bool) : Q :=
  let pathPos := getPoint path progress in
  let targetX := rx rect + px pathPos in
  if mirrorAuto then
    let centerX := rx rect + rw rect / 2 in
    let dist := targetX - centerX in
    centerX - dist
  else targetX.

Definition updateAuto (time : Q) (rect : Rect) (path : BezierPath) (progress : Q)
    (mirrorAuto : bool) (p : SantaPuppet) : SantaPuppet :=
  let floorY := ry rect + rh rect in
  let targetX := autoTargetX rect path progress mirrorAuto in
  let baseY := floorY - standHeight in
  let bounce :=
    Math_abs (Math_sin (time * 12 + (if mirrorAuto then PI else 0))) * 10 in
  let targetBody := mkPoint targetX (baseY - bounce) in
  let headOffset := if mirrorAuto then - (40) else 40 in
  let targetHead := mkPoint (targetX + headOffset) (baseY - 40 - bounce) in
  let stride := 20 in
  let speed := 12 in
  let kneeLift := 15 in
  let getKneePos (offsetX phase : Q) :=
    let dir := if mirrorAuto then - (1) else 1 in
    mkPoint (targetX + (offsetX * dir) + Math_cos (time * speed + phase) * stride)
            (baseY + 20 - Math_max 0 (Math_sin (time * speed + phase) * kneeLift)) in
  let tFL := getKneePos 25 0 in
  let tFR := getKneePos 25 PI in
  let tBL := getKneePos (- (25)) PI in
  let tBR := getKneePos (- (25)) 0 in
  let smooth := 1 # 10 in
  mkPuppet (theme p)
    (lerpPoint (head p) targetHead smooth)
    (lerpPoint (body p) targetBody smooth)
    (lerpPoint (flKnee p) tFL smooth)
    (lerpPoint (frKnee p) tFR smooth)
    (lerpPoint (blKnee p) tBL smooth)
    (lerpPoint (brKnee p) tBR smooth)
    (flHoof p) (frHoof p) (blHoof p) (brHoof p) None.

Inductive ControlType := KNEE | HEAD.

(** [solveControlPoint]; [None] when the landmark is missing. *)
Definition solveControlPoint (rect : Rect) (handLandmarks : NormalizedLandmarkList)
    (screenW screenH : Q) (idx : nat) (type : ControlType)
  : option (Point * Point) :=
  match nth_error handLandmarks idx with
  | None => None
  | Some lm =>
      let floorY := ry rect + rh rect in
      let fx := x lm * screenW in
      let fy := y lm * screenH in
      let anchor := mkPoint fx fy in
      let tx := Math_max (rx rect) (Math_min (rx rect + rw rect) fx) in
      let stringLen := rh rect * (4 # 10) in
      let ty := fy + stringLen in
      let ty := match type with
                | KNEE => Math_min (floorY - 10) ty
                | HEAD => Math_min (floorY - standHeight + 20) ty
                end in
      let ty := Math_max (ry rect) ty in
      Some (mkPoint tx ty, anchor)
  end.

Definition updatePuppet (rect : Rect) (handLandmarks : NormalizedLandmarkList)
    (screenW screenH : Q) (p : SantaPuppet) : option SantaPuppet :=
  match solveControlPoint rect handLandmarks screenW screenH 4 KNEE,
        solveControlPoint rect handLandmarks screenW screenH 8 KNEE,
        solveControlPoint rect handLandmarks screenW screenH 12 HEAD,
        solveControlPoint rect handLandmarks screenW screenH 16 KNEE,
        solveControlPoint rect handLandmarks screenW screenH 20 KNEE with
  | Some rBL, Some rFL, Some rHead, Some rFR, Some rBR =>
      let smooth := 25 # 100 in
      let head' := lerpPoint (head p) (fst rHead) smooth in
      let flKnee' := lerpPoint (flKnee p) (fst rFL) smooth in
      let frKnee' := lerpPoint (frKnee p) (fst rFR) smooth in
      let blKnee' := lerpPoint (blKnee p) (fst rBL) smooth in
      let brKnee' := lerpPoint (brKnee p) (fst rBR) smooth in
      let legCenterX := (px flKnee' + px blKnee' + px frKnee' + px brKnee') / 4 in
      let legCenterY := (py flKnee' + py blKnee') / 2 - legUpperLength in
      let targetBodyX := (px head' + legCenterX) / 2 in
      let targetBody :=
        mkPoint targetBodyX ((py head' * (6 # 10) + legCenterY * (4 # 10)) + 20) in
      Some (mkPuppet (theme p) head' (lerpPoint (body p) targetBody smooth)
              flKnee' frKnee' blKnee' brKnee'
              (flHoof p) (frHoof p) (blHoof p) (brHoof p)
              (Some (mkAnchors (snd rBL) (snd rFL) (snd rHead) (snd rFR) (snd rBR))))
  | _, _, _, _, _ => None
  end.

Definition resolveHoof (floorY : Q) (knee currentHoof : Point) : Point :=
  let targetX := px knee in
  let targetY := py knee + legLowerLength in
  let targetY := if Qgtb targetY floorY then floorY else targetY in
  lerpPoint currentHoof (mkPoint targetX targetY) (4 # 10).

Definition resolveHooves (rect : Rect) (p : SantaPuppet) : SantaPuppet :=
  let floorY := ry rect + rh rect in
  mkPuppet (theme p) (head p) (body p)
    (flKnee p) (frKnee p) (blKnee p) (brKnee p)
    (resolveHoof floorY (flKnee p) (flHoof p))
    (resolveHoof floorY (frKnee p) (frHoof p))
    (resolveHoof floorY (blKnee p) (blHoof p))
    (resolveHoof floorY (brKnee p) (brHoof p))
    (stringAnchors p).

(** [update]; [time] is [Date.now() / 1000].  [None]: a [TypeError], which
    is raised before any field of the puppet is written. *)
Definition update (time : Q) (mode : Mode) (rect : Rect) (path : BezierPath)
    (progress : Q) (handLandmarks : option NormalizedLandmarkList)
    (screenW screenH : Q) (mirrorAuto : bool) (p : SantaPuppet)
  : option SantaPuppet :=
  match mode with
  | AUTO => Some (resolveHooves rect (updateAuto time rect path progress mirrorAuto p))
  | PUPPET =>
      match handLandmarks with
      | Some hl =>
          if truthy screenW && truthy screenH then
            option_map (resolveHooves rect) (updatePuppet rect hl screenW screenH p)
          else Some (resolveHooves rect p)
      | None => Some (resolveHooves rect p)
      end
  end.

End Update.

End Santa.

(** ** The time-slice camera *)

Module TimeSlice.

Inductive AppState := IDLE | RESIZING | FROZEN.

Inductive EffectMode :=
| NORMAL | GRID_STRETCH | SLICE_3D | PIXEL_GRID | SHREDDER | SANTA_WALKER | PIXEL_TEXT.

(** The refs of [App] that the state machine, the dwell timers, the grid
    effect and the horses use, and the size of the canvas.  [frozenCanvas]
    is the frame painted on the off-screen canvas ([None]: cleared); the
    off-screen canvas itself is taken to exist, as it does from the first
    callback that finds the display larger or smaller than the canvas.
    The private state of the other effects and of the sound engine is left
    out. *)
Record App := mkApp {
  stateRef : AppState;
  rectRef : Rect;
  handCountRef : nat;
  effectModeRef : EffectMode;
  zoomLevelRef : Q;
  frozenCanvas : option nat;
  santaPathRef : Santa.BezierPath;
  horse1Ref : Santa.SantaPuppet;
  horse2Ref : Santa.SantaPuppet;
  santaPathProgressRef : Q;
  gridStretchRef : GridStretch.GridStretchManager;
  resetStartTimeRef : option Z;
  effectSwitchStartTimeRef : option Z;
  canvasWidth : Q;
  canvasHeight : Q
}.

Definition set_stateRef (v : AppState) (a : App) : App :=
  mkApp v (rectRef a) (handCountRef a) (effectModeRef a) (zoomLevelRef a)
    (frozenCanvas a) (santaPathRef a) (horse1Ref a) (horse2Ref a)
    (santaPathProgressRef a) (gridStretchRef a) (resetStartTimeRef a)
    (effectSwitchStartTimeRef a) (canvasWidth a) (canvasHeight a).

Definition set_rectRef (v : Rect) (a : App) : App :=
  mkApp (stateRef a) v (handCountRef a) (effectModeRef a) (zoomLevelRef a)
    (frozenCanvas a) (santaPathRef a) (horse1Ref a) (horse2Ref a)
    (santaPathProgressRef a) (gridStretchRef a) (resetStartTimeRef a)
    (effectSwitchStartTimeRef a) (canvasWidth a) (canvasHeight a).

Definition set_handCountRef (v : nat) (a : App) : App :=
  mkApp (stateRef a) (rectRef a) v (effectModeRef a) (zoomLevelRef a)
    (frozenCanvas a) (santaPathRef a) (horse1Ref a) (horse2Ref a)
    (santaPathProgressRef a) (gridStretchRef a) (resetStartTimeRef a)
    (effectSwitchStartTimeRef a) (canvasWidth a) (canvasHeight a).

Definition set_effectModeRef (v : EffectMode) (a : App) : App :=
  mkApp (stateRef a) (rectRef a) (handCountRef a) v (zoomLevelRef a)
    (frozenCanvas a) (santaPathRef a) (horse1Ref a) (horse2Ref a)
    (santaPathProgressRef a) (gridStretchRef a) (resetStartTimeRef a)
    (effectSwitchStartTimeRef a) (canvasWidth a) (canvasHeight a).

Definition set_frozenCanvas (v : option nat) (a : App) : App :=
  mkApp (stateRef a) (rectRef a) (handCountRef a) (effectModeRef a) (zoomLevelRef a)
    v (santaPathRef a) (horse1Ref a) (horse2Ref a)
    (santaPathProgressRef a) (gridStretchRef a) (resetStartTimeRef a)
    (effectSwitchStartTimeRef a) (canvasWidth a) (canvasHeight a).

Definition set_santaPathRef (v : Santa.BezierPath) (a : App) : App :=
  mkApp (stateRef a) (rectRef a) (handCountRef a) (effectModeRef a) (zoomLevelRef a)
    (frozenCanvas a) v (horse1Ref a) (horse2Ref a)
    (santaPathProgressRef a) (gridStretchRef a) (resetStartTimeRef a)
    (effectSwitchStartTimeRef a) (canvasWidth a) (canvasHeight a).

Definition set_horse1Ref (v : Santa.SantaPuppet) (a : App) : App :=
  mkApp (stateRef a) (rectRef a) (handCountRef a) (effectModeRef a) (zoomLevelRef a)
    (frozenCanvas a) (santaPathRef a) v (horse2Ref a)
    (santaPathProgressRef a) (gridStretchRef a) (resetStartTimeRef a)
    (effectSwitchStartTimeRef a) (canvasWidth a) (canvasHeight a).

Definition set_horse2Ref (v : Santa.SantaPuppet) (a : App) : App :=
  mkApp (stateRef a) (rectRef a) (handCountRef a) (effectModeRef a) (zoomLevelRef a)
    (frozenCanvas a) (santaPathRef a) (horse1Ref a) v
    (santaPathProgressRef a) (gridStretchRef a) (resetStartTimeRef a)
    (effectSwitchStartTimeRef a) (canvasWidth a) (canvasHeight a).

Definition set_santaPathProgressRef (v : Q) (a : App) : App :=
  mkApp (stateRef a) (rectRef a) (handCountRef a) (effectModeRef a) (zoomLevelRef a)
    (frozenCanvas a) (santaPathRef a) (horse1Ref a) (horse2Ref a)
    v (gridStretchRef a) (resetStartTimeRef a)
    (effectSwitchStartTimeRef a) (canvasWidth a) (canvasHeight a).

Definition set_gridStretchRef (v : GridStretch.GridStretchManager) (a : App) : App :=
  mkApp (stateRef a) (rectRef a) (handCountRef a) (effectModeRef a) (zoomLevelRef a)
    (frozenCanvas a) (santaPathRef a) (horse1Ref a) (horse2Ref a)
    (santaPathProgressRef a) v (resetStartTimeRef a)
    (effectSwitchStartTimeRef a) (canvasWidth a) (canvasHeight a).

Definition set_resetStartTimeRef (v : option Z) (a : App) : App :=
  mkApp (stateRef a) (rectRef a) (handCountRef a) (effectModeRef a) (zoomLevelRef a)
    (frozenCanvas a) (santaPathRef a) (horse1Ref a) (horse2Ref a)
    (santaPathProgressRef a) (gridStretchRef a) v
    (effectSwitchStartTimeRef a) (canvasWidth a) (canvasHeight a).

Definition set_effectSwitchStartTimeRef (v : option Z) (a : App) : App :=
  mkApp (stateRef a) (rectRef a) (handCountRef a) (effectModeRef a) (zoomLevelRef a)
    (frozenCanvas a) (santaPathRef a) (horse1Ref a) (horse2Ref a)
    (santaPathProgressRef a) (gridStretchRef a) (resetStartTimeRef a) v
    (canvasWidth a) (canvasHeight a).

Definition set_canvasSize (width height : Q) (a : App) : App :=
  mkApp (stateRef a) (rectRef a) (handCountRef a) (effectModeRef a) (zoomLevelRef a)
    (frozenCanvas a) (santaPathRef a) (horse1Ref a) (horse2Ref a)
    (santaPathProgressRef a) (gridStretchRef a) (resetStartTimeRef a)
    (effectSwitchStartTimeRef a) width height.

(** The component as mounted; a canvas element is 300 by 150 until it is
    given a size. *)
Definition initial : App :=
  mkApp IDLE (mkRect 0 0 0 0) 0 NORMAL 1 None (Santa.mkPath [])
    (Santa.new Santa.THEME_BROWN) (Santa.new Santa.THEME_WHITE) 0
    GridStretch.new None None 300 150.

(** What one detector callback receives from outside: the results, the
    size at which the canvas is displayed ([canvasW], [canvasH]: the
    callback gives the canvas this size before it reads it), the clock
    readings of the two dwell timers (one reading
    per [Date.now()] call), the times of the two horse updates and the
    random draws of the path generator, by call site. *)
Record Frame := mkFrame {
  image : GridStretch.Image;
  multiHandLandmarks : option (list NormalizedLandmarkList);
  canvasW : Q;
  canvasH : Q;
  resetClock : Z * Z;
  switchClock : Z * Z;
  horseClock : Q * Q;
  random : nat -> nat -> Q
}.

(** A callback runs on the refs and may throw; what it wrote before the
    exception stays written. *)
Definition M (A : Type) : Type := App -> option A * App.

Definition mret {A} (a : A) : M A := fun s => (Some a, s).
Definition mbind {A B} (m : M A) (k : A -> M B) : M B :=
  fun s => match m s with
           | (Some a, s') => k a s'
           | (None, s') => (None, s')
           end.
Definition get : M App := fun s => (Some s, s).
Definition modify (f : App -> App) : M unit := fun s => (Some tt, f s).
Definition orThrow {A} (o : option A) : M A := fun s => (o, s).
Definition when (b : bool) (m : M unit) : M unit := if b then m else mret tt.

(** [relates R m]: the refs after [m], whether it returns or throws, are
    related by [R] to the refs before.  [keeps g m]: the reading [g] of the
    refs is left as it was.  [yields P m]: [m] never throws and its value
    satisfies [P]. *)
Definition relates {A} (R : App -> App -> Prop) (m : M A) : Prop :=
  forall a, R a (snd (m a)).

Definition keeps {X A} (g : App -> X) (m : M A) : Prop :=
  relates (fun a a' => g a' = g a) m.

Definition yields {A} (P : A -> Prop) (m : M A) : Prop :=
  forall a, exists v, fst (m a) = Some v /\ P v.

Declare Scope app_scope.
Notation "v <- m ;; k" := (mbind m (fun v => k))
  (at level 61, m at next level, right associativity) : app_scope.
Notation "m ;;; k" := (mbind m (fun _ => k))
  (at level 61, right associativity) : app_scope.
Local Open Scope app_scope.

(** [hand[i]] followed by a field read. *)
Definition lm (hand : NormalizedLandmarkList) (i : nat) : M Landmark :=
  orThrow (nth_error hand i).

Definition lerp (start end_ factor : Q) : Q := start + (end_ - start) * factor.

(** A value used as a condition: [null] and [0] are falsy. *)
Definition unset (t : option Z) : bool :=
  match t with None => true | Some v => (v =? 0)%Z end.

Definition startOf (t : option Z) : Z := match t with Some v => v | None => 0%Z end.

Record View := mkView { offsetX : Q; offsetY : Q; drawW : Q; drawH : Q }.

(** Step 2 of [onResults]: dimensions with zoom. *)
Definition viewOf (f : Frame) (zoom : Q) : View :=
  let imgW := GridStretch.orDefault (GridStretch.imageWidth (image f)) 1280 in
  let imgH := GridStretch.orDefault (GridStretch.imageHeight (image f)) 720 in
  let baseScale := Math_max (canvasW f / imgW) (canvasH f / imgH) in
  let scale := baseScale * zoom in
  let drawW := imgW * scale in
  let drawH := imgH * scale in
  let offsetX := (canvasW f - drawW) / 2 in
  let offsetY := (canvasH f - drawH) / 2 in
  mkView offsetX offsetY drawW drawH.

Definition getScreenCoord (v : View) (normalizedX normalizedY : Q) : Point :=
  mkPoint (offsetX v + normalizedX * drawW v) (offsetY v + normalizedY * drawH v).

Definition eqState (a b : AppState) : bool :=
  match a, b with
  | IDLE, IDLE | RESIZING, RESIZING | FROZEN, FROZEN => true
  | _, _ => false
  end.

(** [initSanta] *)
Definition initSanta (r : Rect) (draws : nat -> Q) : M unit :=
  let path := Santa.generate (rw r) (rh r) draws in
  let start := Santa.getPoint path 0 in
  let centerX := rx r + rw r / 2 in
  let mirrorX := centerX - ((rx r + px start) - centerX) in
  let place (bx : Q) (p : Santa.SantaPuppet) :=
    Santa.mkPuppet (Santa.theme p)
      (mkPoint bx (ry r + py start - 50)) (mkPoint bx (ry r + py start))
      (Santa.flKnee p) (Santa.frKnee p) (Santa.blKnee p) (Santa.brKnee p)
      (Santa.flHoof p) (Santa.frHoof p) (Santa.blHoof p) (Santa.brHoof p)
      (Santa.stringAnchors p) in
  modify (fun a =>
            set_horse2Ref (place mirrorX (horse2Ref a))
              (set_horse1Ref (place (rx r + px start) (horse1Ref a))
                 (set_santaPathProgressRef 0 (set_santaPathRef path a)))).

(** [handleEffectSwitch], for the horses and the grid; the start-up of
    the pixel text, of the tiles and of the sound is left out, as in the
    state machine below. *)
Definition handleEffectSwitch (mode : EffectMode) (draws : nat -> Q) : M unit :=
  modify (set_effectModeRef mode) ;;;
  a <- get ;;
  match mode with
  | SANTA_WALKER => initSanta (rectRef a) draws
  | GRID_STRETCH =>
      modify (set_gridStretchRef (GridStretch.reset (gridStretchRef a)))
  | _ => mret tt
  end.

(** [resetSystem] *)
Definition resetSystem : M unit :=
  modify (fun a =>
            set_frozenCanvas None
              (set_effectSwitchStartTimeRef None
                 (set_resetStartTimeRef None
                    (set_effectModeRef NORMAL
                       (set_rectRef (mkRect 0 0 0 0)
                          (set_stateRef IDLE a)))))).

Section OnResults.
Context `{MathLib}.

Definition bothHands {A} (hands : option (list NormalizedLandmarkList))
    (k : NormalizedLandmarkList -> NormalizedLandmarkList -> M A) (otherwise : M A)
  : M A :=
  match hands with
  | Some [h0; h1] => k h0 h1
  | _ => otherwise
  end.

(** The state machine of [onResults].  On entering FROZEN the frame is
    painted on the off-screen canvas, which is taken to exist, and the
    effect shown is started: of this start-up the horses' is modelled;
    that of the pixel text, of the tiles and of the sound, whose state the
    model does not hold, is left out, and with it the exception that the
    start-up of the pixel text raises for a rect less than a pixel wide or
    high. *)
Definition stateMachine (f : Frame) (v : View) : M unit :=
  let hands := multiHandLandmarks f in
  (a <- get ;;
   when (eqState (stateRef a) IDLE)
     (bothHands hands
        (fun h0 h1 =>
           when (holds (Gesture.isPointingUp (Some h0))
                 && holds (Gesture.isPointingUp (Some h1)))
             (modify (set_stateRef RESIZING)))
        (mret tt))) ;;;
  a <- get ;;
  when (eqState (stateRef a) RESIZING)
    (bothHands hands
       (fun h0 h1 =>
          t0 <- lm h0 8 ;;
          let p1 := getScreenCoord v (x t0) (y t0) in
          t1 <- lm h1 8 ;;
          let p2 := getScreenCoord v (x t1) (y t1) in
          let tx := Math_min (px p1) (px p2) in
          let ty := Math_min (py p1) (py p2) in
          let tw := Math_abs (px p1 - px p2) in
          let th := Math_abs (py p1 - py p2) in
          let smoothFactor := 4 # 10 in
          modify (fun a =>
                    let r := rectRef a in
                    if Qeq_bool (rw r) 0 && Qeq_bool (rh r) 0 then
                      set_rectRef (mkRect tx ty tw th) a
                    else
                      set_rectRef
                        (mkRect (lerp (rx r) tx smoothFactor)
                                (lerp (ry r) ty smoothFactor)
                                (lerp (rw r) tw smoothFactor)
                                (lerp (rh r) th smoothFactor)) a) ;;;
          when (holds (Gesture.isPinching (Some h0))
                && holds (Gesture.isPinching (Some h1)))
            (modify (set_stateRef FROZEN) ;;;
             modify (set_frozenCanvas (Some (GridStretch.imageId (image f)))) ;;;
             a <- get ;;
             match effectModeRef a with
             | SANTA_WALKER => initSanta (rectRef a) (random f 0%nat)
             | _ => mret tt
             end))
       (mret tt)).

(** [activeHands.sort((a, b) => a[8].x - b[8].x)]: a stable sort by the x of
    the index fingertip.  Hands are inserted from the last to the first,
    each before the hands that do not lie to its left, so hands with equal
    x keep their order. *)
Fixpoint insertByX (k : Q) (h : NormalizedLandmarkList)
    (l : list (Q * NormalizedLandmarkList)) : list (Q * NormalizedLandmarkList) :=
  match l with
  | [] => [(k, h)]
  | (k', h') :: rest =>
      if Qleb k k' then (k, h) :: l else (k', h') :: insertByX k h rest
  end.

Fixpoint keyed (hands : list NormalizedLandmarkList)
  : option (list (Q * NormalizedLandmarkList)) :=
  match hands with
  | [] => Some []
  | h :: rest =>
      match nth_error h 8, keyed rest with
      | Some t, Some ks => Some ((x t, h) :: ks)
      | _, _ => None
      end
  end.

Definition sortByX (hands : list NormalizedLandmarkList)
  : option (list NormalizedLandmarkList) :=
  match hands with
  | [] | [_] => Some hands
  | _ =>
      option_map
        (fun ks => map snd (fold_right (fun kh acc => insertByX (fst kh) (snd kh) acc) [] ks))
        (keyed hands)
  end.

(** Interaction data preparation; the velocity computed for the sound
    engine reads the index fingertip of the first active hand. *)
Definition activeHandsOf (f : Frame) : M (list NormalizedLandmarkList) :=
  a <- get ;;
  match stateRef a, multiHandLandmarks f with
  | FROZEN, Some hands =>
      sorted <- orThrow (sortByX hands) ;;
      match sorted with
      | h :: _ => _ <- lm h 8 ;; mret sorted
      | [] => mret sorted
      end
  | _, _ => mret []
  end.

(** The interaction of one hand with the grid, if it is near the rect.
    For a rect without width or height the divisions give an infinity or
    NaN, which fails the test of nearness. *)
Definition gridInteraction (v : View) (r : Rect) (hand : NormalizedLandmarkList)
  : M (list GridStretch.GridInteraction) :=
  t4 <- lm hand 4 ;;
  let p4 := getScreenCoord v (x t4) (y t4) in
  t8 <- lm hand 8 ;;
  let p8 := getScreenCoord v (x t8) (y t8) in
  let '(targetX, targetY, radius) :=
    if holds (Gesture.isPointingUp (Some hand)) then
      ((px p8 - rx r) / rw r, (py p8 - ry r) / rh r, 12 # 100)
    else
      let centerX := (px p4 + px p8) / 2 in
      let centerY := (py p4 + py p8) / 2 in
      let dx := px p4 - px p8 in
      let dy := py p4 - py p8 in
      let distPx := Math_sqrt (dx * dx + dy * dy) in
      ((centerX - rx r) / rw r, (centerY - ry r) / rh r, distPx / rw r) in
  if negb (Qeq_bool (rw r) 0) && negb (Qeq_bool (rh r) 0)
     && Qgeb targetX (- (2 # 10)) && Qleb targetX (12 # 10)
     && Qgeb targetY (- (2 # 10)) && Qleb targetY (12 # 10)
  then mret [GridStretch.mkInteraction targetX targetY radius]
  else mret [].

Fixpoint gridInteractions (v : View) (r : Rect) (hands : list NormalizedLandmarkList)
  : M (list GridStretch.GridInteraction) :=
  match hands with
  | [] => mret []
  | hand :: rest =>
      i <- gridInteraction v r hand ;;
      more <- gridInteractions v r rest ;;
      mret (i ++ more)
  end.

(** The grid-stretch branch of the rendering. *)
Definition renderGrid (f : Frame) (v : View) (activeHands : list NormalizedLandmarkList)
  : M (list CanvasOp) :=
  a <- get ;;
  let r := rectRef a in
  interactions <- gridInteractions v r activeHands ;;
  modify (fun a => set_gridStretchRef
                     (GridStretch.update interactions (gridStretchRef a)) a) ;;;
  a <- get ;;
  mret (GridStretch.draw (gridStretchRef a) (image f) r
          (offsetX v) (offsetY v) (drawW v) (drawH v)).

Definition modeOf (hand : option NormalizedLandmarkList) : Santa.Mode :=
  match hand with Some _ => Santa.PUPPET | None => Santa.AUTO end.

(** The horse-puppet branch of the rendering. *)
Definition renderSanta (f : Frame) (activeHands : list NormalizedLandmarkList)
  : M unit :=
  a <- get ;;
  let r := rectRef a in
  let hand1 := nth_error activeHands 0 in
  let hand2 := nth_error activeHands 1 in
  when (match hand1 with None => true | Some _ => false end)
    (modify (fun a => set_santaPathProgressRef (santaPathProgressRef a + (2 # 1000)) a) ;;;
     a <- get ;;
     when (Qgtb (santaPathProgressRef a) 1)
       (modify (fun a =>
                  set_santaPathRef (Santa.generate (rw r) (rh r) (random f 1%nat))
                    (set_santaPathProgressRef 0 a)))) ;;;
  a <- get ;;
  h1 <- orThrow (Santa.update (fst (horseClock f)) (modeOf hand1) r (santaPathRef a)
                   (santaPathProgressRef a) hand1 (canvasW f) (canvasH f) false
                   (horse1Ref a)) ;;
  modify (set_horse1Ref h1) ;;;
  h2 <- orThrow (Santa.update (snd (horseClock f)) (modeOf hand2) r (santaPathRef a)
                   (santaPathProgressRef a) hand2 (canvasW f) (canvasH f) true
                   (horse2Ref a)) ;;
  modify (set_horse2Ref h2).

(** The rendering of a frame, as far as it writes refs of the model. *)
Definition render (f : Frame) (v : View) (activeHands : list NormalizedLandmarkList)
  : M (list CanvasOp) :=
  a <- get ;;
  match stateRef a with
  | FROZEN =>
      match effectModeRef a with
      | GRID_STRETCH => renderGrid f v activeHands
      | SANTA_WALKER => renderSanta f activeHands ;;; mret []
      | _ => mret []
      end
  | _ => mret []
  end.

(** 1. Reset gesture: two fists. *)
Definition isResetGesture (f : Frame) : bool :=
  match multiHandLandmarks f with
  | Some [h0; h1] =>
      holds (Gesture.isHandClosed (Some h0)) && holds (Gesture.isHandClosed (Some h1))
  | _ => false
  end.

Definition isVictory (f : Frame) : bool :=
  match multiHandLandmarks f with
  | Some hands => existsb (fun hand => holds (Gesture.isVictoryHand (Some hand))) hands
  | None => false
  end.

(** Reset logic; returns whether [resetSystem] ran. *)
Definition resetLogic (f : Frame) : M bool :=
  if isResetGesture f then
    a <- get ;;
    when (unset (resetStartTimeRef a))
      (modify (set_resetStartTimeRef (Some (fst (resetClock f))))) ;;;
    a <- get ;;
    let elapsed := (snd (resetClock f) - startOf (resetStartTimeRef a))%Z in
    if (1500 <? elapsed)%Z then
      resetSystem ;;;
      modify (set_resetStartTimeRef None) ;;;
      mret true
    else mret false
  else
    modify (set_resetStartTimeRef None) ;;; mret false.

Definition nextMode (m : EffectMode) : EffectMode :=
  match m with
  | NORMAL => GRID_STRETCH
  | GRID_STRETCH => SLICE_3D
  | SLICE_3D => PIXEL_GRID
  | PIXEL_GRID => SHREDDER
  | SHREDDER => SANTA_WALKER
  | SANTA_WALKER => PIXEL_TEXT
  | PIXEL_TEXT => NORMAL
  end.

(** Effect switch logic; returns the mode switched to, if any. *)
Definition effectSwitchLogic (f : Frame) : M (option EffectMode) :=
  a <- get ;;
  if eqState (stateRef a) FROZEN && isVictory f then
    when (unset (effectSwitchStartTimeRef a))
      (modify (set_effectSwitchStartTimeRef (Some (fst (switchClock f))))) ;;;
    a <- get ;;
    let elapsed := (snd (switchClock f) - startOf (effectSwitchStartTimeRef a))%Z in
    if (2000 <? elapsed)%Z then
      let mode := nextMode (effectModeRef a) in
      handleEffectSwitch mode (random f 2%nat) ;;;
      modify (set_effectSwitchStartTimeRef None) ;;;
      mret (Some mode)
    else mret None
  else
    modify (set_effectSwitchStartTimeRef None) ;;; mret None.

(** What a frame did besides writing refs. *)
Record Outcome := mkOutcome {
  gridOps : list CanvasOp;
  resetFired : bool;
  switchedTo : option EffectMode
}.

Definition handCount (f : Frame) : nat :=
  match multiHandLandmarks f with Some hands => length hands | None => O end.

(** The canvas does not have the size at which it is displayed. *)
Definition sizeChanged (f : Frame) (a : App) : bool :=
  negb (Qeq_bool (canvasWidth a) (canvasW f))
  || negb (Qeq_bool (canvasHeight a) (canvasH f)).

(** Step 1 of [onResults]: the canvas takes the display size; with it the
    off-screen canvas is given its width and height anew, which clears
    it. *)
Definition resizeCanvas (f : Frame) : M unit :=
  a <- get ;;
  when (sizeChanged f a)
    (modify (fun a => set_frozenCanvas None (set_canvasSize (canvasW f) (canvasH f) a))).

(** The refs after step 1. *)
Definition resized (f : Frame) (a : App) : App :=
  mkApp (stateRef a) (rectRef a) (handCountRef a) (effectModeRef a) (zoomLevelRef a)
    (if sizeChanged f a then None else frozenCanvas a)
    (santaPathRef a) (horse1Ref a) (horse2Ref a)
    (santaPathProgressRef a) (gridStretchRef a) (resetStartTimeRef a)
    (effectSwitchStartTimeRef a)
    (if sizeChanged f a then canvasW f else canvasWidth a)
    (if sizeChanged f a then canvasH f else canvasHeight a).

(** [onResults] *)
Definition onResults (f : Frame) : M Outcome :=
  resizeCanvas f ;;;
  a <- get ;;
  let v := viewOf f (zoomLevelRef a) in
  modify (set_handCountRef (handCount f)) ;;;
  stateMachine f v ;;;
  activeHands <- activeHandsOf f ;;
  ops <- render f v activeHands ;;
  fired <- resetLogic f ;;
  switched <- effectSwitchLogic f ;;
  mret (mkOutcome ops fired switched).

(** What the component does between two observations. *)
Inductive Event :=
| Results (f : Frame)
| ResetKey
| SetZoom (zoom : Q).

Definition set_zoomLevelRef (v : Q) (a : App) : App :=
  mkApp (stateRef a) (rectRef a) (handCountRef a) (effectModeRef a) v
    (frozenCanvas a) (santaPathRef a) (horse1Ref a) (horse2Ref a)
    (santaPathProgressRef a) (gridStretchRef a) (resetStartTimeRef a)
    (effectSwitchStartTimeRef a) (canvasWidth a) (canvasHeight a).

Definition step (e : Event) (a : App) : App :=
  match e with
  | Results f => snd (onResults f a)
  | ResetKey => snd (resetSystem a)
  | SetZoom zoom => set_zoomLevelRef zoom a
  end.

Definition run (es : list Event) (a : App) : App :=
  fold_left (fun a e => step e a) es a.


End OnResults.

End TimeSlice.

(** ** A computable run-time

    Rational stand-ins for the run-time's functions, precise enough to
    evaluate the handlers on concrete frames: the square root is rounded
    down to twelve decimals, the others are short series. *)

Definition approx_sqrt (q : Q) : Q :=
  if (Qnum q <=? 0)%Z then 0
  else Qred (Z.sqrt (Qnum q * Zpos (Qden q) * 10 ^ 24)
             # (Qden q * 1000000000000)).

Definition approx_exp (q : Q) : Q :=
  let series (t : Q) := 1 + t + (1 # 2) * (t * t) + (1 # 6) * (t * t * t) in
  if Qltb q 0 then / series (- q) else series q.

Definition approx_sin (q : Q) : Q := q - (1 # 6) * (q * q * q).
Definition approx_cos (q : Q) : Q := 1 - (1 # 2) * (q * q).

Definition approxMath : MathLib.
Proof.
  refine {| Math_sqrt := approx_sqrt; Math_exp := approx_exp;
            Math_sin := approx_sin; Math_cos := approx_cos;
            Math_exp_nonneg := _ |}.
  intro q. unfold approx_exp, Qltb.
  destruct (Qle_bool 0 q) eqn:E; cbn [negb]; cbv zeta.
  - apply Qle_bool_iff in E.
    assert (0 <= q * q) by nra.
    assert (0 <= q * q * q) by nra.
    lra.
  - assert (L : q < 0).
    { destruct (Qlt_le_dec q 0) as [L | L]; [exact L |].
      apply Qle_bool_iff in L. congruence. }
    apply Qlt_le_weak, Qinv_lt_0_compat.
    assert (0 <= (- q) * (- q)) by nra.
    assert (0 <= (- q) * (- q) * (- q)) by nra.
    lra.
Defined.

(** A hand given by its landmarks' coordinates. *)
Definition handOf (f : nat -> Q * Q) : NormalizedLandmarkList :=
  map (fun i => mkLandmark (fst (f i)) (snd (f i)) 0) (seq 0 21).

(** ** Reading the skeleton *)

(** The landmark at an index of a complete hand. *)
Definition at0 (l : NormalizedLandmarkList) (i : nat) : Landmark :=
  nth i l (mkLandmark 0 0 0).

Definition tipAbove (l : NormalizedLandmarkList) (tip pip : nat) : bool :=
  Qltb (y (at0 l tip)) (y (at0 l pip)).
Definition tipBelow (l : NormalizedLandmarkList) (tip pip : nat) : bool :=
  Qgtb (y (at0 l tip)) (y (at0 l pip)).

(** Fingertip and knuckle of each finger: the thumb with its IP joint, the
    other four with their PIP joints. *)
Definition fingerJoints : list (nat * nat) :=
  [(4, 3); (8, 6); (12, 10); (16, 14); (20, 18)]%nat.

(** How the y of each fingertip compares with the y of its knuckle. *)
Definition yProfile (l : NormalizedLandmarkList) : list comparison :=
  map (fun '(tip, pip) => Qcompare (y (at0 l tip)) (y (at0 l pip))) fingerJoints.

(** A pose is classified by comparing fingertip and knuckle heights when
    hands with the same comparisons get the same answer. *)
Definition byTipVersusKnuckle (pose : NormalizedLandmarkList -> bool) : Prop :=
  forall l1 l2 : NormalizedLandmarkList,
    (21 <= length l1)%nat -> (21 <= length l2)%nat ->
    yProfile l1 = yProfile l2 -> pose l1 = pose l2.

Section Poses.
Context `{MathLib}.

Definition pinch (l : NormalizedLandmarkList) : bool := holds (Gesture.isPinching (Some l)).
Definition fist (l : NormalizedLandmarkList) : bool := holds (Gesture.isHandClosed (Some l)).
Definition point (l : NormalizedLandmarkList) : bool := holds (Gesture.isPointingUp (Some l)).
Definition victory (l : NormalizedLandmarkList) : bool := holds (Gesture.isVictoryHand (Some l)).
Definition thumbUp (l : NormalizedLandmarkList) : bool := holds (ARGame.isActive l).

Definition poses : list (NormalizedLandmarkList -> bool) :=
  [pinch; fist; point; victory; thumbUp].

End Poses.

(** ** Sample hands *)

(** A pointing hand, a fist and a victory sign. *)
Definition pointing_hand : NormalizedLandmarkList :=
  handOf (fun i => if (i =? 8)%nat then (5 # 10, 2 # 10)
                   else if (i =? 6)%nat then (5 # 10, 4 # 10)
                   else if existsb (Nat.eqb i) [12; 16; 20]%nat then (5 # 10, 6 # 10)
                   else (5 # 10, 5 # 10)).

Definition fist_hand : NormalizedLandmarkList :=
  handOf (fun i => if existsb (Nat.eqb i) [8; 12; 16; 20]%nat then (5 # 10, 6 # 10)
                   else (5 # 10, 5 # 10)).

Definition victory_hand : NormalizedLandmarkList :=
  handOf (fun i => if existsb (Nat.eqb i) [8; 12]%nat then (5 # 10, 2 # 10)
                   else if existsb (Nat.eqb i) [16; 20]%nat then (5 # 10, 6 # 10)
                   else (5 # 10, 5 # 10)).

(** Two hands with all landmarks at the same height; the thumb tip of the
    second is one unit to the side. *)
Definition closed_pinch : NormalizedLandmarkList := handOf (fun _ => (0, 0)).

Definition open_pinch : NormalizedLandmarkList :=
  handOf (fun i => if (i =? 4)%nat then (1, 0) else (0, 0)).

(** Two hands that differ only in the height of the thumb tip. *)
Definition low_thumb : NormalizedLandmarkList :=
  handOf (fun i => if (i =? 4)%nat then (0, 4 # 10)
                   else if (i =? 8)%nat then (0, 3 # 10) else (0, 5 # 10)).

Definition high_thumb : NormalizedLandmarkList :=
  handOf (fun i => if (i =? 4)%nat then (0, 2 # 10)
                   else if (i =? 8)%nat then (0, 3 # 10) else (0, 5 # 10)).

(** ** The cover formula, as the specification words it *)

(** scale = max(canvasW/videoW, canvasH/videoH); target = video size times
    scale; offsets = (canvas - target)/2; x replaced by 1 - nx when
    mirrored; zoom applied about the canvas centre. *)
Definition coverMap (canvasW canvasH videoW videoH zoom : Q) (mirror : bool)
    (nx ny : Q) : Point :=
  let scale := Math_max (canvasW / videoW) (canvasH / videoH) in
  let targetW := videoW * scale in
  let targetH := videoH * scale in
  let offX := (canvasW - targetW) / 2 in
  let offY := (canvasH - targetH) / 2 in
  let pointX := offX + (if mirror then 1 - nx else nx) * targetW in
  let pointY := offY + ny * targetH in
  let centerX := canvasW / 2 in
  let centerY := canvasH / 2 in
  mkPoint (centerX + (pointX - centerX) * zoom)
          (centerY + (pointY - centerY) * zoom).

(** Equality of points up to equality of rationals. *)
Definition Peq (p q : Point) : Prop := px p == px q /\ py p == py q.

(** A world of the tear filter with nothing in it: camera on, 1280x720
    video on an 800x600 canvas. *)
Definition emptyWorld : ARCanvas.World :=
  ARCanvas.mkWorld None None true (ARCanvas.mkSettings 40 (8 # 10) (2 # 10))
    (ARCanvas.mkDimensions 800 600) (ARCanvas.mkDimensions 1280 720) 1
    [] 0 (ARCanvas.mkInteract None 0) (mkPoint 0 0) (8 # 10) [] 0.

(** A face of 468 landmarks on a diagonal, a world that sees it, and a
    tear half-way down the left cheek. *)
Definition sampleFace : list Landmark :=
  map (fun i => mkLandmark (inject_Z (Z.of_nat i) / 468) (inject_Z (Z.of_nat i) / 468) 0)
      (seq 0 468).

Definition slidingTear : ARCanvas.TearBody :=
  ARCanvas.mkBody 7 false
    (ARCanvas.mkPlugin ARCanvas.sliding ARCanvas.side_left (1 # 2) 3 40
       (mkPoint 100 100) None)
    (mkPoint 100 100) (mkPoint 0 0) 0 (mkPoint 0 0) true (2 # 10) (1 # 100) None.

Definition faceWorld : ARCanvas.World :=
  ARCanvas.mkWorld (Some sampleFace) None true (ARCanvas.mkSettings 40 (8 # 10) (2 # 10))
    (ARCanvas.mkDimensions 800 600) (ARCanvas.mkDimensions 1280 720) 1
    [] 0 (ARCanvas.mkInteract None 0) (mkPoint 0 0) (8 # 10) [slidingTear] 8.


(** A sliding tear's progress lies in [0,1). *)
Definition slidingInRange (b : ARCanvas.TearBody) : Prop :=
  ARCanvas.state (ARCanvas.plugin b) = ARCanvas.sliding ->
  0 <= ARCanvas.progress (ARCanvas.plugin b) /\ ARCanvas.progress (ARCanvas.plugin b) < 1.

(** ** What the landmark refs should hold *)





(** ** Frames of the time-slice camera *)

(** Every detected hand has the detector's 21 landmarks. *)
Definition wellFormed (f : TimeSlice.Frame) : bool :=
  match TimeSlice.multiHandLandmarks f with
  | Some hands => forallb (fun h => (21 <=? length h)%nat) hands
  | None => true
  end.

Definition handsOk (hs : list NormalizedLandmarkList) : Prop :=
  Forall (fun h => (21 <= length h)%nat) hs.

Definition wellFormedEvent (e : TimeSlice.Event) : bool :=
  match e with
  | TimeSlice.Results f => wellFormed f
  | _ => true
  end.

Section FrameGestures.
Context `{MathLib}.

(** Exactly two hands, both pointing up; both pinching. *)
Definition pointingBoth (f : TimeSlice.Frame) : bool :=
  match TimeSlice.multiHandLandmarks f with
  | Some [h0; h1] => point h0 && point h1
  | _ => false
  end.

Definition pinchingBoth (f : TimeSlice.Frame) : bool :=
  match TimeSlice.multiHandLandmarks f with
  | Some [h0; h1] => pinch h0 && pinch h1
  | _ => false
  end.

(** The state after the two tests of the state machine, taken in order. *)
Definition afterPointing (s : TimeSlice.AppState) (f : TimeSlice.Frame) : TimeSlice.AppState :=
  if TimeSlice.eqState s TimeSlice.IDLE && pointingBoth f then TimeSlice.RESIZING else s.

Definition afterPinching (s : TimeSlice.AppState) (f : TimeSlice.Frame) : TimeSlice.AppState :=
  if TimeSlice.eqState s TimeSlice.RESIZING && pinchingBoth f then TimeSlice.FROZEN else s.

Definition machineState (s : TimeSlice.AppState) (f : TimeSlice.Frame) : TimeSlice.AppState :=
  afterPinching (afterPointing s f) f.

End FrameGestures.


(** A hand that points up with thumb and index tips together, and a frame
    showing two of them on an 800x600 canvas. *)
Definition pointAndPinch (cx : Q) : NormalizedLandmarkList :=
  handOf (fun i => if existsb (Nat.eqb i) [4; 8]%nat then (cx, 2 # 10)
                   else if (i =? 6)%nat then (cx, 4 # 10)
                   else if existsb (Nat.eqb i) [12; 16; 20]%nat then (cx, 6 # 10)
                   else (cx, 5 # 10)).

Definition frameOf (hands : option (list NormalizedLandmarkList)) (now : Z)
  : TimeSlice.Frame :=
  TimeSlice.mkFrame (GridStretch.mkImage 1 (Some 1280) (Some 720)) hands 800 600
    (now, now) (now, now) (inject_Z now / 1000, inject_Z now / 1000)
    (fun _ _ => 1 # 2).


(** The refs that the rendering of a frame must leave alone, those the
    state machine leaves alone, and those the effect switch leaves alone. *)
Definition coreOf (a : TimeSlice.App) :=
  (TimeSlice.stateRef a, TimeSlice.rectRef a, TimeSlice.effectModeRef a,
   TimeSlice.resetStartTimeRef a, TimeSlice.effectSwitchStartTimeRef a,
   TimeSlice.frozenCanvas a, TimeSlice.zoomLevelRef a).

Definition timersOf (a : TimeSlice.App) :=
  (TimeSlice.effectModeRef a, TimeSlice.resetStartTimeRef a,
   TimeSlice.effectSwitchStartTimeRef a, TimeSlice.zoomLevelRef a).

Definition selectionOf (a : TimeSlice.App) :=
  (TimeSlice.stateRef a, TimeSlice.rectRef a, TimeSlice.resetStartTimeRef a,
   TimeSlice.frozenCanvas a, TimeSlice.zoomLevelRef a).

(** ** Dwell timers, as the specification words them *)

(** One frame of a dwell timer with the given threshold: [held] says whether
    the trigger gesture is present, [clock] holds the readings of the clock
    when the timer is started and when the held duration is measured, and
    [start] is when the current hold began ([None] or [0]: not running).
    The result is the new start and whether the action fires. *)
Definition dwell (threshold : Z) (held : bool) (clock : Z * Z) (start : option Z)
  : option Z * bool :=
  if held then
    let start' := if TimeSlice.unset start then Some (fst clock) else start in
    if (threshold <? snd clock - TimeSlice.startOf start')%Z
    then (None, true)
    else (start', false)
  else (None, false).

(** The timer over a sequence of frames: the fired flags, frame by frame. *)
Fixpoint dwellRun (threshold : Z) (frames : list (bool * (Z * Z))) (start : option Z)
  : list bool :=
  match frames with
  | [] => []
  | (held, clock) :: rest =>
      let '(start', fired) := dwell threshold held clock start in
      fired :: dwellRun threshold rest start'
  end.





(** A frozen app showing the horses in a 400x300 rect, and a frame without
    hands. *)
Definition horseApp : TimeSlice.App :=
  TimeSlice.set_santaPathRef
    (Santa.mkPath [mkPoint 50 50; mkPoint 100 200; mkPoint 300 100; mkPoint 350 250])
    (TimeSlice.set_effectModeRef TimeSlice.SANTA_WALKER
       (TimeSlice.set_rectRef (mkRect 200 150 400 300)
          (TimeSlice.set_stateRef TimeSlice.FROZEN TimeSlice.initial))).

Definition emptyFrame : TimeSlice.Frame := frameOf None 5000.

(** ** Grid managers the app can hold *)

(** The manager is built by its constructor and changed by [reset] and
    [update] only. *)
Inductive reachable `{MathLib} : GridStretch.GridStretchManager -> Prop :=
| reach_new : reachable GridStretch.new
| reach_reset g : reachable g -> reachable (GridStretch.reset g)
| reach_update interactions g :
    reachable g -> reachable (GridStretch.update interactions g).

(** A pinch-spread in the middle of the rect. *)
Definition spreadInteraction : GridStretch.GridInteraction :=
  GridStretch.mkInteraction (1 # 2) (1 # 2) (1 # 10).

(** ** Pointing at a button in the tear filter *)

(** A hand whose index finger is stretched away from the wrist while the
    other fingers are curled towards it, and an open hand. *)
Definition stretchedIndex : NormalizedLandmarkList :=
  handOf (fun i => if (i =? 0)%nat then (1 # 2, 9 # 10)
                   else if (i =? 8)%nat then (1 # 2, 2 # 10)
                   else if (i =? 6)%nat then (1 # 2, 5 # 10)
                   else if existsb (Nat.eqb i) [12; 16; 20]%nat then (1 # 2, 7 # 10)
                   else (1 # 2, 6 # 10)).

Definition openHand : NormalizedLandmarkList :=
  handOf (fun i => if (i =? 0)%nat then (1 # 2, 9 # 10)
                   else if existsb (Nat.eqb i) [8; 12; 16; 20]%nat then (1 # 2, 2 # 10)
                   else (1 # 2, 5 # 10)).


(** A page on which button 1 lies under every point. *)
Definition buttonPaint (now : Q) : ARCanvas.Paint :=
  ARCanvas.mkPaint now (Some (0, 0))
    (fun _ _ => Some (ARCanvas.mkElement None (Some 1%nat))).

(** The finger points at the button at 0 ms, the detector loses the hand at
    300 ms, and the finger is back on the button at 700 ms. *)
Definition lostHandRun : list ARCanvas.Event :=
  [ ARCanvas.HandsResults (Some [stretchedIndex]); ARCanvas.AfterRender (buttonPaint 0);
    ARCanvas.HandsResults None; ARCanvas.AfterRender (buttonPaint 300);
    ARCanvas.HandsResults (Some [stretchedIndex]); ARCanvas.AfterRender (buttonPaint 700) ].

(** The same, except that at 300 ms the hand is seen, open. *)
Definition openHandRun : list ARCanvas.Event :=
  [ ARCanvas.HandsResults (Some [stretchedIndex]); ARCanvas.AfterRender (buttonPaint 0);
    ARCanvas.HandsResults (Some [openHand]); ARCanvas.AfterRender (buttonPaint 300);
    ARCanvas.HandsResults (Some [stretchedIndex]); ARCanvas.AfterRender (buttonPaint 700) ].

(** The finger stays on the button, rendered every 100 ms up to [last]. *)
Definition steadyRun (last : nat) : list ARCanvas.Event :=
  ARCanvas.HandsResults (Some [stretchedIndex]) ::
  map (fun k => ARCanvas.AfterRender (buttonPaint (inject_Z (Z.of_nat k) * 100)))
      (seq 0 (S last)).

(** ** The two dwell timers of the time-slice camera, event by event *)

Section TimerTraces.
Context `{MathLib}.

(** What the reset timer sees in each event: whether two fists are shown
    and the two clock readings.  A reset from the interface counts as a
    frame without the gesture; a zoom change is not a frame. *)
Definition resetInputs (es : list TimeSlice.Event) : list (bool * (Z * Z)) :=
  flat_map (fun e => match e with
                     | TimeSlice.Results f =>
                         [(TimeSlice.isResetGesture f, TimeSlice.resetClock f)]
                     | TimeSlice.ResetKey => [(false, (0, 0)%Z)]
                     | TimeSlice.SetZoom _ => []
                     end) es.

Definition firedReset (f : TimeSlice.Frame) (a : TimeSlice.App) : bool :=
  match fst (TimeSlice.onResults f a) with
  | Some out => TimeSlice.resetFired out
  | None => false
  end.

Definition firedSwitch (f : TimeSlice.Frame) (a : TimeSlice.App) : bool :=
  match fst (TimeSlice.onResults f a) with
  | Some out => match TimeSlice.switchedTo out with Some _ => true | None => false end
  | None => false
  end.

(** Whether the reset ran, event by event. *)
Fixpoint resetFlags (es : list TimeSlice.Event) (a : TimeSlice.App) : list bool :=
  match es with
  | [] => []
  | TimeSlice.Results f :: rest =>
      firedReset f a :: resetFlags rest (TimeSlice.step (TimeSlice.Results f) a)
  | TimeSlice.ResetKey :: rest => false :: resetFlags rest (TimeSlice.step TimeSlice.ResetKey a)
  | TimeSlice.SetZoom z :: rest => resetFlags rest (TimeSlice.step (TimeSlice.SetZoom z) a)
  end.

(** The trigger of the effect switch: the victory sign shown to an app that
    is frozen once the state machine has run, in a frame that does not
    reset. *)
Definition switchHeld (f : TimeSlice.Frame) (a : TimeSlice.App) : bool :=
  negb (firedReset f a)
  && TimeSlice.eqState (machineState (TimeSlice.stateRef a) f) TimeSlice.FROZEN
  && TimeSlice.isVictory f.

Fixpoint switchInputs (es : list TimeSlice.Event) (a : TimeSlice.App)
  : list (bool * (Z * Z)) :=
  match es with
  | [] => []
  | TimeSlice.Results f :: rest =>
      (switchHeld f a, TimeSlice.switchClock f)
      :: switchInputs rest (TimeSlice.step (TimeSlice.Results f) a)
  | TimeSlice.ResetKey :: rest =>
      (false, (0, 0)%Z) :: switchInputs rest (TimeSlice.step TimeSlice.ResetKey a)
  | TimeSlice.SetZoom z :: rest => switchInputs rest (TimeSlice.step (TimeSlice.SetZoom z) a)
  end.

Fixpoint switchFlags (es : list TimeSlice.Event) (a : TimeSlice.App) : list bool :=
  match es with
  | [] => []
  | TimeSlice.Results f :: rest =>
      firedSwitch f a :: switchFlags rest (TimeSlice.step (TimeSlice.Results f) a)
  | TimeSlice.ResetKey :: rest => false :: switchFlags rest (TimeSlice.step TimeSlice.ResetKey a)
  | TimeSlice.SetZoom z :: rest => switchFlags rest (TimeSlice.step (TimeSlice.SetZoom z) a)
  end.

End TimerTraces.

(** The gesture is held in frames [j] to [k], and the clock reading that
    measures frame [k] is more than [threshold] after the reading that
    started frame [j]. *)
Definition heldLongEnough (threshold : Z) (frames : list (bool * (Z * Z))) (j k : nat)
  : Prop :=
  (j <= k)%nat
  /\ (forall i, (j <= i <= k)%nat -> fst (nth i frames (false, (0, 0)%Z)) = true)
  /\ (threshold
      < snd (snd (nth k frames (false, (0, 0)%Z)))
        - fst (snd (nth j frames (false, (0, 0)%Z))))%Z.

(** Two fists held from the clock reading 1000 ms on, seen every 500 ms. *)
Definition twoFists (now : Z) : TimeSlice.Frame := frameOf (Some [fist_hand; fist_hand]) now.

Definition fistRun : list TimeSlice.Event :=
  map (fun k => TimeSlice.Results (twoFists (1000 + Z.of_nat k * 500))) (seq 0 5).

(** ** The column widths of [draw] in the arithmetic of the run-time

    The numbers of the program are binary64 floating-point numbers.  This
    is the computation of the column widths in [GridStretchManager.draw],
    on them: the total weight, the unit width, the width of each column,
    and the x reached after the last column. *)

Module FloatGrid.

Definition totalWeightX (currentWeightsX : list float) : float :=
  fold_left (fun totalWeightX w => (totalWeightX + w)%float) currentWeightsX 0%float.

Definition colWidths (currentWeightsX : list float) (rectW : float) : list float :=
  let unitW := (rectW / totalWeightX currentWeightsX)%float in
  map (fun w => (w * unitW)%float) currentWeightsX.

Definition endOfColumns (currentWeightsX : list float) (rectX rectW : float) : float :=
  fold_left (fun dx colW => (dx + colW)%float) (colWidths currentWeightsX rectW) rectX.

(** The weights after [reset]. *)
Definition ones : list float := repeat 1%float 15.

End FloatGrid.

(** ** The tear filter over several frames *)

(** Numbers in a list that follow each other at a distance of more than
    [gap], and numbers that never decrease. *)
Fixpoint spaced (gap : Q) (l : list Q) : Prop :=
  match l with
  | a :: ((b :: _) as rest) => a + gap < b /\ spaced gap rest
  | _ => True
  end.

Fixpoint nondecreasing (l : list Q) : Prop :=
  match l with
  | a :: ((b :: _) as rest) => a <= b /\ nondecreasing rest
  | _ => True
  end.

Definition isClick (a : ARCanvas.Action) : bool :=
  match a with ARCanvas.Click _ => true | _ => false end.

(** The clock readings of the clicks among the actions of one frame. *)
Definition clicksAt (now : Q) (acts : list ARCanvas.Action) : list Q :=
  map (fun _ => now) (filter isClick acts).

Section TearFrames.
Context `{MathLib}.

(** The clock readings of the rendered frames in which a button is
    clicked.  Every frame is rendered in a world of its own, so anything
    may happen between two frames; the record of the button under the
    finger, which no other handler writes, is handed from each frame to
    the next. *)
Fixpoint clickTimes (frames : list (ARCanvas.Paint * ARCanvas.World))
    (st : ARCanvas.Interact) : list Q :=
  match frames with
  | [] => []
  | (p, w) :: rest =>
      let '(w', acts) := ARCanvas.afterRender p (ARCanvas.set_lastInteract st w) in
      clicksAt (ARCanvas.paintNow p) acts
      ++ clickTimes rest (ARCanvas.lastInteractRef w')
  end.

(** One tear through several physics frames, each with the world and the
    clock reading it runs in; [None] once the tear is removed. *)
Fixpoint tearFrames (frames : list (ARCanvas.World * Z)) (rnd : nat -> Q * Q)
    (body : ARCanvas.TearBody) : option ARCanvas.TearBody :=
  match frames with
  | [] => Some body
  | (w, now) :: rest =>
      match ARCanvas.tearStep w now rnd (ARCanvas.repulsionPoints w) body with
      | Some body' => tearFrames rest rnd body'
      | None => None
      end
  end.

End TearFrames.

(** The camera is on and the stored face has the eye, the cheek and the
    drop landmark of the side. *)
Definition seesFace (w : ARCanvas.World) (s : ARCanvas.Side) : Prop :=
  ARCanvas.isCameraOnRef w = true
  /\ exists face eye cheek drop,
       ARCanvas.faceLandmarksRef w = Some face
       /\ nth_error face
            (match s with ARCanvas.side_left => 145 | ARCanvas.side_right => 374 end)%nat
          = Some eye
       /\ nth_error face
            (match s with ARCanvas.side_left => 205 | ARCanvas.side_right => 425 end)%nat
          = Some cheek
       /\ nth_error face
            (match s with ARCanvas.side_left => 136 | ARCanvas.side_right => 365 end)%nat
          = Some drop.

(** A rewinding tear has waited long enough at the clock reading [now]. *)
Definition started (body : ARCanvas.TearBody) (now : Z) : Prop :=
  match ARCanvas.rewindStartTime (ARCanvas.plugin body) with
  | Some t => (t <= now)%Z
  | None => True
  end.

(** The number of bodies in [l] with an id greater than [i], and the number
    of tears of the world that are newer than the body with id [i]. *)
Definition newer (i : nat) (l : list ARCanvas.TearBody) : nat :=
  length (filter (fun c => (i <? ARCanvas.id c)%nat) l).

Definition newerTears (i : nat) (bs : list ARCanvas.TearBody) : nat :=
  newer i (filter (fun b => negb (ARCanvas.isStatic b)) bs).

(** Tears with ids 3, 9 and 5 and a wall, in the order of the world. *)
Definition tearWithId (i : nat) : ARCanvas.TearBody :=
  ARCanvas.mkBody i false
    (ARCanvas.mkPlugin ARCanvas.falling ARCanvas.side_left 1 0 40 (mkPoint 100 100) None)
    (mkPoint 100 400) (mkPoint 0 3) 0 (mkPoint 0 0) false (2 # 10) (1 # 100) None.

Definition wall : ARCanvas.TearBody :=
  ARCanvas.mkBody 1 true
    (ARCanvas.mkPlugin ARCanvas.falling ARCanvas.side_left 0 0 0 (mkPoint 0 0) None)
    (mkPoint 400 640) (mkPoint 0 0) 0 (mkPoint 0 0) false (2 # 10) (1 # 100) None.

Definition threeTears : ARCanvas.World :=
  ARCanvas.set_bodies [wall; tearWithId 3; tearWithId 9; tearWithId 5] emptyWorld.

(** A tear three quarters of the way back to the eye. *)
Definition rewindingTear : ARCanvas.TearBody :=
  ARCanvas.mkBody 7 false
    (ARCanvas.mkPlugin ARCanvas.rewinding ARCanvas.side_left (1 # 4) 3 40
       (mkPoint 100 100) (Some 500%Z))
    (mkPoint 100 100) (mkPoint 0 0) 0 (mkPoint 0 0) true (2 # 10) 0 None.

(** A horizontal slider, 200 wide at x = 100, for the size from 10 to 100
    in steps of 5. *)
Definition sizeSlider : ARCanvas.RangeInput :=
  ARCanvas.mkRange (Some ARCanvas.key_size) 100 60 200 20 10 100 5.

(** The finger held on the button, rendered at 0, 700, 1400 and 2400 ms. *)
Definition pointingWorld : ARCanvas.World :=
  ARCanvas.set_hands (Some [stretchedIndex]) emptyWorld.

Definition heldFrames : list (ARCanvas.Paint * ARCanvas.World) :=
  map (fun t => (buttonPaint t, pointingWorld)) [0; 700; 1400; 2400].

(** The tears of a list in descending order of their ids. *)
Fixpoint descending (l : list ARCanvas.TearBody) : Prop :=
  match l with
  | [] => True
  | c :: rest =>
      Forall (fun d => (ARCanvas.id d < ARCanvas.id c)%nat) rest /\ descending rest
  end.

(** ** The horses and the path *)

(** The eight random draws of [generate] are numbers from 0 to 1. *)
Definition unitDraws (r : nat -> Q) : Prop := forall i, 0 <= r i /\ r i <= 1.

(** A point horizontally inside a rect, and the hooves of a horse at or
    above a floor (y grows downwards). *)
Definition withinX (rect : Rect) (x : Q) : Prop := rx rect <= x /\ x <= rx rect + rw rect.

Definition hoovesAbove (floorY : Q) (p : Santa.SantaPuppet) : Prop :=
  py (Santa.flHoof p) <= floorY /\ py (Santa.frHoof p) <= floorY
  /\ py (Santa.blHoof p) <= floorY /\ py (Santa.brHoof p) <= floorY.

(** The lowest y a control point of the given type may have in a rect. *)
Definition lowestControl (rect : Rect) (type : Santa.ControlType) : Q :=
  match type with
  | Santa.KNEE => ry rect + rh rect - 10
  | Santa.HEAD => ry rect + rh rect - 45
  end.

(** A hand spread over the lower right of an 800x600 screen. *)
Definition spreadHand : NormalizedLandmarkList :=
  handOf (fun i => (inject_Z (Z.of_nat i) / 20, 9 # 10)).

(** ** Invariants of the time-slice camera *)

(** [preserves P m]: if [P] holds of the refs before [m], it holds of them
    after it, whether [m] returns or throws. *)
Definition preserves {A} (P : TimeSlice.App -> Prop) (m : TimeSlice.M A) : Prop :=
  TimeSlice.relates (fun a a' => P a -> P a') m.

(** The selection rect has a width and a height that are not negative; the
    auto-pilot's progress along the path is between 0 and 1. *)
Definition rectOk (a : TimeSlice.App) : Prop :=
  0 <= rw (TimeSlice.rectRef a) /\ 0 <= rh (TimeSlice.rectRef a).

Definition progressOk (a : TimeSlice.App) : Prop :=
  0 <= TimeSlice.santaPathProgressRef a /\ TimeSlice.santaPathProgressRef a <= 1.

(** The points [p] and [q] are opposite corners of the rect. *)
Definition spans (r : Rect) (p q : Point) : Prop :=
  ((rx r == px p /\ rx r + rw r == px q) \/ (rx r == px q /\ rx r + rw r == px p))
  /\ ((ry r == py p /\ ry r + rh r == py q) \/ (ry r == py q /\ ry r + rh r == py p)).

(** A camera that is resizing a selection, and a frame with two open
    hands whose index fingertips are at (0.3, 0.2) and (0.7, 0.6). *)
Definition resizingApp : TimeSlice.App :=
  TimeSlice.set_rectRef (mkRect 100 100 200 100)
    (TimeSlice.set_stateRef TimeSlice.RESIZING TimeSlice.initial).

Definition twoOpenHands : TimeSlice.Frame :=
  frameOf (Some [ handOf (fun _ => (3 # 10, 2 # 10)); handOf (fun _ => (7 # 10, 6 # 10)) ])
    1000.

(** ** ARGame: the catch game's engine

    The targets, the hands and the score of the catch game.  A target and
    a hand carry the fields that the engine reads or writes; the sparks of
    an explosion, the sounds and the painting are left out, and the target
    that [spawnTarget] builds from its random draws is an input of the
    frame.  The score is an integer. *)

Module ARGameEngine.

Import String.StringSyntax.
Local Open Scope string_scope.
Local Open Scope Q_scope.

Inductive Shape := circle | heart | fafa.

Record GameConfig := mkConfig { spawnRate : Q; gravity : Q; shape : Shape }.

Record Target := mkTarget {
  tx : Q; ty : Q; vx : Q; vy : Q;
  radius : Q;
  text : option String.string;
  rotationX : Q; rotationY : Q; rotationZ : Q;
  vRotX : Q; vRotY : Q; vRotZ : Q;
  isLocked : bool;
  flightFreq : Q; flightAmp : Q; flightPhase : Q
}.

Record Hand := mkHand {
  hx : Q; hy : Q; thumbX : Q; thumbY : Q; hvy : Q; isActive : bool
}.

Inductive Effect :=
| ScoreUpdate (score : Z)
| Explosion (x y : Q) (label : String.string)
| MissEffect (x y : Q).

Section Engine.
Context `{MathLib}.

(** [noise]: a value noise in one dimension. *)
Definition hash (seed n : Q) : Q :=
  let val := Math_sin (n * (129898 # 10000) + seed) * (437585453 # 10000) in
  val - inject_Z (Qfloor val).

Definition noise (x seed : Q) : Q :=
  let i := inject_Z (Qfloor x) in
  let f := x - i in
  let w := f * f * (3 - 2 * f) in
  hash seed i * (1 - w) + hash seed (i + 1) * w.

(** The hand positions of [onResults]; [prev] are the positions of the
    frame before, by hand index.  [None]: a fingertip is missing and
    reading it throws. *)
Fixpoint handPositionsFrom (index : nat) (hands : list NormalizedLandmarkList)
    (width height : Q) (prev : list (Q * Q)) : option (list Hand) :=
  match hands with
  | [] => Some []
  | landmarks :: rest =>
      match nth_error landmarks 8, nth_error landmarks 4 with
      | Some indexTip, Some thumbTip =>
          let currentX := x indexTip * width in
          let currentY := y indexTip * height in
          let thumbX := x thumbTip * width in
          let thumbY := y thumbTip * height in
          let isActive := Qltb (y thumbTip) (y indexTip) in
          let vy := match nth_error prev index with
                    | Some p => currentY - snd p
                    | None => 0
                    end in
          option_map (cons (mkHand currentX currentY thumbX thumbY vy isActive))
                     (handPositionsFrom (S index) rest width height prev)
      | _, _ => None
      end
  end.

Definition handPositions (multiHandLandmarks : option (list NormalizedLandmarkList))
    (width height : Q) (prev : list (Q * Q)) : option (list Hand) :=
  match multiHandLandmarks with
  | Some hands => handPositionsFrom 0 hands width height prev
  | None => Some []
  end.

(** The loop over the hands in [updateGameEngine]: the vertical velocity
    of the first active hand that touches the target. *)
Fixpoint interactingHand (collisionDistance : Q) (target : Target) (hands : list Hand)
  : option Q :=
  match hands with
  | [] => None
  | hand :: rest =>
      if negb (isActive hand) then interactingHand collisionDistance target rest
      else
        let dx := hx hand - tx target in
        let dy := hy hand - ty target in
        let distance := Math_sqrt (dx * dx + dy * dy) in
        if Qltb distance collisionDistance then Some (hvy hand)
        else interactingHand collisionDistance target rest
  end.

Definition set_isLocked (b : bool) (t : Target) : Target :=
  mkTarget (tx t) (ty t) (vx t) (vy t) (radius t) (text t)
    (rotationX t) (rotationY t) (rotationZ t) (vRotX t) (vRotY t) (vRotZ t)
    b (flightFreq t) (flightAmp t) (flightPhase t).

(** [v || d]; both makers of a target set the three flight fields. *)
Definition orElse (v d : Q) : Q := if Qeq_bool v 0 then d else v.

Definition isFafa (s : Shape) : bool := match s with fafa => true | _ => false end.
Definition isCircle (s : Shape) : bool := match s with circle => true | _ => false end.

(** The physics of a target that no hand holds. *)
Definition move (config : GameConfig) (now : Z) (t : Target) : Target :=
  let useOrganicFlight :=
    isFafa (shape config) || match text t with Some _ => true | None => false end in
  if useOrganicFlight then
    let freq := orElse (flightFreq t) (3 # 1000) in
    let amp := orElse (flightAmp t) 2 in
    let phase := orElse (flightPhase t) 0 in
    let sway := Math_sin (inject_Z now * freq + phase) * amp in
    mkTarget (tx t + (vx t + sway))
      (ty t + (vy t + Math_cos (inject_Z now * freq) * (5 # 10)))
      (vx t) (vy t) (radius t) (text t)
      (rotationX t) (sway * (1 # 10)) (rotationZ t) (vRotX t) (vRotY t) (vRotZ t)
      (isLocked t) (flightFreq t) (flightAmp t) (flightPhase t)
  else
    let rotY := rotationY t + vRotY t in
    mkTarget (tx t + vx t) (ty t + vy t) (vx t) (vy t + gravity config)
      (radius t) (text t)
      (rotationX t + vRotX t)
      (if isCircle (shape config) then rotY + (5 # 100) else rotY)
      (rotationZ t + vRotZ t) (vRotX t) (vRotY t) (vRotZ t)
      (isLocked t) (flightFreq t) (flightAmp t) (flightPhase t).

(** The boundary check: [None] when the target is spliced out. *)
Definition boundary (config : GameConfig) (width height : Q) (t : Target)
  : option Target * list Effect :=
  let margin := 150 in
  if Qgtb (ty t) (height + margin) || Qltb (ty t) (- margin)
     || Qgtb (tx t) (width + margin) || Qltb (tx t) (- margin)
  then
    (None,
     if Qgtb (gravity config) 0 && Qgtb (vy t) 0 && Qgtb (ty t) height
     then [MissEffect (tx t) (height - 20)] else [])
  else (Some t, []).

(** The inputs of one frame of the engine. *)
Record Tick := mkTick {
  now : Z;
  config : GameConfig;
  cursorSize : Q;
  width : Q;
  height : Q;
  spawned : Target
}.

(** The callback of [targetsRef.current.forEach]: the target left at the
    index ([None]: spliced out), the score and what else happened. *)
Definition visit (k : Tick) (hands : list Hand) (target : Target) (score : Z)
  : option Target * Z * list Effect :=
  let handCursorRadius := cursorSize k in
  let hitTolerance := 50 in
  let collisionDistance := radius target + handCursorRadius + hitTolerance in
  match interactingHand collisionDistance target hands with
  | Some interactingHandVelocityY =>
      let target := set_isLocked true target in
      let FLICK_THRESHOLD := - (8) in
      if Qltb interactingHandVelocityY FLICK_THRESHOLD then
        let score := (score + 100)%Z in
        let popupText : String.string :=
          if isFafa (shape (config k)) then "+FAFA" else "+100" in
        (None, score,
         [ScoreUpdate score; Explosion (tx target) (ty target) popupText])
      else
        let '(r, effects) := boundary (config k) (width k) (height k) target in
        (r, score, effects)
  | None =>
      let target := move (config k) (now k) (set_isLocked false target) in
      let '(r, effects) := boundary (config k) (width k) (height k) target in
      (r, score, effects)
  end.

(** [array[index] = v] for an index in range, and [array.splice(index, 1)]. *)
Definition put {A} (index : nat) (v : A) (l : list A) : list A :=
  firstn index l ++ v :: skipn (S index) l.

Definition splice {A} (index : nat) (l : list A) : list A :=
  firstn index l ++ skipn (S index) l.

(** [forEach] visits the indices from 0 to the length the array had when
    the loop began, each one if it is still in the array when its turn
    comes: after a splice at an index, the element that moved into it is
    not visited. *)
Fixpoint forEachFrom (todo index : nat) (k : Tick) (hands : list Hand)
    (targets : list Target) (score : Z) : list Target * Z * list Effect :=
  match todo with
  | O => (targets, score, [])
  | S todo' =>
      match nth_error targets index with
      | None => (targets, score, [])
      | Some target =>
          let '(r, score', effects) := visit k hands target score in
          let targets' :=
            match r with
            | Some target' => put index target' targets
            | None => splice index targets
            end in
          let '(targets'', score'', effects') :=
            forEachFrom todo' (S index) k hands targets' score' in
          (targets'', score'', effects ++ effects')
      end
  end.

Record Game := mkGame {
  targetsRef : list Target;
  scoreRef : Z;
  lastSpawnTimeRef : Z;
  handPositionsRef : list Hand;
  prevHandPositionsRef : list (Q * Q);
  gameActiveRef : bool
}.

(** [updateGameEngine], without the particles and the painting. *)
Definition updateGameEngine (k : Tick) (g : Game) : Game * list Effect :=
  let spawn := Qgtb (inject_Z (now k - lastSpawnTimeRef g)) (spawnRate (config k)) in
  let targets := if spawn then targetsRef g ++ [spawned k] else targetsRef g in
  let last := if spawn then now k else lastSpawnTimeRef g in
  let '(targets', score', effects) :=
    forEachFrom (length targets) 0 k (handPositionsRef g) targets (scoreRef g) in
  (mkGame targets' score' last (handPositionsRef g) (prevHandPositionsRef g)
     (gameActiveRef g), effects).

(** [onResults] with the video ready.  [None]: the callback throws, before
    it has written a ref. *)
Definition onResults (multiHandLandmarks : option (list NormalizedLandmarkList))
    (k : Tick) (g : Game) : option (Game * list Effect) :=
  match handPositions multiHandLandmarks (width k) (height k) (prevHandPositionsRef g) with
  | None => None
  | Some newHandPositions =>
      let g' := mkGame (targetsRef g) (scoreRef g) (lastSpawnTimeRef g)
                  newHandPositions (map (fun p => (hx p, hy p)) newHandPositions)
                  (gameActiveRef g) in
      Some (if gameActiveRef g then updateGameEngine k g' else (g', []))
  end.

(** The effect of [isPlaying]: a new game starts with no score and no
    targets. *)
Definition setPlaying (isPlaying : bool) (g : Game) : Game * list Effect :=
  if isPlaying then
    (mkGame [] 0 (lastSpawnTimeRef g) (handPositionsRef g) (prevHandPositionsRef g) true,
     [ScoreUpdate 0])
  else
    (mkGame (targetsRef g) (scoreRef g) (lastSpawnTimeRef g) (handPositionsRef g)
       (prevHandPositionsRef g) false, []).

(** A timer of [launchText] or of [launchBalls] pushes the target it has
    built. *)
Definition pushTarget (t : Target) (g : Game) : Game * list Effect :=
  (mkGame (targetsRef g ++ [t]) (scoreRef g) (lastSpawnTimeRef g) (handPositionsRef g)
     (prevHandPositionsRef g) (gameActiveRef g), []).

Inductive Event :=
| Results (multiHandLandmarks : option (list NormalizedLandmarkList)) (k : Tick)
| Playing (isPlaying : bool)
| Pushed (t : Target).

(** A callback that throws leaves the refs as they were. *)
Definition step (e : Event) (g : Game) : Game * list Effect :=
  match e with
  | Results r k => match onResults r k g with Some out => out | None => (g, []) end
  | Playing b => setPlaying b g
  | Pushed t => pushTarget t g
  end.

Fixpoint run (es : list Event) (g : Game) : Game * list Effect :=
  match es with
  | [] => (g, [])
  | e :: rest =>
      let '(g1, a1) := step e g in
      let '(g2, a2) := run rest g1 in
      (g2, a1 ++ a2)
  end.

Definition mounted : Game := mkGame [] 0 0 [] [] false.

End Engine.

(** The targets destroyed, and the scores passed to [onScoreUpdate]. *)
Definition isExplosion (e : Effect) : bool :=
  match e with Explosion _ _ _ => true | _ => false end.

Definition hits (effects : list Effect) : nat := length (filter isExplosion effects).

Definition reported (effects : list Effect) : list Z :=
  flat_map (fun e => match e with ScoreUpdate s => [s] | _ => [] end) effects.

(** A hand that cannot destroy a target: no gun gesture, or not moving up
    by more than 8 pixels a frame. *)
Definition harmless (h : Hand) : Prop := isActive h = false \/ - (8) <= hvy h.

End ARGameEngine.

(** A ball, a hand making the gun gesture, and a frame of a game of balls
    on a 1280 by 720 canvas. *)
Definition ball (x y : Q) : ARGameEngine.Target :=
  ARGameEngine.mkTarget x y 0 (- (5)) 14 None 0 0 0 0 0 0 false 0 0 0.

Definition gun (x y vy : Q) : ARGameEngine.Hand :=
  ARGameEngine.mkHand x y (x + 20) (y - 30) vy true.

Definition ballTick : ARGameEngine.Tick :=
  ARGameEngine.mkTick 1000 (ARGameEngine.mkConfig 800 0 ARGameEngine.circle)
    19 1280 720 (ball 640 770).

Definition playing (targets : list ARGameEngine.Target) (hands : list ARGameEngine.Hand)
  : ARGameEngine.Game :=
  ARGameEngine.mkGame targets 0 900 hands [] true.

(** ** The pixel grid's particles *)

Module PixelGrid.

Record Particle := mkParticle {
  x : Q; y : Q; originX : Q; originY : Q; vx : Q; vy : Q; pixelIdx : Q
}.

(** The values of [i] in [for (let i = 0; i < n; i++)], for an integer
    bound. *)
Definition upTo (n : Z) : list Z := map Z.of_nat (seq 0 (Z.to_nat n)).

(** [initParticles]; the image sizes it is passed are not used. *)
Definition initParticles (r : Rect) : list Particle :=
  let GRID_SIZE := 12 in
  let cols := Qfloor (rw r / GRID_SIZE) in
  let rows := Qfloor (rh r / GRID_SIZE) in
  flat_map (fun y =>
    map (fun x =>
      let localX := inject_Z x * GRID_SIZE in
      let localY := inject_Z y * GRID_SIZE in
      let screenX := rx r + localX in
      let screenY := ry r + localY in
      let centerX := inject_Z (Qfloor (localX + GRID_SIZE / 2)) in
      let centerY := inject_Z (Qfloor (localY + GRID_SIZE / 2)) in
      let safeX := Math_min (Math_max centerX 0) (rw r - 1) in
      let safeY := Math_min (Math_max centerY 0) (rh r - 1) in
      let pixelIdx := (safeY * inject_Z (Qfloor (rw r)) + safeX) * 4 in
      mkParticle screenX screenY screenX screenY 0 0 pixelIdx)
      (upTo cols))
    (upTo rows).

(** The length of the data of [getImageData(rx, ry, rw, rh)] for the
    floored sizes of the rectangle: four bytes a pixel. *)
Definition roiLength (r : Rect) : Z := (Qfloor (rw r) * Qfloor (rh r) * 4)%Z.

End PixelGrid.

(** ** Slice3DManager: the flipping tiles *)

Module Slice3D.

Record ImgQuad := mkQuad {
  relX : Q; relY : Q; w : Q; h : Q; angle : Q; velocity : Q
}.

(** [prevHandX] and [prevHandY] are set and cleared together. *)
Record Slice3DManager := mkManager {
  quads : list ImgQuad;
  prevHand : option Point
}.

Definition gridSize : Q := 50.

(** The values of [v] in [for (let v = from; v < limit; v += gridSize)];
    the fuel bounds the number of rounds. *)
Fixpoint strides (fuel : nat) (from limit : Q) : list Q :=
  match fuel with
  | O => []
  | S fuel' =>
      if Qltb from limit then from :: strides fuel' (from + gridSize) limit else []
  end.

Definition init (fuel : nat) (rect : Rect) : Slice3DManager :=
  mkManager
    (flat_map (fun y =>
       map (fun x =>
         let w := Math_min gridSize (rw rect - x) in
         let h := Math_min gridSize (rh rect - y) in
         mkQuad x y w h 0 0)
         (strides fuel 0 (rw rect)))
       (strides fuel 0 (rh rect)))
    None.

End Slice3D.

(** The sum of a list of numbers. *)
Definition total (l : list Q) : Q := fold_right Qplus 0 l.

(** ** The blocks of the pixel text *)

Module PixelText.

Record PixelBlock := mkBlock {
  x : Q; y : Q; startX : Q; startY : Q; targetX : Q; targetY : Q
}.

(** [PixelBlock.update]; [Math.pow(1 - t, 3)] is the cube. *)
Definition update (t : Q) (b : PixelBlock) : PixelBlock :=
  let ease := 1 - (1 - t) ^ 3 in
  mkBlock (startX b + (targetX b - startX b) * ease)
          (startY b + (targetY b - startY b) * ease)
          (startX b) (startY b) (targetX b) (targetY b).

(** The positions that [draw] gives the blocks at the time [now]. *)
Definition draw (now startTime : Z) (blocks : list PixelBlock) : list PixelBlock :=
  let elapsed := inject_Z (now - startTime) in
  let ANIMATION_DURATION := 5200 in
  let progress := Math_min 1 (elapsed / ANIMATION_DURATION) in
  let isAnimating := Qltb progress 1 in
  map (fun b =>
    if isAnimating then update progress b
    else mkBlock (targetX b) (targetY b) (startX b) (startY b) (targetX b) (targetY b))
    blocks.

(** [v] lies between [a] and [b], whichever of them is larger. *)
Definition between (a b v : Q) : Prop := (a <= v <= b) \/ (b <= v <= a).

End PixelText.

(** A hand whose index fingertip is at a tenth of the frame from the
    left and the top, its thumb tip above it: the gun gesture. *)
Definition gunHand : NormalizedLandmarkList :=
  handOf (fun i => if Nat.eqb i 4 then (1 # 10, 1 # 20) else (1 # 10, 1 # 10)).

(** * Properties *)

(** ** Comparison of numbers *)

Lemma Qltb_lt (a b : Q) : Qltb a b = true <-> a < b.
Proof.
  unfold Qltb. rewrite negb_true_iff.
  destruct (Qle_bool b a) eqn:E.
  - apply Qle_bool_iff in E. split; [discriminate | intro; lra].
  - split; [intros _ | reflexivity].
    destruct (Qlt_le_dec a b) as [L | L]; [exact L |].
    apply Qle_bool_iff in L. congruence.
Qed.

Lemma Qltb_ge (a b : Q) : Qltb a b = false <-> b <= a.
Proof.
  unfold Qltb. rewrite negb_false_iff. apply Qle_bool_iff.
Qed.

Lemma Qltb_asym (a b : Q) : Qltb a b = true -> Qltb b a = true -> False.
Proof. rewrite !Qltb_lt. lra. Qed.


(** ** Gesture predicates *)

Lemma Qltb_compare (a b : Q) :
  Qltb a b = match a ?= b with Lt => true | _ => false end.
Proof.
  destruct (Qltb a b) eqn:E.
  - apply Qltb_lt in E. now rewrite (proj1 (Qlt_alt a b) E).
  - apply Qltb_ge in E. destruct (a ?= b) eqn:C; try reflexivity.
    apply (proj2 (Qlt_alt a b)) in C. lra.
Qed.

Lemma Qgtb_compare (a b : Q) :
  Qgtb a b = match a ?= b with Gt => true | _ => false end.
Proof.
  unfold Qgtb. rewrite Qltb_compare, <- (Qcompare_antisym a b).
  now destruct (a ?= b).
Qed.

Lemma field_at (f : Landmark -> Q) (l : NormalizedLandmarkList) (i : nat) :
  (i < length l)%nat -> field f l i = ([i], Some (f (at0 l i))).
Proof.
  intro L. unfold field, at0.
  now rewrite (nth_error_nth' l (mkLandmark 0 0 0) L).
Qed.

Lemma tooShort_long (l : NormalizedLandmarkList) :
  (21 <= length l)%nat -> Gesture.tooShort (Some l) = false.
Proof. intro L. unfold Gesture.tooShort. apply Nat.ltb_ge. exact L. Qed.

Lemma tooShort_spec (landmarks : option NormalizedLandmarkList) :
  Gesture.tooShort landmarks = true <->
  landmarks = None \/ exists l, landmarks = Some l /\ (length l < 21)%nat.
Proof.
  destruct landmarks as [l |]; unfold Gesture.tooShort.
  - rewrite Nat.ltb_lt. split.
    + intro L. right. now exists l.
    + intros [E | [l' [E L]]]; [discriminate | now injection E as ->].
  - split; [now left | reflexivity].
Qed.

Ltac read_fields L :=
  repeat (rewrite field_at by (apply (Nat.lt_le_trans _ 21); [lia | exact L]));
  reflexivity.

Lemma isPointingUp_long (l : NormalizedLandmarkList) :
  (21 <= length l)%nat ->
  Gesture.isPointingUp (Some l) =
  ([8; 6; 12; 10; 16; 14; 20; 18]%nat,
   Some (tipAbove l 8 6 && tipBelow l 12 10 && tipBelow l 16 14 && tipBelow l 20 18)).
Proof.
  intro L. unfold Gesture.isPointingUp. rewrite (tooShort_long l L).
  cbn [Gesture.elems]. read_fields L.
Qed.

Lemma isHandClosed_long (l : NormalizedLandmarkList) :
  (21 <= length l)%nat ->
  Gesture.isHandClosed (Some l) =
  ([8; 6; 12; 10; 16; 14; 20; 18]%nat,
   Some (tipBelow l 8 6 && tipBelow l 12 10 && tipBelow l 16 14 && tipBelow l 20 18)).
Proof.
  intro L. unfold Gesture.isHandClosed. rewrite (tooShort_long l L).
  cbn [Gesture.elems]. read_fields L.
Qed.

Lemma isVictoryHand_long (l : NormalizedLandmarkList) :
  (21 <= length l)%nat ->
  Gesture.isVictoryHand (Some l) =
  ([8; 6; 12; 10; 16; 14; 20; 18]%nat,
   Some (tipAbove l 8 6 && tipAbove l 12 10 && tipBelow l 16 14 && tipBelow l 20 18)).
Proof.
  intro L. unfold Gesture.isVictoryHand. rewrite (tooShort_long l L).
  cbn [Gesture.elems]. read_fields L.
Qed.

Lemma isPinching_long `{MathLib} (l : NormalizedLandmarkList) :
  (21 <= length l)%nat ->
  Gesture.isPinching (Some l) =
  ([8; 4; 8; 4]%nat,
   Some (let dx := x (at0 l 8) - x (at0 l 4) in
         let dy := y (at0 l 8) - y (at0 l 4) in
         Qltb (Math_sqrt (dx * dx + dy * dy)) (5 # 100))).
Proof.
  intro L. unfold Gesture.isPinching. rewrite (tooShort_long l L).
  cbn [Gesture.elems]. read_fields L.
Qed.

Lemma isActive_long (l : NormalizedLandmarkList) :
  (21 <= length l)%nat ->
  ARGame.isActive l = ([8; 4]%nat, Some (Qltb (y (at0 l 4)) (y (at0 l 8)))).
Proof. intro L. unfold ARGame.isActive. read_fields L. Qed.

(** C8.  Each of [isPointingUp], [isHandClosed], [isPinching] and
    [isVictoryHand] returns a boolean on every input and never throws; on a
    landmark list that is null/undefined or has fewer than 21 entries it
    returns [false] without reading any landmark index. *)
Theorem gesture_predicates_total `{MathLib}
    (landmarks : option NormalizedLandmarkList) :
  (exists b1 b2 b3 b4 : bool,
      result (Gesture.isPointingUp landmarks) = Some b1
      /\ result (Gesture.isHandClosed landmarks) = Some b2
      /\ result (Gesture.isPinching landmarks) = Some b3
      /\ result (Gesture.isVictoryHand landmarks) = Some b4)
  /\ (landmarks = None \/ (exists l, landmarks = Some l /\ (length l < 21)%nat) ->
      Gesture.isPointingUp landmarks = ([], Some false)
      /\ Gesture.isHandClosed landmarks = ([], Some false)
      /\ Gesture.isPinching landmarks = ([], Some false)
      /\ Gesture.isVictoryHand landmarks = ([], Some false)).
Proof.
  assert (Short : Gesture.tooShort landmarks = true ->
                  Gesture.isPointingUp landmarks = ([], Some false)
                  /\ Gesture.isHandClosed landmarks = ([], Some false)
                  /\ Gesture.isPinching landmarks = ([], Some false)
                  /\ Gesture.isVictoryHand landmarks = ([], Some false)).
  { intro S.
    unfold Gesture.isPointingUp, Gesture.isHandClosed, Gesture.isPinching,
      Gesture.isVictoryHand.
    rewrite S. repeat split. }
  split.
  - destruct (Gesture.tooShort landmarks) eqn:S.
    + destruct (Short eq_refl) as (-> & -> & -> & ->).
      exists false, false, false, false. repeat split.
    + destruct landmarks as [l |]; [| discriminate].
      unfold Gesture.tooShort in S. apply Nat.ltb_ge in S.
      rewrite (isPointingUp_long l S), (isHandClosed_long l S),
        (isPinching_long l S), (isVictoryHand_long l S).
      do 4 eexists. repeat split.
  - intro S. apply Short, tooShort_spec, S.
Qed.

Lemma gesture_predicates_total_witness :
  Gesture.isPointingUp (Some [mkLandmark 0 0 0]) = ([], Some false)
  /\ Gesture.isHandClosed (Some [mkLandmark 0 0 0]) = ([], Some false)
  /\ Gesture.isPinching (H := approxMath) (Some [mkLandmark 0 0 0]) = ([], Some false)
  /\ Gesture.isVictoryHand (Some [mkLandmark 0 0 0]) = ([], Some false).
Proof.
  apply (proj2 (gesture_predicates_total (H := approxMath) (Some [mkLandmark 0 0 0]))).
  right. exists [mkLandmark 0 0 0]. split; [reflexivity | cbn; lia].
Defined.

(** A pointing hand, a fist and a victory sign: each predicate can hold. *)
Example poses_of_the_three_hands :
  (point pointing_hand, fist pointing_hand, victory pointing_hand) = (true, false, false)
  /\ (point fist_hand, fist fist_hand, victory fist_hand) = (false, true, false)
  /\ (point victory_hand, fist victory_hand, victory victory_hand) = (false, false, true).
Proof. repeat split; vm_compute; reflexivity. Qed.

(** C9.  On a landmark list with at least 21 entries at most one of
    [isPointingUp], [isHandClosed] and [isVictoryHand] returns true: the
    three are pairwise exclusive. *)
Theorem gestures_pairwise_exclusive (l : NormalizedLandmarkList) :
  (21 <= length l)%nat ->
  ~ (point l = true /\ fist l = true)
  /\ ~ (point l = true /\ victory l = true)
  /\ ~ (fist l = true /\ victory l = true).
Proof.
  intro L. unfold point, fist, victory, holds, result.
  rewrite (isPointingUp_long l L), (isHandClosed_long l L), (isVictoryHand_long l L).
  cbn [snd]. unfold tipAbove, tipBelow, Qgtb.
  repeat split; intros [A B];
    repeat (apply andb_prop in A; destruct A as [A ?]);
    repeat (apply andb_prop in B; destruct B as [B ?]);
    eauto using Qltb_asym.
Qed.

Lemma gestures_pairwise_exclusive_witness :
  ~ (point pointing_hand = true /\ fist pointing_hand = true)
  /\ ~ (point pointing_hand = true /\ victory pointing_hand = true)
  /\ ~ (fist pointing_hand = true /\ victory pointing_hand = true).
Proof.
  apply (gestures_pairwise_exclusive pointing_hand). cbn. lia.
Defined.

(** C2, as stated, fails: the pinch is not classified by comparing the y of
    fingertips with the y of knuckles.  In [closed_pinch] and [open_pinch]
    all landmarks lie at the same height, so the two hands agree on every
    such comparison; the thumb tip of the second is one unit to the side,
    and only the first one pinches. *)
Lemma pinch_not_by_tip_versus_knuckle :
  ~ (forall pose, In pose (poses (H := approxMath)) -> byTipVersusKnuckle pose).
Proof.
  intro A.
  assert (P : pinch (H := approxMath) closed_pinch = pinch (H := approxMath) open_pinch).
  { apply (A pinch).
    - left. reflexivity.
    - cbn. lia.
    - cbn. lia.
    - vm_compute. reflexivity. }
  vm_compute in P. discriminate P.
Qed.

(** The gun pose compares the thumb tip with the index tip, not with a
    knuckle. *)
Lemma thumbUp_not_by_tip_versus_knuckle : ~ byTipVersusKnuckle thumbUp.
Proof.
  intro A.
  assert (P : thumbUp low_thumb = thumbUp high_thumb).
  { apply A; [cbn; lia | cbn; lia | vm_compute; reflexivity]. }
  vm_compute in P. discriminate P.
Qed.

Lemma profile_tip (l1 l2 : NormalizedLandmarkList) :
  yProfile l1 = yProfile l2 ->
  forall tip pip, In (tip, pip) fingerJoints ->
    tipAbove l1 tip pip = tipAbove l2 tip pip
    /\ tipBelow l1 tip pip = tipBelow l2 tip pip.
Proof.
  intros E tip pip I. unfold tipAbove, tipBelow.
  rewrite !Qltb_compare, !Qgtb_compare.
  unfold yProfile, fingerJoints in *. cbn [map] in E.
  injection E as E4 E8 E12 E16 E20.
  cbn [In] in I.
  destruct I as [I | [I | [I | [I | [I | []]]]]]; injection I as <- <-;
    (rewrite E4 || rewrite E8 || rewrite E12 || rewrite E16 || rewrite E20);
    split; reflexivity.
Qed.

(** C2, amended.  On a complete skeleton every pose yields a boolean.
    Fist, point and victory are conjunctions of comparisons between the y
    of the index, middle, ring and pinky tips and the y of their PIP joints,
    hence equal on hands with equal comparisons; the pinch is the
    thumb-tip to index-tip distance being below 0.05, and the gun pose is
    the thumb tip being above the index tip. *)
Theorem poses_classified `{MathLib} (l : NormalizedLandmarkList) :
  (21 <= length l)%nat ->
  (result (Gesture.isHandClosed (Some l)) =
     Some (tipBelow l 8 6 && tipBelow l 12 10 && tipBelow l 16 14 && tipBelow l 20 18)
   /\ result (Gesture.isPointingUp (Some l)) =
     Some (tipAbove l 8 6 && tipBelow l 12 10 && tipBelow l 16 14 && tipBelow l 20 18)
   /\ result (Gesture.isVictoryHand (Some l)) =
     Some (tipAbove l 8 6 && tipAbove l 12 10 && tipBelow l 16 14 && tipBelow l 20 18)
   /\ result (Gesture.isPinching (Some l)) =
     Some (let dx := x (at0 l 8) - x (at0 l 4) in
           let dy := y (at0 l 8) - y (at0 l 4) in
           Qltb (Math_sqrt (dx * dx + dy * dy)) (5 # 100))
   /\ result (ARGame.isActive l) = Some (Qltb (y (at0 l 4)) (y (at0 l 8))))
  /\ (forall l2 : NormalizedLandmarkList,
        (21 <= length l2)%nat -> yProfile l = yProfile l2 ->
        fist l = fist l2 /\ point l = point l2 /\ victory l = victory l2).
Proof.
  intro L. split.
  - rewrite (isHandClosed_long l L), (isPointingUp_long l L),
      (isVictoryHand_long l L), (isPinching_long l L), (isActive_long l L).
    repeat split.
  - intros l2 L2 E. unfold fist, point, victory, holds, result.
    rewrite (isHandClosed_long l L), (isPointingUp_long l L), (isVictoryHand_long l L),
      (isHandClosed_long l2 L2), (isPointingUp_long l2 L2), (isVictoryHand_long l2 L2).
    cbn [snd].
    destruct (profile_tip l l2 E 8 6)%nat as [A8 B8]; [cbn; tauto |].
    destruct (profile_tip l l2 E 12 10)%nat as [A12 B12]; [cbn; tauto |].
    destruct (profile_tip l l2 E 16 14)%nat as [A16 B16]; [cbn; tauto |].
    destruct (profile_tip l l2 E 20 18)%nat as [A20 B20]; [cbn; tauto |].
    rewrite A8, B8, A12, B12, B16, B20. repeat split.
Qed.

Lemma poses_classified_witness :
  result (Gesture.isPinching (H := approxMath) (Some closed_pinch)) = Some true
  /\ fist closed_pinch = fist open_pinch.
Proof.
  destruct (poses_classified (H := approxMath) closed_pinch) as [(_ & _ & _ & P & _) Q].
  - cbn. lia.
  - split.
    + rewrite P. vm_compute. reflexivity.
    + apply (Q open_pinch); [cbn; lia | vm_compute; reflexivity].
Defined.

(** ** Coordinate mapping *)

Lemma Math_max_l (a b : Q) : a <= Math_max a b.
Proof.
  unfold Math_max. destruct (Qltb a b) eqn:E; [apply Qltb_lt in E |]; lra.
Qed.

Lemma Math_max_r (a b : Q) : b <= Math_max a b.
Proof.
  unfold Math_max. destruct (Qltb a b) eqn:E; [| apply Qltb_ge in E]; lra.
Qed.

(** C1.  [getMappedCoords] computes the cover scale-and-center formula from
    the canvas size, the video size, the zoom level, the mirror flag and
    the normalized coordinates, and from nothing else; [getScreenCoord],
    which folds the zoom into the scale, computes the same point without
    mirroring. *)
Theorem mapper_is_cover_formula (w : ARCanvas.World) (f : TimeSlice.Frame)
    (zoom nx ny : Q) (mirrorX : bool) :
  ARCanvas.getMappedCoords w nx ny mirrorX =
    coverMap (ARCanvas.width (ARCanvas.dimensionsRef w))
             (ARCanvas.height (ARCanvas.dimensionsRef w))
             (ARCanvas.width (ARCanvas.videoDimensionsRef w))
             (ARCanvas.height (ARCanvas.videoDimensionsRef w))
             (ARCanvas.zoomLevelRef w) mirrorX nx ny
  /\ Peq (TimeSlice.getScreenCoord (TimeSlice.viewOf f zoom) nx ny)
         (coverMap (TimeSlice.canvasW f) (TimeSlice.canvasH f)
            (GridStretch.orDefault (GridStretch.imageWidth (TimeSlice.image f)) 1280)
            (GridStretch.orDefault (GridStretch.imageHeight (TimeSlice.image f)) 720)
            zoom false nx ny).
Proof.
  split; [reflexivity |].
  unfold Peq, TimeSlice.getScreenCoord, TimeSlice.viewOf, coverMap.
  cbn [px py TimeSlice.offsetX TimeSlice.offsetY TimeSlice.drawW TimeSlice.drawH].
  split; field.
Qed.

(** The centre of the picture maps to the centre of the canvas. *)
Example mapped_centre :
  Peq (ARCanvas.getMappedCoords emptyWorld (1 # 2) (1 # 2) true) (mkPoint 400 300).
Proof. split; vm_compute; reflexivity. Qed.

(** ** The tear filter *)

Section TearFacts.
Context `{MathLib}.
Import ARCanvas.

Ltac tear_simpl :=
  cbn [position velocity plugin progress state side pathOffset isSensor isStatic id
       px py bezier mapLandmark
       setVelocity set_isSensor set_state set_progress setAngularVelocity
       setPosition set_restitution set_frictionAir set_rewindStartTime applyForce].

Lemma repel_frame (body : TearBody) (pt : Point) :
  plugin (repel body pt) = plugin body
  /\ position (repel body pt) = position body
  /\ velocity (repel body pt) = velocity body
  /\ isSensor (repel body pt) = isSensor body
  /\ isStatic (repel body pt) = isStatic body
  /\ id (repel body pt) = id body.
Proof.
  unfold repel. destruct (Qltb _ 10000 && Qgtb _ 0); repeat split.
Qed.

Lemma fallStep_frame (pts : list Point) (body : TearBody) :
  plugin (fallStep pts body) = plugin body
  /\ position (fallStep pts body) = position body
  /\ velocity (fallStep pts body) = velocity body
  /\ isSensor (fallStep pts body) = isSensor body
  /\ isStatic (fallStep pts body) = isStatic body
  /\ id (fallStep pts body) = id body.
Proof.
  unfold fallStep. revert body.
  induction pts as [| pt pts IH]; intro body; cbn [fold_left].
  - repeat split.
  - destruct (IH (repel body pt)) as (-> & -> & -> & -> & -> & ->).
    apply repel_frame.
Qed.




(** The face landmarks of a tear's path are the eye, the cheek and the drop
    landmark of its side, read from the stored face when the camera is on. *)
Lemma facePath_landmarks (w : World) (s : Side) (face : list Landmark)
    (eye cheek drop : Landmark) :
  isCameraOnRef w = true -> faceLandmarksRef w = Some face ->
  nth_error face (match s with side_left => 145 | side_right => 374 end)%nat = Some eye ->
  nth_error face (match s with side_left => 205 | side_right => 425 end)%nat = Some cheek ->
  nth_error face (match s with side_left => 136 | side_right => 365 end)%nat = Some drop ->
  facePath w s = Some (eye, cheek, drop).
Proof.
  intros C F E0 E1 E2. unfold facePath. rewrite C, F.
  destruct s; unfold L_EYE, L_CHEEK, L_DROP, R_EYE, R_CHEEK, R_DROP;
    rewrite E0, E1, E2; reflexivity.
Qed.



Lemma slideStep_inRange (w : World) (rnd : Q * Q) (body : TearBody) :
  state (plugin body) = sliding -> slidingInRange body ->
  slidingInRange (slideStep w rnd body).
Proof.
  intros T I. destruct (I T) as [Lo Hi]. unfold slideStep, slidingInRange.
  destruct (facePath w (side (plugin body))) as [[[p0Raw p1Raw] p2Raw] |].
  - tear_simpl.
    destruct (Qgeb (progress (plugin body)
                    + ((1 # 100) + progress (plugin body) * (3 # 100))) 1) eqn:G;
      tear_simpl.
    + discriminate.
    + intros _. split; [lra |].
      match goal with |- ?a < 1 =>
        destruct (Qlt_le_dec a 1) as [L | L]; [exact L |] end.
      apply Qle_bool_iff in L. unfold Qgeb in G. congruence.
  - tear_simpl. discriminate.
Qed.

Lemma rewindStep_inRange (w : World) (now : Z) (body body' : TearBody) :
  state (plugin body) = rewinding -> rewindStep w now body = Some body' ->
  slidingInRange body'.
Proof.
  intros T E. assert (R : state (plugin body') = rewinding).
  { unfold rewindStep in E.
    repeat match type of E with
           | context [match ?c with _ => _ end] => destruct c
           | context [if ?c then _ else _] => destruct c
           end;
      try discriminate E; injection E as <-; tear_simpl; exact T. }
  unfold slidingInRange. rewrite R. discriminate.
Qed.

Lemma tearStep_inRange (w : World) (now : Z) (rnd : nat -> Q * Q) (pts : list Point)
    (body body' : TearBody) :
  slidingInRange body -> tearStep w now rnd pts body = Some body' ->
  slidingInRange body'.
Proof.
  intros I E. unfold tearStep in E.
  destruct (isStatic body); [now injection E as <- |].
  set (body0 := set_restitution (bounce (settingsRef w)) body) in *.
  assert (I0 : slidingInRange body0) by exact I.
  change (state (plugin body0)) with (state (plugin body)) in E.
  destruct (state (plugin body)) eqn:T; cbv beta iota in E.
  - pose proof (slideStep_inRange w (rnd (id body0)) body0 T I0) as J.
    destruct (state (plugin (slideStep w (rnd (id body0)) body0))) eqn:T';
      injection E as <-; try exact J.
    unfold slidingInRange.
    match goal with |- context [fallStep pts ?b] =>
      destruct (fallStep_frame pts b) as (-> & _) end.
    intro X. assert (A : falling = sliding) by (rewrite <- T'; exact X).
    discriminate A.
  - change (state (plugin body0)) with (state (plugin body)) in E.
    rewrite T in E. injection E as <-. unfold slidingInRange.
    destruct (fallStep_frame pts body0) as (-> & _).
    change (state (plugin body0)) with (state (plugin body)).
    rewrite T. discriminate.
  - apply (rewindStep_inRange w now body0 body' T E).
Qed.

Lemma filter_map_Forall {A B} (P : A -> Prop) (Q' : B -> Prop) (f : A -> option B)
    (l : list A) :
  (forall a b, P a -> f a = Some b -> Q' b) ->
  Forall P l -> Forall Q' (filter_map f l).
Proof.
  intros F. induction 1 as [| a l Pa _ IH]; cbn.
  - constructor.
  - destruct (f a) eqn:E; cbn; [constructor; eauto | exact IH].
Qed.

Lemma spawn_inRange (w : World) (now : Z) (d : SpawnDraws) (bs : list TearBody) :
  Forall slidingInRange bs ->
  Forall slidingInRange (fst (fst (fst (spawn w now d bs)))).
Proof.
  intro I. unfold spawn.
  destruct (textQueueRef w) as [| char rest]; [exact I |].
  destruct (35 <? now - lastSpawnTimeRef w)%Z; [| exact I].
  match goal with |- context [match ?c with Some _ => _ | None => _ end] =>
    destruct c as [pos |] end; [| exact I].
  cbn [fst]. apply Forall_app. split; [exact I |].
  constructor; [| constructor].
  unfold slidingInRange. tear_simpl. intros _. lra.
Qed.

(** Across all callbacks, a sliding tear keeps its progress in [0,1). *)
Lemma sliding_progress_in_range (es : list Event) (w : World) :
  Forall slidingInRange (bodies w) ->
  Forall slidingInRange (bodies (fst (run es w))).
Proof.
  revert w. induction es as [| e es IH]; intros w I; [exact I |].
  cbn [run].
  destruct (step e w) as [w1 a1] eqn:S.
  specialize (IH w1).
  destruct (run es w1) as [w2 a2]. cbn [fst] in *. apply IH. clear IH.
  destruct e; cbn [step] in S.
  - injection S as <- _. unfold onFaceResults.
    destruct multiFaceLandmarks as [[| ? ?] |]; exact I.
  - injection S as <- _. unfold onHandsResults.
    destruct multiHandLandmarks as [[| ? ?] |]; exact I.
  - injection S as <- _. unfold beforeUpdate.
    pose proof (spawn_inRange w (tickNow k) (tickSpawn k)
                  (filter_map (tearStep w (tickNow k) (tickRnd k) (repulsionPoints w))
                     (bodies w))) as J.
    destruct (spawn w (tickNow k) (tickSpawn k) _) as [[[bs' last] queue] next].
    cbn [bodies fst] in *. apply J.
    apply (filter_map_Forall slidingInRange slidingInRange _ _
             (fun a b => tearStep_inRange w _ _ _ a b) I).
  - unfold afterRender in S.
    destruct (handLandmarksRef w); [| now injection S as <- _].
    destruct (isCameraOnRef w); [| now injection S as <- _].
    destruct (forEachHand w p (lastInteractRef w) l).
    injection S as <- _. exact I.
  - injection S as <- _. unfold onRewind. cbn [set_bodies bodies].
    apply Forall_map. apply (Forall_impl _ (P := slidingInRange)); [| exact I].
    intros b Ib. destruct (isStatic b); [exact Ib |].
    destruct (indexOf (id b) _); [| exact Ib].
    unfold slidingInRange. tear_simpl. discriminate.
  - injection S as <- _. unfold onClear. cbn [set_bodies bodies].
    apply Forall_forall. intros b Ib. apply filter_In in Ib.
    apply (proj1 (Forall_forall _ _) I b), Ib.
Qed.

End TearFacts.


(** ** Landmark refs across callbacks *)

Section RefFacts.
Context `{MathLib}.
Import ARCanvas.






End RefFacts.


(** ** The time-slice camera: callbacks as computations on the refs *)

Section MonadFacts.
Import TimeSlice.
Local Open Scope app_scope.

Lemma relates_mbind {A B} (R : App -> App -> Prop) (m : M A) (k : A -> M B) :
  (forall a b c, R a b -> R b c -> R a c) ->
  relates R m -> (forall v, relates R (k v)) -> relates R (mbind m k).
Proof.
  intros T Rm Rk a. unfold mbind. specialize (Rm a).
  destruct (m a) as [[v |] a1]; cbn [snd] in *.
  - apply (T _ a1); [exact Rm | apply Rk].
  - exact Rm.
Qed.

Lemma keeps_mret {X A} (g : App -> X) (v : A) : keeps g (mret v).
Proof. intro a. reflexivity. Qed.

Lemma keeps_get {X} (g : App -> X) : keeps g get.
Proof. intro a. reflexivity. Qed.

Lemma keeps_orThrow {X A} (g : App -> X) (o : option A) : keeps g (orThrow o).
Proof. intro a. reflexivity. Qed.

Lemma keeps_modify {X} (g : App -> X) (f : App -> App) :
  (forall a, g (f a) = g a) -> keeps g (modify f).
Proof. intros E a. apply E. Qed.

Lemma keeps_mbind {X A B} (g : App -> X) (m : M A) (k : A -> M B) :
  keeps g m -> (forall v, keeps g (k v)) -> keeps g (mbind m k).
Proof.
  apply relates_mbind. intros a b c E1 E2. now rewrite E2.
Qed.

Lemma keeps_when {X} (g : App -> X) (b : bool) (m : M unit) :
  keeps g m -> keeps g (when b m).
Proof. intro K. destruct b; [exact K | apply keeps_mret]. Qed.

Lemma yields_mret {A} (P : A -> Prop) (v : A) : P v -> yields P (mret v).
Proof. intros Pv a. now exists v. Qed.

Lemma yields_get : yields (fun _ => True) get.
Proof. intro a. now exists a. Qed.

Lemma yields_modify (f : App -> App) : yields (fun _ => True) (modify f).
Proof. intro a. now exists tt. Qed.

Lemma yields_orThrow {A} (v : A) : yields (fun _ => True) (orThrow (Some v)).
Proof. intro a. now exists v. Qed.

Lemma yields_mbind {A B} (P : A -> Prop) (Q' : B -> Prop) (m : M A) (k : A -> M B) :
  yields P m -> (forall v, P v -> yields Q' (k v)) -> yields Q' (mbind m k).
Proof.
  intros Ym Yk a. unfold mbind. destruct (Ym a) as [v [E Pv]].
  destruct (m a) as [[v' |] a1]; cbn [fst] in E; [| discriminate].
  injection E as ->. apply Yk, Pv.
Qed.

Lemma yields_when (b : bool) (m : M unit) :
  yields (fun _ => True) m -> yields (fun _ => True) (when b m).
Proof. intro R. destruct b; [exact R | now apply yields_mret]. Qed.

Lemma mbind_run {A B} (m : M A) (k : A -> M B) (a a1 : App) (v : A) :
  m a = (Some v, a1) -> mbind m k a = k v a1.
Proof. intro E. unfold mbind. rewrite E. reflexivity. Qed.

Lemma resizeCanvas_run (f : Frame) (a : App) :
  resizeCanvas f a = (Some tt, resized f a).
Proof.
  unfold resizeCanvas, resized, mbind, get, when, modify, mret.
  destruct (sizeChanged f a); destruct a; reflexivity.
Qed.

Lemma keeps_resizeCanvas {X} (g : App -> X) (f : Frame) :
  (forall a, g (resized f a) = g a) -> keeps g (resizeCanvas f).
Proof. intros E a. rewrite resizeCanvas_run. apply E. Qed.

Lemma yields_resizeCanvas (f : Frame) : yields (fun _ => True) (resizeCanvas f).
Proof. intro a. exists tt. rewrite resizeCanvas_run. split; [reflexivity | exact I]. Qed.

End MonadFacts.

(** Structural proofs that a computation keeps a ref or never throws. *)
Ltac keeps_step :=
  first
    [ apply keeps_mret | apply keeps_get | apply keeps_orThrow
    | apply keeps_modify; intro;
      repeat match goal with |- context [if ?c then _ else _] => destruct c end;
      reflexivity
    | apply keeps_when
    | apply keeps_mbind; [| intro]
    | match goal with
      | |- TimeSlice.keeps _ (match ?c with _ => _ end) => destruct c
      | |- TimeSlice.keeps _ (if ?c then _ else _) => destruct c
      end ].

Ltac yields_step :=
  first
    [ apply yields_mret; exact I | apply yields_get | apply yields_modify
    | apply yields_orThrow
    | apply yields_when
    | eapply yields_mbind; [| intros ? ?]
    | match goal with
      | |- TimeSlice.yields _ (match ?c with _ => _ end) => destruct c
      | |- TimeSlice.yields _ (if ?c then _ else _) => destruct c
      end ].

(** Running a computation on the refs. *)
Ltac app_simpl :=
  cbv [TimeSlice.mbind TimeSlice.mret TimeSlice.get TimeSlice.modify TimeSlice.when
       TimeSlice.orThrow TimeSlice.resetSystem];
  cbn [fst snd TimeSlice.stateRef TimeSlice.rectRef TimeSlice.handCountRef
       TimeSlice.effectModeRef TimeSlice.zoomLevelRef TimeSlice.frozenCanvas
       TimeSlice.santaPathRef TimeSlice.horse1Ref TimeSlice.horse2Ref
       TimeSlice.santaPathProgressRef TimeSlice.gridStretchRef
       TimeSlice.resetStartTimeRef TimeSlice.effectSwitchStartTimeRef
       TimeSlice.set_stateRef TimeSlice.set_rectRef TimeSlice.set_handCountRef
       TimeSlice.set_effectModeRef TimeSlice.set_frozenCanvas TimeSlice.set_santaPathRef
       TimeSlice.set_horse1Ref TimeSlice.set_horse2Ref
       TimeSlice.set_santaPathProgressRef TimeSlice.set_gridStretchRef
       TimeSlice.set_resetStartTimeRef TimeSlice.set_effectSwitchStartTimeRef
       TimeSlice.canvasWidth TimeSlice.canvasHeight TimeSlice.set_canvasSize
       TimeSlice.eqState andb].

(** ** The time-slice camera: what each part of a frame touches *)

Section TimeSliceFrames.
Context `{MathLib}.
Import TimeSlice.
Local Open Scope app_scope.

Lemma initSanta_keeps_core (r : Rect) (d : nat -> Q) : keeps coreOf (initSanta r d).
Proof. unfold initSanta. repeat keeps_step. Qed.

Lemma stateMachine_keeps_timers (f : Frame) (v : View) :
  keeps timersOf (stateMachine f v).
Proof.
  unfold stateMachine, bothHands, lm, initSanta. repeat keeps_step.
Qed.

Lemma activeHandsOf_keeps {X} (g : App -> X) (f : Frame) : keeps g (activeHandsOf f).
Proof. unfold activeHandsOf, lm. repeat keeps_step. Qed.

Lemma gridInteractions_keeps {X} (g : App -> X) (v : View) (r : Rect)
    (hands : list NormalizedLandmarkList) : keeps g (gridInteractions v r hands).
Proof.
  induction hands as [| hand rest IH]; cbn [gridInteractions].
  - apply keeps_mret.
  - apply keeps_mbind; [| intro; apply keeps_mbind; [exact IH | intro; apply keeps_mret]].
    unfold gridInteraction, lm. repeat keeps_step.
Qed.

Lemma render_keeps_core (f : Frame) (v : View) (hs : list NormalizedLandmarkList) :
  keeps coreOf (render f v hs).
Proof.
  unfold render. apply keeps_mbind; [apply keeps_get | intro a].
  destruct (stateRef a); try apply keeps_mret.
  destruct (effectModeRef a); try apply keeps_mret.
  - unfold renderGrid.
    apply keeps_mbind; [apply keeps_get | intro].
    apply keeps_mbind; [apply gridInteractions_keeps | intro].
    repeat keeps_step.
  - unfold renderSanta. repeat keeps_step.
Qed.

Lemma effectSwitchLogic_keeps_selection (f : Frame) :
  keeps selectionOf (effectSwitchLogic f).
Proof.
  unfold effectSwitchLogic, handleEffectSwitch, initSanta. repeat keeps_step.
Qed.

Lemma lm_at (h : NormalizedLandmarkList) (i : nat) :
  (i < length h)%nat -> lm h i = orThrow (Some (at0 h i)).
Proof.
  intro L. unfold lm, at0. now rewrite (nth_error_nth' h (mkLandmark 0 0 0) L).
Qed.

Lemma wellFormed_two (f : Frame) (h0 h1 : NormalizedLandmarkList) :
  wellFormed f = true -> multiHandLandmarks f = Some [h0; h1] ->
  (21 <= length h0)%nat /\ (21 <= length h1)%nat.
Proof.
  unfold wellFormed. intros W E. rewrite E in W. cbn [forallb] in W.
  apply andb_prop in W. destruct W as [W0 W]. apply andb_prop in W. destruct W as [W1 _].
  split; now apply Nat.leb_le.
Qed.

(** A frozen app passes the state machine untouched. *)
Lemma stateMachine_frozen (f : Frame) (v : View) (a : App) :
  stateRef a = FROZEN -> stateMachine f v a = (Some tt, a).
Proof.
  intro S. unfold stateMachine. repeat (progress (app_simpl; rewrite ?S)).
  reflexivity.
Qed.

(** The state machine on a well-formed frame: it returns, the state is the
    one the two tests give, and entering FROZEN captures the frame. *)
Lemma stateMachine_spec (f : Frame) (v : View) (a : App) :
  wellFormed f = true ->
  exists a1,
    stateMachine f v a = (Some tt, a1)
    /\ stateRef a1 = machineState (stateRef a) f
    /\ (stateRef a <> FROZEN -> stateRef a1 = FROZEN ->
        frozenCanvas a1 = Some (GridStretch.imageId (image f)))
    /\ (stateRef a1 = stateRef a \/
        (stateRef a = IDLE /\ pointingBoth f = true) \/
        (stateRef a = RESIZING /\ pinchingBoth f = true)).
Proof.
  intro W.
  unfold stateMachine, machineState, afterPointing, afterPinching, pointingBoth,
    pinchingBoth, bothHands.
  destruct (multiHandLandmarks f) as [[| h0 [| h1 [| h2 rest]]] |] eqn:E;
    try solve [destruct (stateRef a) eqn:S; repeat (progress (app_simpl; rewrite ?S));
               eexists; repeat split; (reflexivity || congruence || auto)].
  destruct (wellFormed_two f h0 h1 W E) as [L0 L1].
  rewrite (lm_at h0 8), (lm_at h1 8) by lia.
  unfold point, pinch.
  destruct (stateRef a) eqn:S; repeat (progress (app_simpl; rewrite ?S));
    destruct (holds (Gesture.isPointingUp (Some h0)));
    destruct (holds (Gesture.isPointingUp (Some h1)));
    destruct (holds (Gesture.isPinching (Some h0)));
    destruct (holds (Gesture.isPinching (Some h1)));
    repeat (progress (app_simpl; rewrite ?S));
    try (destruct (Qeq_bool (rw (rectRef a)) 0 && Qeq_bool (rh (rectRef a)) 0));
    repeat (progress (app_simpl; rewrite ?S));
    try (destruct (effectModeRef a); unfold initSanta;
         repeat (progress (app_simpl; rewrite ?S)));
    eexists; (split; [reflexivity |]); app_simpl;
    repeat split; try (reflexivity || congruence || auto).
Qed.

(** The reset logic is a dwell timer of 1500 ms on the two-fist gesture;
    when it fires, [resetSystem] has run. *)
Lemma resetLogic_spec (f : Frame) (a : App) :
  let d := dwell 1500 (isResetGesture f) (resetClock f) (resetStartTimeRef a) in
  exists a',
    resetLogic f a = (Some (snd d), a')
    /\ resetStartTimeRef a' = fst d
    /\ (snd d = false -> a' = set_resetStartTimeRef (fst d) a)
    /\ (snd d = true ->
        stateRef a' = IDLE /\ rectRef a' = mkRect 0 0 0 0
        /\ effectModeRef a' = NORMAL /\ effectSwitchStartTimeRef a' = None
        /\ frozenCanvas a' = None).
Proof.
  unfold resetLogic, dwell.
  destruct (isResetGesture f); [| eexists; repeat split; discriminate].
  destruct (unset (resetStartTimeRef a)) eqn:U; app_simpl; rewrite ?U; app_simpl;
    match goal with |- context [(1500 <? ?e)%Z] => destruct (1500 <? e)%Z end;
    app_simpl; eexists; (split; [reflexivity |]); app_simpl;
    repeat split; try discriminate.
  destruct a; reflexivity.
Qed.

(** The effect switch is a dwell timer of 2000 ms on the victory sign shown
    to a frozen app; when it fires, the effect mode advances. *)
Lemma effectSwitchLogic_spec (f : Frame) (a : App) :
  let d := dwell 2000 (eqState (stateRef a) FROZEN && isVictory f) (switchClock f)
             (effectSwitchStartTimeRef a) in
  exists a',
    effectSwitchLogic f a
    = (Some (if snd d then Some (nextMode (effectModeRef a)) else None), a')
    /\ effectSwitchStartTimeRef a' = fst d
    /\ (snd d = false -> a' = set_effectSwitchStartTimeRef (fst d) a)
    /\ (snd d = true -> effectModeRef a' = nextMode (effectModeRef a)).
Proof.
  unfold effectSwitchLogic, dwell. app_simpl.
  destruct (eqState (stateRef a) FROZEN && isVictory f);
    [| eexists; repeat split; discriminate].
  destruct (unset (effectSwitchStartTimeRef a)) eqn:U; app_simpl; rewrite ?U; app_simpl;
    match goal with |- context [(2000 <? ?e)%Z] => destruct (2000 <? e)%Z end;
    app_simpl; try (eexists; (split; [reflexivity |]); app_simpl;
                    repeat split; try discriminate; destruct a; reflexivity).
  all: unfold handleEffectSwitch, initSanta; app_simpl;
    destruct (nextMode (effectModeRef a)) eqn:N; app_simpl;
    eexists; (split; [reflexivity |]); app_simpl; repeat split; discriminate.
Qed.

(** Sorting keeps the hands it is given. *)
Lemma insertByX_Forall (P : NormalizedLandmarkList -> Prop) (k : Q)
    (h : NormalizedLandmarkList) (l : list (Q * NormalizedLandmarkList)) :
  P h -> Forall P (map snd l) -> Forall P (map snd (insertByX k h l)).
Proof.
  intros Ph. induction l as [| [k' h'] rest IH]; cbn [insertByX map snd]; intro F.
  - constructor; [exact Ph | constructor].
  - destruct (Qleb k k'); cbn [map snd].
    + constructor; [exact Ph | exact F].
    + inversion F; subst. constructor; [assumption | now apply IH].
Qed.

Lemma sortByX_spec (hands : list NormalizedLandmarkList) :
  Forall (fun h => (21 <= length h)%nat) hands ->
  exists sorted, sortByX hands = Some sorted
                 /\ Forall (fun h => (21 <= length h)%nat) sorted
                 /\ length sorted = length hands.
Proof.
  intro F.
  assert (K : exists ks, keyed hands = Some ks /\ map snd ks = hands).
  { induction F as [| h rest Lh _ [ks [E M]]]; cbn [keyed].
    - now exists [].
    - rewrite (nth_error_nth' h (mkLandmark 0 0 0)) by lia. rewrite E.
      eexists. split; [reflexivity |]. cbn [map snd]. now rewrite M. }
  destruct K as [ks [E M]].
  assert (S : Forall (fun h => (21 <= length h)%nat)
                (map snd (fold_right (fun kh acc => insertByX (fst kh) (snd kh) acc) [] ks))
              /\ length (fold_right (fun kh acc => insertByX (fst kh) (snd kh) acc) [] ks)
                 = length ks).
  { rewrite <- M in F. clear E M. induction ks as [| [k h] ks IH]; cbn [fold_right fst snd].
    - split; [constructor | reflexivity].
    - cbn [map snd] in F. inversion F; subst. destruct (IH H3) as [IF IL]. split.
      + now apply insertByX_Forall.
      + clear - IL. revert IL.
        generalize (fold_right (fun kh acc => insertByX (fst kh) (snd kh) acc) [] ks).
        intros l IL. cbn [length]. rewrite <- IL. clear.
        induction l as [| [k' h'] l IHl]; cbn [insertByX length]; [reflexivity |].
        destruct (Qleb k k'); cbn [length]; [reflexivity | now rewrite IHl]. }
  unfold sortByX.
  destruct hands as [| h0 [| h1 rest]].
  - exists []. repeat split. constructor.
  - exists [h0]. repeat split. exact F.
  - rewrite E. cbn [option_map]. eexists. split; [reflexivity |].
    destruct S as [SF SL]. split; [exact SF |].
    rewrite length_map, SL, <- M, length_map. reflexivity.
Qed.

Lemma wellFormed_hands (f : Frame) (hands : list NormalizedLandmarkList) :
  wellFormed f = true -> multiHandLandmarks f = Some hands -> handsOk hands.
Proof.
  unfold wellFormed. intros W E. rewrite E in W.
  apply Forall_forall. intros h I.
  apply Nat.leb_le. apply (proj1 (forallb_forall _ _) W h I).
Qed.

Lemma activeHandsOf_spec (f : Frame) (a : App) :
  wellFormed f = true ->
  exists hs, activeHandsOf f a = (Some hs, a) /\ handsOk hs
             /\ (hs = [] \/ (stateRef a = FROZEN /\ exists hands,
                    multiHandLandmarks f = Some hands /\ length hs = length hands)).
Proof.
  intro W. unfold activeHandsOf. app_simpl.
  destruct (stateRef a) eqn:S; try (exists []; repeat split; [constructor | now left]).
  destruct (multiHandLandmarks f) as [hands |] eqn:E;
    [| exists []; repeat split; [constructor | now left]].
  destruct (sortByX_spec hands (wellFormed_hands f hands W E)) as (sorted & -> & F & L).
  app_simpl. destruct sorted as [| h rest].
  - exists []. repeat split; [constructor | now left].
  - inversion F; subst. rewrite (lm_at h 8) by lia. app_simpl.
    exists (h :: rest). repeat split; [exact F |]. right. split; [reflexivity |].
    now exists hands.
Qed.

Lemma gridInteractions_yields (v : View) (r : Rect) (hs : list NormalizedLandmarkList) :
  handsOk hs -> yields (fun _ => True) (gridInteractions v r hs).
Proof.
  induction 1 as [| h rest L _ IH]; cbn [gridInteractions].
  - now apply yields_mret.
  - eapply yields_mbind; [| intros ? _; eapply yields_mbind;
                              [exact IH | intros ? _; now apply yields_mret]].
    unfold gridInteraction. rewrite (lm_at h 4), (lm_at h 8) by lia.
    repeat yields_step.
Qed.

Lemma solveControlPoint_some (rect : Rect) (hl : NormalizedLandmarkList)
    (screenW screenH : Q) (idx : nat) (type : Santa.ControlType) :
  (idx < length hl)%nat ->
  exists r, Santa.solveControlPoint rect hl screenW screenH idx type = Some r.
Proof.
  intro L. unfold Santa.solveControlPoint.
  rewrite (nth_error_nth' hl (mkLandmark 0 0 0) L). eexists. reflexivity.
Qed.

Lemma Santa_update_some (time : Q) (mode : Santa.Mode) (rect : Rect)
    (path : Santa.BezierPath) (progress : Q) (hand : option NormalizedLandmarkList)
    (screenW screenH : Q) (mirrorAuto : bool) (p : Santa.SantaPuppet) :
  (forall hl, hand = Some hl -> (21 <= length hl)%nat) ->
  exists p', Santa.update time mode rect path progress hand screenW screenH mirrorAuto p
             = Some p'.
Proof.
  intro L. unfold Santa.update.
  destruct mode; [eexists; reflexivity |].
  destruct hand as [hl |]; [| eexists; reflexivity].
  destruct (Santa.truthy screenW && Santa.truthy screenH); [| eexists; reflexivity].
  specialize (L hl eq_refl). unfold Santa.updatePuppet.
  destruct (solveControlPoint_some rect hl screenW screenH 4 Santa.KNEE) as [? ->]; [lia |].
  destruct (solveControlPoint_some rect hl screenW screenH 8 Santa.KNEE) as [? ->]; [lia |].
  destruct (solveControlPoint_some rect hl screenW screenH 12 Santa.HEAD) as [? ->]; [lia |].
  destruct (solveControlPoint_some rect hl screenW screenH 16 Santa.KNEE) as [? ->]; [lia |].
  destruct (solveControlPoint_some rect hl screenW screenH 20 Santa.KNEE) as [? ->]; [lia |].
  eexists. reflexivity.
Qed.

Lemma handsOk_nth (hs : list NormalizedLandmarkList) (i : nat) :
  handsOk hs -> forall hl, nth_error hs i = Some hl -> (21 <= length hl)%nat.
Proof.
  intros F hl E. apply nth_error_In in E.
  apply (proj1 (Forall_forall _ _) F hl E).
Qed.

Lemma renderSanta_yields (f : Frame) (hs : list NormalizedLandmarkList) :
  handsOk hs -> yields (fun _ => True) (renderSanta f hs).
Proof.
  intro F. unfold renderSanta.
  eapply yields_mbind; [apply yields_get | intros a0 _].
  eapply yields_mbind; [repeat yields_step | intros ? _].
  eapply yields_mbind; [apply yields_get | intros a1 _].
  match goal with |- context [Santa.update ?t ?m ?r ?p ?pr ?h ?w ?hh ?mi ?pp] =>
    destruct (Santa_update_some t m r p pr h w hh mi pp (handsOk_nth hs 0 F)) as [? ->] end.
  eapply yields_mbind; [apply yields_orThrow | intros ? _].
  eapply yields_mbind; [apply yields_modify | intros ? _].
  match goal with |- context [Santa.update ?t ?m ?r ?p ?pr ?h ?w ?hh ?mi ?pp] =>
    destruct (Santa_update_some t m r p pr h w hh mi pp (handsOk_nth hs 1 F)) as [? ->] end.
  eapply yields_mbind; [apply yields_orThrow | intros ? _].
  apply yields_modify.
Qed.

Lemma render_yields (f : Frame) (v : View) (hs : list NormalizedLandmarkList) :
  handsOk hs -> yields (fun _ => True) (render f v hs).
Proof.
  intro F. unfold render.
  eapply yields_mbind; [apply yields_get | intros a _].
  destruct (stateRef a); try now apply yields_mret.
  destruct (effectModeRef a); try now apply yields_mret.
  - unfold renderGrid.
    eapply yields_mbind; [apply yields_get | intros ? _].
    eapply yields_mbind; [apply gridInteractions_yields, F | intros ? _].
    repeat yields_step.
  - eapply yields_mbind; [apply renderSanta_yields, F | intros ? _].
    now apply yields_mret.
Qed.

(** A well-formed frame runs to its end: the parts of [onResults] in turn. *)
Lemma onResults_spec (f : Frame) (a : App) :
  wellFormed f = true ->
  let a0 := set_handCountRef (handCount f) (resized f a) in
  let v := viewOf f (zoomLevelRef a) in
  exists a1 hs ops a2 fired a3 switched a4,
    stateMachine f v a0 = (Some tt, a1)
    /\ activeHandsOf f a1 = (Some hs, a1)
    /\ render f v hs a1 = (Some ops, a2)
    /\ resetLogic f a2 = (Some fired, a3)
    /\ effectSwitchLogic f a3 = (Some switched, a4)
    /\ onResults f a = (Some (mkOutcome ops fired switched), a4).
Proof.
  intros W a0 v.
  destruct (stateMachine_spec f v a0 W) as (a1 & E1 & _).
  destruct (activeHandsOf_spec f a1 W) as (hs & E2 & F & _).
  destruct (render_yields f v hs F a1) as (ops & E3 & _).
  destruct (render f v hs a1) as [o a2] eqn:E3'. cbn [fst] in E3. subst o.
  destruct (resetLogic_spec f a2) as (a3 & E4 & _).
  destruct (effectSwitchLogic_spec f a3) as (a4 & E5 & _).
  do 8 eexists.
  repeat (split; [eassumption |]).
  unfold onResults. rewrite (mbind_run _ _ _ _ _ (resizeCanvas_run f a)).
  app_simpl. change (zoomLevelRef (resized f a)) with (zoomLevelRef a). fold a0 v.
  rewrite E1, E2, E3', E4, E5. reflexivity.
Qed.

End TimeSliceFrames.

(** ** The state machine of the time-slice camera *)


Section StateMachineFacts.
Context `{MathLib}.
Import TimeSlice.







End StateMachineFacts.


(** ** Fallbacks when landmarks are missing *)

Section HorseFacts.
Context `{MathLib}.
Import TimeSlice.









End HorseFacts.



(** ** The grid-stretch effect *)

Section GridFacts.
Context `{MathLib}.
Import GridStretch.

Lemma at_assign (a : list Q) (i j : nat) (v : Q) :
  at_ (assign a i v) j = if (j =? i)%nat then v else at_ a j.
Proof.
  unfold at_, assign.
  destruct (Nat.eqb_spec j i) as [-> | NE].
  - destruct (Nat.le_gt_cases (length a) i) as [L | L].
    + rewrite app_nth2; rewrite length_firstn, Nat.min_r by lia; [| lia].
      rewrite app_nth2; rewrite repeat_length; [| lia].
      replace (i - length a - (i - length a))%nat with O by lia. reflexivity.
    + rewrite app_nth2; rewrite length_firstn, Nat.min_l by lia; [| lia].
      replace (i - length a)%nat with O by lia. cbn [repeat app].
      replace (i - i)%nat with O by lia. reflexivity.
  - destruct (Nat.lt_ge_cases j i) as [L | L].
    + destruct (Nat.lt_ge_cases j (length a)) as [La | La].
      * rewrite app_nth1 by (rewrite length_firstn; lia).
        rewrite <- (firstn_skipn i a) at 2.
        rewrite app_nth1 by (rewrite length_firstn; lia). reflexivity.
      * rewrite (nth_overflow a) by lia.
        rewrite app_nth2; rewrite length_firstn, Nat.min_r by lia; [| lia].
        rewrite app_nth1 by (rewrite repeat_length; lia).
        apply nth_repeat.
    + assert (L' : (i < j)%nat) by lia.
      destruct (Nat.le_gt_cases (length a) i) as [La | La].
      * rewrite (nth_overflow a) by lia.
        rewrite skipn_all2 by lia.
        rewrite app_nth2; rewrite length_firstn, Nat.min_r by lia; [| lia].
        rewrite app_nth2; rewrite repeat_length; [| lia].
        destruct (j - length a - (i - length a))%nat as [| [| k]] eqn:D; try lia;
          reflexivity.
      * rewrite app_nth2; rewrite length_firstn, Nat.min_l by lia; [| lia].
        replace (i - length a)%nat with O by lia. cbn [repeat app].
        replace (j - i)%nat with (S (j - S i)) by lia. cbn [nth].
        rewrite nth_skipn. f_equal. lia.
Qed.

(** Loops: an invariant indexed by the counter. *)
Lemma for_inv {S} (P : nat -> S -> Prop) (m : nat) (body : nat -> S -> S) (s : S) :
  P O s -> (forall i s, (i < m)%nat -> P i s -> P (Datatypes.S i) (body i s)) ->
  P m (for_ m body s).
Proof.
  intros P0 Step. unfold for_.
  assert (G : forall k len s, (k + len <= m)%nat -> P k s ->
                P (k + len)%nat (fold_left (fun acc i => body i acc) (seq k len) s)).
  { intros k len. revert k. induction len as [| len IH]; intros k s0 L Pk.
    - now rewrite Nat.add_0_r.
    - cbn [seq fold_left]. replace (k + Datatypes.S len)%nat with (Datatypes.S k + len)%nat by lia.
      apply IH; [lia |]. apply Step; [lia | exact Pk]. }
  apply (G O m s); [lia | exact P0].
Qed.

Ltac loop_inv P :=
  match goal with
  | |- context [for_ ?m ?b ?s] =>
      let F := fresh "F" in
      pose proof (for_inv P m b s) as F; cbv beta in F
  end.

Ltac grid_simpl :=
  cbn [n currentWeightsX currentWeightsY targetWeightsX targetWeightsY fst snd] in *.

Lemma reset_spec (g : GridStretchManager) :
  n (reset g) = n g
  /\ allOnes g (currentWeightsX (reset g)) /\ allOnes g (currentWeightsY (reset g))
  /\ allOnes g (targetWeightsX (reset g)) /\ allOnes g (targetWeightsY (reset g)).
Proof.
  unfold reset, allOnes.
  loop_inv (fun (k : nat) (g' : GridStretchManager) =>
              n g' = n g
              /\ forall j, (j < k)%nat ->
                   at_ (currentWeightsX g') j = 1 /\ at_ (currentWeightsY g') j = 1
                   /\ at_ (targetWeightsX g') j = 1 /\ at_ (targetWeightsY g') j = 1).
  destruct F as [En A].
  - split; [reflexivity | intros; lia].
  - intros i g' _ [En A]. grid_simpl. split; [exact En |].
    intros j Lj. rewrite !at_assign.
    destruct (Nat.eqb_spec j i); [repeat split | apply A; lia].
  - split; [exact En |]. repeat split; intros j Lj; apply A; exact Lj.
Qed.

Lemma new_spec :
  new = mkGrid 15 (repeat 1 15) (repeat 1 15) (repeat 1 15) (repeat 1 15).
Proof. reflexivity. Qed.

Lemma resetTargets_spec (g : GridStretchManager) :
  let g' := resetTargets g in
  n g' = n g /\ currentWeightsX g' = currentWeightsX g
  /\ currentWeightsY g' = currentWeightsY g
  /\ allOnes g (targetWeightsX g') /\ allOnes g (targetWeightsY g').
Proof.
  unfold resetTargets, allOnes. cbv zeta.
  loop_inv (fun (k : nat) (g' : GridStretchManager) =>
              n g' = n g /\ currentWeightsX g' = currentWeightsX g
              /\ currentWeightsY g' = currentWeightsY g
              /\ forall j, (j < k)%nat ->
                   at_ (targetWeightsX g') j = 1 /\ at_ (targetWeightsY g') j = 1).
  destruct F as (En & Ex & Ey & A).
  - repeat split; intros; lia.
  - intros i g' _ (En & Ex & Ey & A). grid_simpl. repeat split; try assumption;
      rewrite at_assign; destruct (Nat.eqb_spec j i); try reflexivity; apply A; lia.
  - repeat split; try assumption; intros j Lj; apply A; exact Lj.
Qed.

Lemma intensity_nonneg (point : GridInteraction) : 0 <= intensityOf point.
Proof. unfold intensityOf. apply Math_max_l. Qed.

Lemma influence_spec (point : GridInteraction) (g : GridStretchManager) :
  baseline g (targetWeightsX g) -> baseline g (targetWeightsY g) ->
  let g' := influence point g in
  n g' = n g /\ currentWeightsX g' = currentWeightsX g
  /\ currentWeightsY g' = currentWeightsY g
  /\ baseline g (targetWeightsX g') /\ baseline g (targetWeightsY g').
Proof.
  intros Bx By. unfold influence, baseline in *. cbv zeta.
  loop_inv (fun (k : nat) (g' : GridStretchManager) =>
              n g' = n g /\ currentWeightsX g' = currentWeightsX g
              /\ currentWeightsY g' = currentWeightsY g
              /\ forall j, (j < n g)%nat ->
                   1 <= at_ (targetWeightsX g') j /\ 1 <= at_ (targetWeightsY g') j).
  destruct F as (En & Ex & Ey & A).
  - repeat split; auto.
  - intros i g' _ (En & Ex & Ey & A). grid_simpl. repeat split; try assumption;
      rewrite at_assign; destruct (Nat.eqb_spec j i) as [-> | NE];
        try (apply A; assumption);
        match goal with |- 1 <= ?t + intensityOf point * Math_exp ?e =>
          pose proof (Qmult_le_0_compat _ _ (intensity_nonneg point) (Math_exp_nonneg e));
          destruct (A i ltac:(assumption)); lra
        end.
  - repeat split; try assumption; intros j Lj; apply A; exact Lj.
Qed.

Lemma influences_spec (interactions : list GridInteraction) (g : GridStretchManager) :
  baseline g (targetWeightsX g) -> baseline g (targetWeightsY g) ->
  let g' := fold_left (fun g point => influence point g) interactions g in
  n g' = n g /\ currentWeightsX g' = currentWeightsX g
  /\ currentWeightsY g' = currentWeightsY g
  /\ baseline g (targetWeightsX g') /\ baseline g (targetWeightsY g').
Proof.
  revert g. induction interactions as [| point rest IH]; intros g Bx By; cbn [fold_left].
  - repeat split; assumption.
  - destruct (influence_spec point g Bx By) as (En & Ex & Ey & Tx & Ty).
    assert (Tx' : baseline (influence point g) (targetWeightsX (influence point g))).
    { intros j Lj. apply Tx. now rewrite <- En. }
    assert (Ty' : baseline (influence point g) (targetWeightsY (influence point g))).
    { intros j Lj. apply Ty. now rewrite <- En. }
    destruct (IH (influence point g) Tx' Ty') as (En2 & Ex2 & Ey2 & Tx2 & Ty2).
    cbv zeta. repeat split; try congruence;
      intros j Lj; [apply Tx2 | apply Ty2]; now rewrite En.
Qed.

Lemma smooth_spec (g : GridStretchManager) :
  baseline g (currentWeightsX g) -> baseline g (currentWeightsY g) ->
  baseline g (targetWeightsX g) -> baseline g (targetWeightsY g) ->
  let g' := smooth g in
  n g' = n g /\ targetWeightsX g' = targetWeightsX g
  /\ targetWeightsY g' = targetWeightsY g
  /\ baseline g (currentWeightsX g') /\ baseline g (currentWeightsY g').
Proof.
  intros Cx Cy Tx Ty. unfold smooth, baseline in *. cbv zeta.
  loop_inv (fun (k : nat) (g' : GridStretchManager) =>
              n g' = n g /\ targetWeightsX g' = targetWeightsX g
              /\ targetWeightsY g' = targetWeightsY g
              /\ forall j, (j < n g)%nat ->
                   1 <= at_ (currentWeightsX g') j /\ 1 <= at_ (currentWeightsY g') j).
  destruct F as (En & Ex & Ey & A).
  - repeat split; auto.
  - intros i g' Li (En & Ex & Ey & A). grid_simpl. repeat split; try assumption;
      rewrite at_assign; destruct (Nat.eqb_spec j i) as [-> | NE];
        try (apply A; assumption);
        rewrite ?Ex, ?Ey; destruct (A i Li);
        pose proof (Tx i Li); pose proof (Ty i Li); lra.
  - repeat split; try assumption; intros j Lj; apply A; exact Lj.
Qed.

(** [update] keeps the number of slots, leaves every target weight at or
    above the baseline and keeps the current weights at or above it. *)
Lemma update_spec (interactions : list GridInteraction) (g : GridStretchManager) :
  baseline g (currentWeightsX g) -> baseline g (currentWeightsY g) ->
  let g' := update interactions g in
  n g' = n g
  /\ baseline g (targetWeightsX g') /\ baseline g (targetWeightsY g')
  /\ baseline g (currentWeightsX g') /\ baseline g (currentWeightsY g').
Proof.
  intros Cx Cy. unfold update. cbv zeta.
  destruct (resetTargets_spec g) as (En & Ex & Ey & Ox & Oy). cbv zeta in *.
  set (g1 := resetTargets g) in *.
  assert (B1x : baseline g1 (targetWeightsX g1)).
  { intros j Lj. rewrite Ox; [lra | now rewrite <- En]. }
  assert (B1y : baseline g1 (targetWeightsY g1)).
  { intros j Lj. rewrite Oy; [lra | now rewrite <- En]. }
  destruct (influences_spec interactions g1 B1x B1y) as (En2 & Ex2 & Ey2 & Tx2 & Ty2).
  cbv zeta in *.
  set (g2 := fold_left (fun g point => influence point g) interactions g1) in *.
  assert (N2 : n g2 = n g) by congruence.
  assert (C2x : baseline g2 (currentWeightsX g2)).
  { intros j Lj. rewrite Ex2, Ex. apply Cx. now rewrite <- N2. }
  assert (C2y : baseline g2 (currentWeightsY g2)).
  { intros j Lj. rewrite Ey2, Ey. apply Cy. now rewrite <- N2. }
  assert (T2x : baseline g2 (targetWeightsX g2)).
  { intros j Lj. apply Tx2. now rewrite <- En2. }
  assert (T2y : baseline g2 (targetWeightsY g2)).
  { intros j Lj. apply Ty2. now rewrite <- En2. }
  destruct (smooth_spec g2 C2x C2y T2x T2y) as (En3 & Ex3 & Ey3 & Cx3 & Cy3).
  cbv zeta in *. split; [congruence |].
  repeat split; intros j Lj;
    [rewrite Ex3; apply T2x | rewrite Ey3; apply T2y | apply Cx3 | apply Cy3];
    now rewrite N2.
Qed.

Lemma totalWeights_spec (g : GridStretchManager) :
  totalWeights g = (partial (currentWeightsX g) (n g), partial (currentWeightsY g) (n g)).
Proof.
  unfold totalWeights.
  loop_inv (fun (k : nat) (t : Q * Q) =>
              t = (partial (currentWeightsX g) k, partial (currentWeightsY g) k)).
  apply F; [reflexivity |].
  intros i [tx ty] _ E. injection E as -> ->. reflexivity.
Qed.

Lemma partial_ge (a : list Q) (k : nat) :
  (forall j, (j < k)%nat -> 1 <= at_ a j) -> inject_Z (Z.of_nat k) <= partial a k.
Proof.
  induction k as [| k IH]; intro B; [apply Qle_refl |].
  cbn [partial]. rewrite Nat2Z.inj_succ. unfold Z.succ. rewrite inject_Z_plus.
  specialize (IH (fun j L => B j (Nat.lt_lt_succ_r _ _ L))).
  pose proof (B k (Nat.lt_succ_diag_r k)). change (inject_Z 1) with 1. lra.
Qed.

Lemma partial_mono (a : list Q) (k m : nat) :
  (forall j, (j < m)%nat -> 1 <= at_ a j) -> (k <= m)%nat -> partial a k <= partial a m.
Proof.
  intros B L. induction L as [| m L IH]; [lra |].
  cbn [partial].
  specialize (IH (fun j Lj => B j (Nat.lt_lt_succ_r _ _ Lj))).
  pose proof (B m (Nat.lt_succ_diag_r m)). lra.
Qed.

Lemma colX_partial (g : GridStretchManager) (rect : Rect) (k : nat) :
  colX g rect k == rx rect + partial (currentWeightsX g) k * unitW g rect.
Proof.
  induction k as [| k IH]; cbn [colX partial]; [ring |].
  rewrite IH. unfold colW. ring.
Qed.

Lemma rowY_partial (g : GridStretchManager) (rect : Rect) (k : nat) :
  rowY g rect k == ry rect + partial (currentWeightsY g) k * unitH g rect.
Proof.
  induction k as [| k IH]; cbn [rowY partial]; [ring |].
  rewrite IH. unfold rowH. ring.
Qed.

Lemma sumQ_app (l1 l2 : list Q) : sumQ (l1 ++ l2) == sumQ l1 + sumQ l2.
Proof.
  unfold sumQ in *.
  induction l1 as [| q l1 IH]; cbn [app fold_right]; [ring |].
  rewrite IH. ring.
Qed.

Lemma sum_colW (g : GridStretchManager) (rect : Rect) (k : nat) :
  sumQ (map (colW g rect) (seq 0 k)) == partial (currentWeightsX g) k * unitW g rect.
Proof.
  induction k as [| k IH]; [cbn [seq map partial]; unfold sumQ; cbn [fold_right]; ring |].
  rewrite seq_S, map_app, sumQ_app, IH. unfold sumQ. cbn [partial map fold_right Nat.add].
  unfold colW. ring.
Qed.

Lemma sum_rowH (g : GridStretchManager) (rect : Rect) (k : nat) :
  sumQ (map (rowH g rect) (seq 0 k)) == partial (currentWeightsY g) k * unitH g rect.
Proof.
  induction k as [| k IH]; [cbn [seq map partial]; unfold sumQ; cbn [fold_right]; ring |].
  rewrite seq_S, map_app, sumQ_app, IH. unfold sumQ. cbn [partial map fold_right Nat.add].
  unfold rowH. ring.
Qed.

Lemma total_positive (a : list Q) (k : nat) :
  (0 < k)%nat -> (forall j, (j < k)%nat -> 1 <= at_ a j) -> 0 < partial a k.
Proof.
  intros L B. pose proof (partial_ge a k B) as G.
  assert (1 <= inject_Z (Z.of_nat k)).
  { change 1 with (inject_Z 1). rewrite <- Zle_Qle. lia. }
  lra.
Qed.

(** The widths of the columns add up to the width of the rect and the
    heights of the rows to its height. *)
Lemma widths_fill_rect (g : GridStretchManager) (rect : Rect) :
  (0 < n g)%nat -> baseline g (currentWeightsX g) -> baseline g (currentWeightsY g) ->
  sumQ (map (colW g rect) (seq 0 (n g))) == rw rect
  /\ sumQ (map (rowH g rect) (seq 0 (n g))) == rh rect.
Proof.
  intros L Bx By. rewrite sum_colW, sum_rowH. unfold unitW, unitH.
  rewrite totalWeights_spec. cbn [fst snd].
  pose proof (total_positive _ _ L Bx). pose proof (total_positive _ _ L By).
  split; field; lra.
Qed.

Lemma strokes_app (l1 l2 : list CanvasOp) : strokes (l1 ++ l2) = strokes l1 ++ strokes l2.
Proof. unfold strokes. apply flat_map_app. Qed.

(** The commands of [draw]: the clip frame around the cells, and the cells
    stroked column by column. *)
Lemma draw_spec (g : GridStretchManager) (image : Image) (rect : Rect)
    (offsetX offsetY drawW drawH : Q) :
  clippedTo rect (draw g image rect offsetX offsetY drawW drawH)
  /\ strokes (draw g image rect offsetX offsetY drawW drawH) = gridCells g rect.
Proof.
  unfold draw, clippedTo. cbv zeta.
  match goal with |- context [snd (for_ (n g) ?b (rx rect, []))] =>
    set (outer := b) end.
  assert (O : let r := for_ (n g) outer (rx rect, []) in
              fst r = colX g rect (n g)
              /\ strokes (snd r)
                 = flat_map (fun i => map (fun j => mkRect (colX g rect i) (rowY g rect j)
                                                      (colW g rect i) (rowH g rect j))
                                          (seq 0 (n g))) (seq 0 (n g))
              /\ forallb (fun op => negb (unclips op)) (snd r) = true).
  { cbv zeta.
    loop_inv (fun (k : nat) (r : Q * list CanvasOp) =>
                fst r = colX g rect k
                /\ strokes (snd r)
                   = flat_map (fun i => map (fun j => mkRect (colX g rect i) (rowY g rect j)
                                                        (colW g rect i) (rowH g rect j))
                                            (seq 0 (n g))) (seq 0 k)
                /\ forallb (fun op => negb (unclips op)) (snd r) = true).
    apply F; clear F; [repeat split |].
    intros i [dx ops] _ (Ex & Es & Ec). cbn [fst snd] in Ex, Es, Ec. subst dx.
    unfold outer. cbn [fst snd colX].
    split; [reflexivity |].
    match goal with |- context [snd (for_ (n g) ?b (ry rect, ops))] =>
      set (inner := b) end.
    assert (J : let r := for_ (n g) inner (ry rect, ops) in
                fst r = rowY g rect (n g)
                /\ strokes (snd r)
                   = strokes ops
                     ++ map (fun j => mkRect (colX g rect i) (rowY g rect j)
                                        (colW g rect i) (rowH g rect j)) (seq 0 (n g))
                /\ forallb (fun op => negb (unclips op)) (snd r) = true).
    { cbv zeta.
      loop_inv (fun (k : nat) (r : Q * list CanvasOp) =>
                  fst r = rowY g rect k
                  /\ strokes (snd r)
                     = strokes ops
                       ++ map (fun j => mkRect (colX g rect i) (rowY g rect j)
                                          (colW g rect i) (rowH g rect j)) (seq 0 k)
                  /\ forallb (fun op => negb (unclips op)) (snd r) = true).
      apply F; clear F.
      - repeat split; [cbn [seq map]; now rewrite app_nil_r | exact Ec].
      - intros j [dy ops'] _ (Ey & Es' & Ec'). cbn [fst snd] in Ey, Es', Ec'. subst dy.
        unfold inner. cbn [fst snd rowY]. split; [reflexivity | split].
        + rewrite strokes_app, Es', seq_S, map_app, <- app_assoc. reflexivity.
        + rewrite forallb_app, Ec'. reflexivity. }
    cbv zeta in J. destruct J as (_ & Js & Jc). split; [| exact Jc].
    rewrite Js, Es, seq_S, flat_map_app. cbn [flat_map Nat.add]. now rewrite app_nil_r. }
  cbv zeta in O. destruct O as (_ & Os & Oc). split.
  - eexists. split; [reflexivity | exact Oc].
  - rewrite strokes_app, strokes_app.
    change (strokes [Save; BeginPath; RectPath rect; Clip]) with (@nil Rect).
    change (strokes [Restore]) with (@nil Rect).
    cbn [app]. rewrite app_nil_r. exact Os.
Qed.

(** Every cell lies inside the rect. *)
Lemma cells_inside (g : GridStretchManager) (rect : Rect) (cell : Rect) :
  (0 < n g)%nat -> baseline g (currentWeightsX g) -> baseline g (currentWeightsY g) ->
  0 <= rw rect -> 0 <= rh rect ->
  In cell (gridCells g rect) -> inside cell rect.
Proof.
  intros L Bx By Wn Hn I. unfold gridCells in I.
  apply in_flat_map in I. destruct I as (i & Ii & I).
  apply in_map_iff in I. destruct I as (j & <- & Ij).
  apply in_seq in Ii. apply in_seq in Ij.
  pose proof (total_positive _ _ L Bx) as Tx. pose proof (total_positive _ _ L By) as Ty.
  assert (Ux : 0 <= unitW g rect).
  { unfold unitW. rewrite totalWeights_spec. cbn [fst].
    apply Qle_shift_div_l; [exact Tx | lra]. }
  assert (Uy : 0 <= unitH g rect).
  { unfold unitH. rewrite totalWeights_spec. cbn [snd].
    apply Qle_shift_div_l; [exact Ty | lra]. }
  assert (Fx : partial (currentWeightsX g) (n g) * unitW g rect == rw rect).
  { unfold unitW. rewrite totalWeights_spec. cbn [fst]. field. lra. }
  assert (Fy : partial (currentWeightsY g) (n g) * unitH g rect == rh rect).
  { unfold unitH. rewrite totalWeights_spec. cbn [snd]. field. lra. }
  assert (Px : 0 <= partial (currentWeightsX g) i).
  { pose proof (partial_ge (currentWeightsX g) i (fun k Lk => Bx k ltac:(lia))).
    assert (0 <= inject_Z (Z.of_nat i)) by (change 0 with (inject_Z 0); rewrite <- Zle_Qle; lia).
    lra. }
  assert (Py : 0 <= partial (currentWeightsY g) j).
  { pose proof (partial_ge (currentWeightsY g) j (fun k Lk => By k ltac:(lia))).
    assert (0 <= inject_Z (Z.of_nat j)) by (change 0 with (inject_Z 0); rewrite <- Zle_Qle; lia).
    lra. }
  pose proof (partial_mono (currentWeightsX g) (S i) (n g) Bx ltac:(lia)) as Mx.
  pose proof (partial_mono (currentWeightsY g) (S j) (n g) By ltac:(lia)) as My.
  pose proof (colX_partial g rect i) as Cx. pose proof (colX_partial g rect (S i)) as Cx'.
  pose proof (rowY_partial g rect j) as Cy. pose proof (rowY_partial g rect (S j)) as Cy'.
  cbn [colX] in Cx'. cbn [rowY] in Cy'.
  unfold inside. cbn [rx ry rw rh].
  repeat split.
  - rewrite Cx. nra.
  - rewrite Cx', <- Fx. nra.
  - rewrite Cy. nra.
  - rewrite Cy', <- Fy. nra.
Qed.

Lemma reachable_inv (g : GridStretchManager) :
  reachable g ->
  n g = 15%nat /\ baseline g (currentWeightsX g) /\ baseline g (currentWeightsY g).
Proof.
  induction 1 as [| g R (N & Bx & By) | interactions g R (N & Bx & By)].
  - rewrite new_spec. repeat split; intros j Lj; cbn [n] in Lj;
      do 15 (destruct j as [| j]; [cbn; lra |]); lia.
  - destruct (reset_spec g) as (En & Ox & Oy & _).
    split; [congruence |].
    split; intros j Lj; [rewrite Ox | rewrite Oy]; try lra; now rewrite <- En.
  - destruct (update_spec interactions g Bx By) as (En & _ & _ & Cx & Cy).
    cbv zeta in *. split; [congruence |].
    split; intros j Lj; [apply Cx | apply Cy]; now rewrite <- En.
Qed.

End GridFacts.

(** C7, as stated, fails in the arithmetic of the run-time: the column
    widths do not add up to the width of the rect exactly.  With the
    weights of a grid that was just reset and a rect 100 wide at x = 0, the
    fifteen widths add up to 100.00000000000001. *)
Lemma widths_miss_rect_in_floats :
  ~ (forall rectW : float,
        FloatGrid.endOfColumns FloatGrid.ones 0%float rectW = rectW).
Proof.
  intro A. specialize (A 100%float).
  assert (F : PrimFloat.eqb (FloatGrid.endOfColumns FloatGrid.ones 0%float 100%float)
                100%float = false) by (vm_compute; reflexivity).
  rewrite A in F. vm_compute in F. discriminate F.
Qed.

(** C7, amended.  For a grid manager the app can hold: after [reset] every
    weight of the grid equals 1; [update] leaves every target weight and
    every smoothed current weight at or above the baseline 1; in [draw],
    in exact arithmetic, the column widths add up to the width of the rect
    and the row heights to its height, the commands are wrapped in a clip
    to the rect, and the cells stroked are those of the grid, each of them
    inside the rect. *)
Theorem grid_stretch_stays_in_rect `{MathLib}
    (g : GridStretch.GridStretchManager)
    (interactions : list GridStretch.GridInteraction)
    (image : GridStretch.Image) (rect : Rect) (offsetX offsetY drawW drawH : Q) :
  reachable g ->
  (GridStretch.allOnes g (GridStretch.currentWeightsX (GridStretch.reset g))
   /\ GridStretch.allOnes g (GridStretch.currentWeightsY (GridStretch.reset g))
   /\ GridStretch.allOnes g (GridStretch.targetWeightsX (GridStretch.reset g))
   /\ GridStretch.allOnes g (GridStretch.targetWeightsY (GridStretch.reset g)))
  /\ (GridStretch.baseline g
        (GridStretch.targetWeightsX (GridStretch.update interactions g))
      /\ GridStretch.baseline g
           (GridStretch.targetWeightsY (GridStretch.update interactions g))
      /\ GridStretch.baseline g
           (GridStretch.currentWeightsX (GridStretch.update interactions g))
      /\ GridStretch.baseline g
           (GridStretch.currentWeightsY (GridStretch.update interactions g)))
  /\ (GridStretch.sumQ (map (GridStretch.colW g rect) (seq 0 (GridStretch.n g)))
        == rw rect
      /\ GridStretch.sumQ (map (GridStretch.rowH g rect) (seq 0 (GridStretch.n g)))
           == rh rect)
  /\ GridStretch.clippedTo rect
       (GridStretch.draw g image rect offsetX offsetY drawW drawH)
  /\ GridStretch.strokes (GridStretch.draw g image rect offsetX offsetY drawW drawH)
     = GridStretch.gridCells g rect
  /\ (0 <= rw rect -> 0 <= rh rect ->
      forall cell, In cell (GridStretch.gridCells g rect) ->
                   GridStretch.inside cell rect).
Proof.
  intro R. destruct (reachable_inv g R) as (N & Bx & By).
  assert (L : (0 < GridStretch.n g)%nat) by lia.
  split; [apply reset_spec |].
  split; [apply (update_spec interactions g Bx By) |].
  split; [apply (widths_fill_rect g rect L Bx By) |].
  destruct (draw_spec g image rect offsetX offsetY drawW drawH) as [C S].
  split; [exact C | split; [exact S |]].
  intros Wn Hn cell I. apply (cells_inside g rect cell L Bx By Wn Hn I).
Qed.

Lemma grid_stretch_stays_in_rect_witness :
  GridStretch.sumQ
    (map (GridStretch.colW
            (GridStretch.update (H := approxMath) [spreadInteraction] GridStretch.new)
            (mkRect 200 150 400 300)) (seq 0 15)) == 400.
Proof.
  destruct (grid_stretch_stays_in_rect (H := approxMath)
              (GridStretch.update (H := approxMath) [spreadInteraction] GridStretch.new)
              [] (GridStretch.mkImage 1 (Some 1280) (Some 720))
              (mkRect 200 150 400 300) 0 0 800 600) as (_ & _ & (W & _) & _).
  - apply reach_update, reach_new.
  - exact W.
Defined.

(** After one update with a spread pinch the middle column is wider than
    the outer ones. *)
Example spread_widens_the_middle :
  let g := GridStretch.update (H := approxMath) [spreadInteraction] GridStretch.new in
  Qltb (GridStretch.at_ (GridStretch.currentWeightsX g) 0)
       (GridStretch.at_ (GridStretch.currentWeightsX g) 7) = true.
Proof. vm_compute. reflexivity. Qed.

(** ** Dwell timers *)

(** The pointing test of the tear filter on the sample hands. *)
Example stretchedIndex_points :
  ARCanvas.pointing (H := approxMath) stretchedIndex = Some true
  /\ ARCanvas.pointing (H := approxMath) openHand = Some false.
Proof. split; vm_compute; reflexivity. Qed.

(** A finger held on the button clicks it once more than 600 ms have
    passed: not in the frames up to 600 ms, but in the frame at 700 ms. *)
Example steady_finger_clicks_after_dwell :
  snd (ARCanvas.run (H := approxMath) (steadyRun 6) emptyWorld) = []
  /\ snd (ARCanvas.run (H := approxMath) (steadyRun 7) emptyWorld) = [ARCanvas.Click 1].
Proof. split; vm_compute; reflexivity. Qed.

(** A hand that stops pointing restarts the timer: no click at 700 ms. *)
Example open_hand_restarts_dwell :
  snd (ARCanvas.run (H := approxMath) openHandRun emptyWorld) = [].
Proof. vm_compute. reflexivity. Qed.

(** C3.  The timer of the button click does not restart when the detector
    loses the hand.  The finger is on the button at 0 ms, no hand
    is detected at 300 ms, and in the frame at 700 ms, the first one in
    which the finger is back, the button is clicked. *)
Theorem button_dwell_survives_lost_hand :
  snd (ARCanvas.run (H := approxMath) lostHandRun emptyWorld) = [ARCanvas.Click 1]
  /\ ARCanvas.lastInteractRef
       (fst (ARCanvas.run (H := approxMath)
               [ARCanvas.HandsResults (Some [stretchedIndex]);
                ARCanvas.AfterRender (buttonPaint 0);
                ARCanvas.HandsResults None; ARCanvas.AfterRender (buttonPaint 300)]
               emptyWorld))
     = ARCanvas.mkInteract (Some 1%nat) 0.
Proof. split; vm_compute; reflexivity. Qed.

(** A timer whose gesture is absent restarts and does not fire. *)
Lemma dwell_absent (threshold : Z) (clock : Z * Z) (start : option Z) :
  dwell threshold false clock start = (None, false).
Proof. reflexivity. Qed.

(** A timer that fires was held, and measured more than the threshold
    since its start. *)
Lemma dwell_fired (threshold : Z) (held : bool) (clock : Z * Z) (start : option Z) :
  snd (dwell threshold held clock start) = true ->
  held = true
  /\ (threshold
      < snd clock - (if TimeSlice.unset start then fst clock else TimeSlice.startOf start))%Z.
Proof.
  unfold dwell. destruct held; [| discriminate].
  intro F. split; [reflexivity |].
  destruct (TimeSlice.unset start); cbv zeta in F;
    match type of F with context [(threshold <? ?e)%Z] =>
      destruct (Z.ltb_spec threshold e) as [L | L] end;
    try discriminate F; exact L.
Qed.

(** A timer that keeps running was held and keeps its start. *)
Lemma dwell_running (threshold : Z) (held : bool) (clock : Z * Z) (start : option Z) :
  TimeSlice.unset (fst (dwell threshold held clock start)) = false ->
  held = true
  /\ fst (dwell threshold held clock start)
     = (if TimeSlice.unset start then Some (fst clock) else start).
Proof.
  unfold dwell. destruct held; [| discriminate].
  intro F. split; [reflexivity |].
  destruct (TimeSlice.unset start); cbv zeta in *;
    match type of F with context [(threshold <? ?e)%Z] => destruct (threshold <? e)%Z end;
    try discriminate F; reflexivity.
Qed.

(** Over a sequence of frames: the action fires in frame [k] only if the
    gesture was held in all frames from some frame [j] on, for more than
    the threshold; or, when the timer was already running at the start,
    in all frames so far and for more than the threshold since then. *)
Lemma dwellRun_fired (threshold : Z) (frames : list (bool * (Z * Z)))
    (start : option Z) (k : nat) :
  nth k (dwellRun threshold frames start) false = true ->
  (exists j, heldLongEnough threshold frames j k)
  \/ (TimeSlice.unset start = false
      /\ (forall i, (i <= k)%nat -> fst (nth i frames (false, (0, 0)%Z)) = true)
      /\ (threshold
          < snd (snd (nth k frames (false, (0, 0)%Z))) - TimeSlice.startOf start)%Z).
Proof.
  revert start k. induction frames as [| [held clock] rest IH]; intros start k F.
  - destruct k; discriminate F.
  - cbn [dwellRun] in F.
    destruct (dwell threshold held clock start) as [start' fired] eqn:D.
    destruct k as [| k]; cbn [nth] in F.
    + subst fired.
      destruct (dwell_fired threshold held clock start) as [Hh L]; [now rewrite D |].
      destruct (TimeSlice.unset start) eqn:U.
      * left. exists O. repeat split; [lia | | exact L].
        intros i Li. replace i with O by lia. exact Hh.
      * right. repeat split; [| exact L].
        intros i Li. replace i with O by lia. exact Hh.
    + destruct (IH start' k F) as [(j & Lj & A & T) | (U' & A & T)].
      * left. exists (S j). repeat split; [lia | | exact T].
        intros i Li. destruct i as [| i]; [lia |]. apply A. lia.
      * assert (U'' : TimeSlice.unset (fst (dwell threshold held clock start)) = false)
          by (rewrite D; exact U').
        destruct (dwell_running threshold held clock start U'') as [Hh S'].
        rewrite D in S'. cbn [fst] in S'.
        assert (Al : forall i, (i <= S k)%nat ->
                       fst (nth i ((held, clock) :: rest) (false, (0, 0)%Z)) = true).
        { intros i Li. destruct i as [| i]; [exact Hh | apply A; lia]. }
        destruct (TimeSlice.unset start) eqn:U; subst start'.
        -- left. exists O. repeat split; [lia | intros i Li; apply Al; lia |].
           exact T.
        -- right. repeat split; assumption.
Qed.

Section TimerFacts.
Context `{MathLib}.
Import TimeSlice.

(** One well-formed frame is one step of each timer. *)
Lemma results_timers (f : Frame) (a : App) :
  wellFormed f = true ->
  let d := dwell 1500 (isResetGesture f) (resetClock f) (resetStartTimeRef a) in
  let d' := dwell 2000 (switchHeld f a) (switchClock f) (effectSwitchStartTimeRef a) in
  (firedReset f a = snd d /\ resetStartTimeRef (step (Results f) a) = fst d)
  /\ (firedSwitch f a = snd d'
      /\ effectSwitchStartTimeRef (step (Results f) a) = fst d').
Proof.
  intro W. cbv zeta.
  destruct (onResults_spec f a W)
    as (a1 & hs & ops & a2 & fired & a3 & switched & a4 & E1 & E2 & E3 & E4 & E5 & E).
  destruct (stateMachine_spec f (viewOf f (zoomLevelRef a))
              (set_handCountRef (handCount f) (resized f a)) W) as (a1' & E1' & S1 & _).
  rewrite E1 in E1'. injection E1' as <-. cbn [set_handCountRef stateRef resized] in S1.
  pose proof (stateMachine_keeps_timers f (viewOf f (zoomLevelRef a))
                (set_handCountRef (handCount f) (resized f a))) as T.
  cbv beta in T. rewrite E1 in T. cbn [snd] in T. unfold timersOf in T.
  cbn [set_handCountRef resized effectModeRef resetStartTimeRef
       effectSwitchStartTimeRef zoomLevelRef] in T.
  injection T as T1 T2 T3 T4.
  pose proof (render_keeps_core f (viewOf f (zoomLevelRef a)) hs a1) as K.
  cbv beta in K. rewrite E3 in K. cbn [snd] in K. unfold coreOf in K.
  injection K as K1 K2 K3 K4 K5 K6 K7.
  destruct (resetLogic_spec f a2) as (a3' & E4' & R & N & Y).
  rewrite E4 in E4'. injection E4' as F <-.
  rewrite K4, T2 in F, R, N, Y.
  pose proof (effectSwitchLogic_keeps_selection f a3) as L.
  cbv beta in L. rewrite E5 in L. cbn [snd] in L. unfold selectionOf in L.
  injection L as L1 L2 L3 L4 L5.
  destruct (effectSwitchLogic_spec f a3) as (a4' & E5' & Sw & _).
  rewrite E5 in E5'. injection E5' as Fs <-.
  assert (FR : firedReset f a = fired) by (unfold firedReset; now rewrite E).
  assert (FS : firedSwitch f a = match switched with Some _ => true | None => false end)
    by (unfold firedSwitch; now rewrite E).
  cbn [step]. rewrite E. cbn [snd].
  split; [split; [congruence | congruence] |].
  unfold switchHeld. rewrite FR, FS, Sw, Fs.
  destruct fired.
  - destruct (Y (eq_sym F)) as (Y1 & _ & _ & Y4 & _).
    rewrite Y1. cbn [eqState andb negb dwell snd fst]. split; reflexivity.
  - rewrite (N (eq_sym F)).
    cbn [set_resetStartTimeRef stateRef effectSwitchStartTimeRef negb andb].
    rewrite K1, K5, S1, T3.
    match goal with |- context [dwell 2000 ?h ?c ?s] => destruct (dwell 2000 h c s) as [s' [|]] end;
      split; reflexivity.
Qed.

Lemma resetFlags_dwell (es : list Event) (a : App) :
  forallb wellFormedEvent es = true ->
  resetFlags es a = dwellRun 1500 (resetInputs es) (resetStartTimeRef a).
Proof.
  revert a. induction es as [| e es IH]; intros a W; [reflexivity |].
  cbn [forallb] in W. apply andb_prop in W. destruct W as [We W].
  unfold resetInputs in *. cbn [flat_map].
  destruct e as [f | | zoom]; cbn [resetFlags app dwellRun].
  - destruct (results_timers f a We) as [[F S] _].
    destruct (dwell 1500 (isResetGesture f) (resetClock f) (resetStartTimeRef a))
      as [start' fired] eqn:D.
    cbn [fst snd] in F, S. rewrite F, (IH _ W), S. reflexivity.
  - cbn [dwell]. rewrite (IH _ W). reflexivity.
  - rewrite (IH _ W). reflexivity.
Qed.

Lemma switchFlags_dwell (es : list Event) (a : App) :
  forallb wellFormedEvent es = true ->
  switchFlags es a = dwellRun 2000 (switchInputs es a) (effectSwitchStartTimeRef a).
Proof.
  revert a. induction es as [| e es IH]; intros a W; [reflexivity |].
  cbn [forallb] in W. apply andb_prop in W. destruct W as [We W].
  destruct e as [f | | zoom]; cbn [switchFlags switchInputs dwellRun].
  - destruct (results_timers f a We) as [_ [F S]].
    destruct (dwell 2000 (switchHeld f a) (switchClock f) (effectSwitchStartTimeRef a))
      as [start' fired] eqn:D.
    cbn [fst snd] in F, S. rewrite F, (IH _ W), S. reflexivity.
  - cbn [dwell]. rewrite (IH _ W). reflexivity.
  - rewrite (IH _ W). reflexivity.
Qed.

(** The reset and the effect switch of the time-slice camera: along any run
    of well-formed frames that starts with both timers stopped, the reset
    fires in an event only if two fists were shown in every frame since
    some frame more than 1500 ms before, and the effect switches only if
    the victory sign was shown to the frozen app in every frame since some
    frame more than 2000 ms before; a frame without the gesture stops the
    timer and fires nothing. *)
Lemma fists_and_victory_need_dwell (es : list Event) (a : App) (k : nat) :
  forallb wellFormedEvent es = true ->
  resetStartTimeRef a = None -> effectSwitchStartTimeRef a = None ->
  (nth k (resetFlags es a) false = true ->
   exists j, heldLongEnough 1500 (resetInputs es) j k)
  /\ (nth k (switchFlags es a) false = true ->
      exists j, heldLongEnough 2000 (switchInputs es a) j k)
  /\ (forall clock start, dwell 1500 false clock start = (None, false))
  /\ (forall clock start, dwell 2000 false clock start = (None, false)).
Proof.
  intros W R S. repeat split.
  - rewrite (resetFlags_dwell es a W), R. intro F.
    destruct (dwellRun_fired 1500 _ None k F) as [J | (U & _)];
      [exact J | discriminate U].
  - rewrite (switchFlags_dwell es a W), S. intro F.
    destruct (dwellRun_fired 2000 _ None k F) as [J | (U & _)];
      [exact J | discriminate U].
Qed.

End TimerFacts.

(** Two fists shown from 1000 ms on and seen every 500 ms: the reset fires in
    the frame at 3000 ms and in no frame before. *)
Example fists_reset_after_dwell :
  resetFlags (H := approxMath) fistRun TimeSlice.initial
  = [false; false; false; false; true].
Proof. vm_compute. reflexivity. Qed.

(** * Further properties of the handlers *)

(** ** The sliders and buttons of the tear filter *)

Lemma Math_round_near (a : Q) : a - (1 # 2) < Math_round a /\ Math_round a <= a + (1 # 2).
Proof.
  unfold Math_round. split.
  - pose proof (Qlt_floor (a + (1 # 2))) as L.
    rewrite inject_Z_plus in L. change (inject_Z 1) with 1 in L. lra.
  - apply Qfloor_le.
Qed.

Lemma clamp_unit (a : Q) :
  0 <= Math_max 0 (Math_min 1 a) /\ Math_max 0 (Math_min 1 a) <= 1.
Proof.
  unfold Math_max, Math_min.
  destruct (Qltb a 1) eqn:A; [apply Qltb_lt in A | apply Qltb_ge in A];
    match goal with |- context [Qltb 0 ?b] => destruct (Qltb 0 b) eqn:B end;
    try apply Qltb_lt in B; try apply Qltb_ge in B; lra.
Qed.

(** X3.  A finger on a range input sets the value to a whole multiple of
    the input's step that lies within half a step of the interval from
    [min] to [max], wherever the finger is: the position along the input
    is clamped to the input before it is scaled and rounded. *)
Theorem slider_snaps_to_step (inp : ARCanvas.RangeInput) (screenPos : Point) :
  0 < ARCanvas.rectWidth inp -> 0 < ARCanvas.rectHeight inp ->
  0 < ARCanvas.inputStep inp ->
  ARCanvas.inputMin inp <= ARCanvas.inputMax inp ->
  (exists k : Z,
      ARCanvas.sliderValue inp screenPos = inject_Z k * ARCanvas.inputStep inp)
  /\ ARCanvas.inputMin inp - (1 # 2) * ARCanvas.inputStep inp
     < ARCanvas.sliderValue inp screenPos
  /\ ARCanvas.sliderValue inp screenPos
     <= ARCanvas.inputMax inp + (1 # 2) * ARCanvas.inputStep inp.
Proof.
  intros _ _ St Mm. unfold ARCanvas.sliderValue.
  match goal with |- context [Math_max 0 (Math_min 1 ?a)] =>
    destruct (clamp_unit a) as [P0 P1]; set (percent := Math_max 0 (Math_min 1 a)) in * end.
  set (lo := ARCanvas.inputMin inp) in *. set (hi := ARCanvas.inputMax inp) in *.
  set (step := ARCanvas.inputStep inp) in *.
  clearbody percent lo hi step.
  set (newVal := lo + (hi - lo) * percent).
  assert (N0 : lo <= newVal).
  { assert (0 <= (hi - lo) * percent) by (apply Qmult_le_0_compat; lra).
    unfold newVal. lra. }
  assert (N1 : newVal <= hi).
  { assert (P : 0 <= (hi - lo) * (1 - percent)) by (apply Qmult_le_0_compat; lra).
    assert (E : (hi - lo) * (1 - percent) == hi - lo - (hi - lo) * percent) by ring.
    unfold newVal. lra. }
  clearbody newVal.
  destruct (Math_round_near (newVal / step)) as [R0 R1].
  split; [eexists; reflexivity |].
  assert (E : newVal / step * step == newVal) by (field; lra).
  split.
  - assert (L : (newVal / step - (1 # 2)) * step < Math_round (newVal / step) * step)
      by (apply Qmult_lt_compat_r; assumption).
    assert (E' : (newVal / step - (1 # 2)) * step == newVal / step * step - (1 # 2) * step)
      by ring.
    lra.
  - assert (L : Math_round (newVal / step) * step <= (newVal / step + (1 # 2)) * step)
      by (apply Qmult_le_compat_r; [assumption | lra]).
    assert (E' : (newVal / step + (1 # 2)) * step == newVal / step * step + (1 # 2) * step)
      by ring.
    lra.
Qed.

Lemma slider_snaps_to_step_witness :
  ARCanvas.sliderValue sizeSlider (mkPoint 163 50) == 40
  /\ ARCanvas.sliderValue sizeSlider (mkPoint 900 50) <= 100 + (1 # 2) * 5.
Proof.
  destruct (slider_snaps_to_step sizeSlider (mkPoint 900 50)) as (_ & _ & B);
    try (cbn; lra).
  split; [vm_compute; reflexivity | exact B].
Defined.

Lemma spaced_tail (gap a : Q) (l : list Q) : spaced gap (a :: l) -> spaced gap l.
Proof. destruct l as [| b l]; [trivial | intros [_ S]; exact S]. Qed.

Lemma last_cons (x c d : Q) (l : list Q) : last (x :: l) c = last (x :: l) d.
Proof.
  revert x. induction l as [| b l IH]; intro x; [reflexivity |].
  change (last (b :: l) c = last (b :: l) d). apply IH.
Qed.

Lemma last_cons_head (x c : Q) (l : list Q) : last (x :: l) c = last l x.
Proof.
  destruct l as [| b l]; [reflexivity |].
  change (last (b :: l) c = last (b :: l) x). apply last_cons.
Qed.

Lemma last_app_last (c : Q) (l1 l2 : list Q) :
  last (l1 ++ l2) c = last l2 (last l1 c).
Proof.
  revert c. induction l1 as [| a l1 IH]; intro c; [reflexivity |].
  cbn [app]. rewrite !last_cons_head. apply IH.
Qed.

Lemma spaced_app (gap c : Q) (l1 l2 : list Q) :
  spaced gap (c :: l1) -> spaced gap (last l1 c :: l2) -> spaced gap (c :: l1 ++ l2).
Proof.
  revert c. induction l1 as [| a l1 IH]; intros c S1 S2.
  - exact S2.
  - destruct S1 as [G S1]. cbn [app]. split; [exact G |].
    apply IH; [exact S1 |].
    rewrite <- (last_cons_head a c l1). exact S2.
Qed.

Lemma spaced_weaken (gap c c' : Q) (l : list Q) :
  c' <= c -> spaced gap (c :: l) -> spaced gap (c' :: l).
Proof.
  intros L S. destruct l as [| b l]; [trivial |].
  destruct S as [G S]. split; [lra | exact S].
Qed.

Section ClickFacts.
Context `{MathLib}.
Import ARCanvas.

(** One hand: a click is more than 600 ms after the clock reading [c] that
    the recorded start does not precede, and what is recorded afterwards
    does not precede the click. *)
Lemma handInteract_clicks (w : World) (p : Paint) (st st' : Interact)
    (hand : NormalizedLandmarkList) (acts : list Action) (c : Q) :
  c <= startTime st -> c <= paintNow p ->
  handInteract w p st hand = Some (st', acts) ->
  spaced 600 (c :: clicksAt (paintNow p) acts)
  /\ last (clicksAt (paintNow p) acts) c <= startTime st'
  /\ last (clicksAt (paintNow p) acts) c <= paintNow p.
Proof.
  intros C0 C1 E. unfold handInteract in E.
  destruct (nth_error hand INDEX_FINGER_TIP) as [tip |];
    [| injection E as <- <-; cbn; auto].
  destruct (pointing hand) as [[|] |]; try discriminate E;
    [| injection E as <- <-; cbn; auto].
  destruct (elementFromPoint p _ _) as [el |]; [| injection E as <- <-; cbn; auto].
  set (changes := match rangeInput el with Some _ => _ | None => _ end) in E.
  assert (NC : filter isClick changes = []).
  { unfold changes. destruct (rangeInput el) as [inputEl |]; [| reflexivity].
    destruct (settingKey inputEl); reflexivity. }
  assert (NC' : clicksAt (paintNow p) changes = []) by (unfold clicksAt; now rewrite NC).
  destruct (button el) as [btnEl |]; [| injection E as <- <-; rewrite NC'; cbn; auto].
  destruct (negb (sameElement (element st) btnEl));
    [injection E as <- <-; rewrite NC'; cbn; auto |].
  destruct (Qgtb (paintNow p - startTime st) DWELL_TIME) eqn:G;
    [| injection E as <- <-; rewrite NC'; cbn; auto].
  injection E as <- <-.
  unfold clicksAt. rewrite filter_app, NC. cbn.
  apply Qltb_lt in G. unfold DWELL_TIME in G. repeat split; lra.
Qed.

Lemma forEachHand_clicks (w : World) (p : Paint) (hands : list NormalizedLandmarkList)
    (st : Interact) (c : Q) :
  c <= startTime st -> c <= paintNow p ->
  let r := forEachHand w p st hands in
  spaced 600 (c :: clicksAt (paintNow p) (snd r))
  /\ last (clicksAt (paintNow p) (snd r)) c <= startTime (fst r)
  /\ last (clicksAt (paintNow p) (snd r)) c <= paintNow p.
Proof.
  revert st c. induction hands as [| hand rest IH]; intros st c C0 C1; cbn [forEachHand].
  - cbn. auto.
  - destruct (handInteract w p st hand) as [[st1 acts] |] eqn:E; [| cbn; auto].
    destruct (handInteract_clicks w p st st1 hand acts c C0 C1 E) as (S1 & L1 & N1).
    specialize (IH st1 (last (clicksAt (paintNow p) acts) c) L1 N1). cbv zeta in IH.
    destruct (forEachHand w p st1 rest) as [st2 acts2]. cbn [fst snd] in *.
    destruct IH as (S2 & L2 & N2).
    unfold clicksAt in *. rewrite filter_app, map_app.
    split; [apply spaced_app; assumption |].
    rewrite last_app_last. exact (conj L2 N2).
Qed.

End ClickFacts.

Lemma nondecreasing_Forall (a : Q) (l : list Q) :
  nondecreasing (a :: l) -> Forall (fun t => a <= t) l /\ nondecreasing l.
Proof.
  revert a. induction l as [| b l IH]; intros a N; [split; [constructor | exact I] |].
  destruct N as [L N]. split; [| exact N].
  constructor; [exact L |].
  destruct (IH b N) as [F _].
  apply (Forall_impl _ (P := fun t => b <= t)); [intros t Lt; lra | exact F].
Qed.

Lemma clickTimes_spaced `{MathLib} (frames : list (ARCanvas.Paint * ARCanvas.World))
    (st : ARCanvas.Interact) (c : Q) :
  c <= ARCanvas.startTime st ->
  Forall (fun t => c <= t) (map (fun f => ARCanvas.paintNow (fst f)) frames) ->
  nondecreasing (map (fun f => ARCanvas.paintNow (fst f)) frames) ->
  spaced 600 (c :: clickTimes frames st).
Proof.
  revert st c. induction frames as [| [p w] rest IH]; intros st c C0 F N.
  - exact I.
  - cbn [map fst] in F, N. cbn [clickTimes].
    inversion F as [| ? ? C1 F']; subst.
    destruct (nondecreasing_Forall _ _ N) as [Later N'].
    assert (R : exists st1 acts,
               ARCanvas.afterRender p (ARCanvas.set_lastInteract st w)
               = (ARCanvas.set_lastInteract st1 w, acts)
               /\ spaced 600 (c :: clicksAt (ARCanvas.paintNow p) acts)
               /\ last (clicksAt (ARCanvas.paintNow p) acts) c <= ARCanvas.startTime st1
               /\ last (clicksAt (ARCanvas.paintNow p) acts) c <= ARCanvas.paintNow p).
    { unfold ARCanvas.afterRender.
      cbn [ARCanvas.set_lastInteract ARCanvas.handLandmarksRef ARCanvas.isCameraOnRef
           ARCanvas.lastInteractRef].
      destruct (ARCanvas.handLandmarksRef w) as [hands |];
        [| exists st, []; cbn; auto].
      destruct (ARCanvas.isCameraOnRef w); [| exists st, []; cbn; auto].
      pose proof (forEachHand_clicks (ARCanvas.set_lastInteract st w) p hands st c C0 C1)
        as G.
      cbv zeta in G.
      destruct (ARCanvas.forEachHand (ARCanvas.set_lastInteract st w) p st hands)
        as [st1 acts].
      exists st1, acts. split; [reflexivity | exact G]. }
    destruct R as (st1 & acts & -> & S1 & L1 & N1).
    cbn [ARCanvas.set_lastInteract ARCanvas.lastInteractRef].
    apply spaced_app; [exact S1 |].
    apply IH; [exact L1 | | exact N'].
    apply (Forall_impl _ (P := fun t => ARCanvas.paintNow p <= t));
      [intros t Lt; lra | exact Later].
Qed.

(** X4.  Clicks by dwelling are more than 600 ms apart.  Over any sequence
    of rendered frames whose clock readings never decrease, with any
    number of hands in each frame and whatever else happens in between,
    the clock readings of two frames that click a button, the same button
    or not, differ by more than 600 ms. *)
Theorem clicks_are_spaced `{MathLib} (frames : list (ARCanvas.Paint * ARCanvas.World))
    (st : ARCanvas.Interact) :
  nondecreasing (map (fun f => ARCanvas.paintNow (fst f)) frames) ->
  spaced 600 (clickTimes frames st).
Proof.
  intro N. destruct frames as [| [p w] rest]; [exact I |].
  set (c := Math_min (ARCanvas.startTime st) (ARCanvas.paintNow p)).
  assert (C : c <= ARCanvas.startTime st /\ c <= ARCanvas.paintNow p).
  { unfold c, Math_min.
    destruct (Qltb (ARCanvas.paintNow p) (ARCanvas.startTime st)) eqn:E;
      [apply Qltb_lt in E | apply Qltb_ge in E]; lra. }
  destruct C as [C0 C1].
  apply (spaced_tail 600 c), clickTimes_spaced; [exact C0 | | exact N].
  cbn [map fst] in *. constructor; [exact C1 |].
  destruct (nondecreasing_Forall _ _ N) as [Later _].
  apply (Forall_impl _ (P := fun t => ARCanvas.paintNow p <= t));
    [intros t Lt; lra | exact Later].
Qed.

Lemma clicks_are_spaced_witness :
  clickTimes (H := approxMath) heldFrames (ARCanvas.mkInteract None 0) = [700; 2400]
  /\ spaced 600 (clickTimes (H := approxMath) heldFrames (ARCanvas.mkInteract None 0)).
Proof.
  split; [vm_compute; reflexivity |].
  apply (clicks_are_spaced (H := approxMath)). cbn. repeat split; lra.
Defined.

(** ** The rewind of the tear filter *)

Ltac tear_cbn :=
  cbn [ARCanvas.position ARCanvas.velocity ARCanvas.plugin ARCanvas.progress
       ARCanvas.state ARCanvas.side ARCanvas.pathOffset ARCanvas.isSensor
       ARCanvas.isStatic ARCanvas.id ARCanvas.rewindStartTime ARCanvas.origin
       ARCanvas.setVelocity ARCanvas.set_isSensor ARCanvas.set_state
       ARCanvas.set_progress ARCanvas.setAngularVelocity ARCanvas.setPosition
       ARCanvas.set_restitution ARCanvas.set_frictionAir ARCanvas.set_rewindStartTime
       ARCanvas.applyForce] in *.

Section RewindFacts.
Import ARCanvas.

Lemma insertDesc_Forall (P : TearBody -> Prop) (b : TearBody) (l : list TearBody) :
  P b -> Forall P l -> Forall P (insertDesc b l).
Proof.
  intros Pb. induction l as [| c rest IH]; intro F; cbn [insertDesc].
  - constructor; [exact Pb | constructor].
  - destruct (id c <? id b)%nat.
    + constructor; [exact Pb | exact F].
    + inversion F; subst. constructor; [assumption | now apply IH].
Qed.

Lemma insertDesc_In (b x : TearBody) (l : list TearBody) :
  In x (insertDesc b l) <-> x = b \/ In x l.
Proof.
  induction l as [| c rest IH]; cbn [insertDesc].
  - cbn. intuition.
  - destruct (id c <? id b)%nat; cbn [In]; [intuition |].
    rewrite IH. intuition.
Qed.

Lemma insertDesc_descending (b : TearBody) (l : list TearBody) :
  descending l -> ~ In (id b) (map id l) -> descending (insertDesc b l).
Proof.
  induction l as [| c rest IH]; intros D N; cbn [insertDesc].
  - split; [constructor | exact I].
  - destruct D as [F D]. cbn [map In] in N.
    destruct (id c <? id b)%nat eqn:E.
    + apply Nat.ltb_lt in E. split; [| split; assumption].
      constructor; [exact E |].
      apply (Forall_impl _ (P := fun d => (id d < id c)%nat)); [intros; lia | exact F].
    + apply Nat.ltb_ge in E. split.
      * apply insertDesc_Forall; [| exact F].
        assert (id c <> id b) by tauto. lia.
      * apply IH; [exact D | tauto].
Qed.

Lemma insertDesc_newer (i : nat) (b : TearBody) (l : list TearBody) :
  newer i (insertDesc b l) = newer i (b :: l).
Proof.
  unfold newer. induction l as [| c rest IH]; cbn [insertDesc]; [reflexivity |].
  destruct (id c <? id b)%nat; [reflexivity |].
  cbn [filter] in *.
  destruct (i <? id c)%nat, (i <? id b)%nat; cbn [length] in *; lia.
Qed.

Lemma sortDesc_spec (l : list TearBody) :
  NoDup (map id l) ->
  descending (sortDesc l)
  /\ (forall x, In x (sortDesc l) <-> In x l)
  /\ (forall i, newer i (sortDesc l) = newer i l).
Proof.
  unfold sortDesc. induction l as [| b l IH]; intro N; cbn [fold_right].
  - repeat split; intuition.
  - cbn [map] in N. inversion N as [| ? ? NI N']; subst.
    destruct (IH N') as (D & M & R). repeat split.
    + apply insertDesc_descending; [exact D |].
      intro I. apply NI. apply in_map_iff in I. destruct I as (x & E & I).
      apply in_map_iff. exists x. split; [exact E | now apply M].
    + rewrite insertDesc_In, M. cbn. intuition.
    + rewrite insertDesc_In, M. cbn. intuition.
    + intro i. rewrite insertDesc_newer. unfold newer in *. cbn [filter].
      destruct (i <? id b)%nat; cbn [length]; now rewrite R.
Qed.

(** In a descending list the place of a body is the number of bodies with
    a greater id. *)
Lemma indexOf_descending (i : nat) (l : list TearBody) :
  descending l -> In i (map id l) -> indexOf i l = Some (newer i l).
Proof.
  unfold newer. induction l as [| c rest IH]; intros D I; [destruct I |].
  destruct D as [F D]. cbn [indexOf filter].
  destruct (Nat.eqb_spec (id c) i) as [E | NE].
  - subst i. rewrite Nat.ltb_irrefl.
    replace (filter (fun d => (id c <? id d)%nat) rest) with (@nil TearBody);
      [reflexivity |].
    symmetry. clear - F. induction F as [| d rest L _ IH]; [reflexivity |].
    cbn [filter]. rewrite (proj2 (Nat.ltb_ge _ _)) by lia. exact IH.
  - cbn [map In] in I. destruct I as [E | I]; [congruence |].
    rewrite (IH D I). cbn [option_map].
    assert (L : (i < id c)%nat).
    { apply in_map_iff in I. destruct I as (d & <- & I).
      apply (proj1 (Forall_forall _ _) F d I). }
    rewrite (proj2 (Nat.ltb_lt _ _) L). reflexivity.
Qed.

Lemma NoDup_map_filter (f : TearBody -> bool) (l : list TearBody) :
  NoDup (map id l) -> NoDup (map id (filter f l)).
Proof.
  induction l as [| b l IH]; intro N; [constructor |].
  cbn [map] in N. inversion N as [| ? ? NI N']; subst. cbn [filter].
  destruct (f b); [| now apply IH].
  cbn [map]. constructor; [| now apply IH].
  intro I. apply NI. apply in_map_iff in I. destruct I as (x & E & I).
  apply in_map_iff. exists x. split; [exact E |]. apply filter_In in I. tauto.
Qed.

End RewindFacts.

(** X5.  The rewind is staggered, newest tear first.  When the bodies of
    the world have distinct ids, the rewind trigger puts every tear into
    the rewinding state, makes it a sensor without air friction, stops it,
    and sets its start 60 ms later for every tear of the world that is
    newer than it: the newest tear starts at once, each older one 60 ms
    after the next newer one. *)
Theorem rewind_is_staggered (now : Z) (w : ARCanvas.World) (b : ARCanvas.TearBody) :
  NoDup (map ARCanvas.id (ARCanvas.bodies w)) ->
  In b (ARCanvas.bodies w) -> ARCanvas.isStatic b = false ->
  exists b',
    In b' (ARCanvas.bodies (ARCanvas.onRewind now w))
    /\ ARCanvas.id b' = ARCanvas.id b
    /\ ARCanvas.state (ARCanvas.plugin b') = ARCanvas.rewinding
    /\ ARCanvas.rewindStartTime (ARCanvas.plugin b')
       = Some (now + Z.of_nat (newerTears (ARCanvas.id b) (ARCanvas.bodies w)) * 60)%Z
    /\ ARCanvas.isSensor b' = true
    /\ ARCanvas.frictionAir b' = 0
    /\ ARCanvas.velocity b' = mkPoint 0 0.
Proof.
  intros N I S. unfold ARCanvas.onRewind. cbn [ARCanvas.set_bodies ARCanvas.bodies].
  set (tears := ARCanvas.sortDesc _).
  destruct (sortDesc_spec (filter (fun b => negb (ARCanvas.isStatic b)) (ARCanvas.bodies w))
              (NoDup_map_filter _ _ N)) as (D & M & R).
  fold tears in D, M, R.
  assert (T : In b tears).
  { apply M, filter_In. split; [exact I | now rewrite S]. }
  assert (E : ARCanvas.indexOf (ARCanvas.id b) tears
              = Some (newerTears (ARCanvas.id b) (ARCanvas.bodies w))).
  { unfold newerTears. rewrite <- R. apply indexOf_descending; [exact D |].
    now apply in_map. }
  eexists. split.
  - apply in_map_iff. exists b. split; [reflexivity | exact I].
  - rewrite S, E. repeat split.
Qed.

Lemma rewind_is_staggered_witness :
  exists b',
    In b' (ARCanvas.bodies (ARCanvas.onRewind 1000 threeTears))
    /\ ARCanvas.id b' = 5%nat
    /\ ARCanvas.rewindStartTime (ARCanvas.plugin b') = Some 1060%Z.
Proof.
  destruct (rewind_is_staggered 1000 threeTears (tearWithId 5))
    as (b' & I & E & _ & T & _).
  - cbn. repeat constructor; cbn; intuition discriminate.
  - cbn. tauto.
  - reflexivity.
  - exists b'. split; [exact I | split; [exact E | exact T]].
Defined.

Section TearLife.
Context `{MathLib}.
Import ARCanvas.

(** One frame of a rewinding tear that has waited long enough and whose
    path is on the face: the progress goes down by [0.04 * speed], and the
    tear is removed once it is used up. *)
Lemma rewinding_frame (w : World) (now : Z) (rnd : nat -> Q * Q) (pts : list Point)
    (body : TearBody) :
  isStatic body = false -> state (plugin body) = rewinding ->
  started body now -> facePath w (side (plugin body)) <> None ->
  progress (plugin body) < 1 ->
  let t := progress (plugin body) - (4 # 100) * speed (settingsRef w) in
  (t <= 0 -> tearStep w now rnd pts body = None)
  /\ (0 < t ->
      exists body',
        tearStep w now rnd pts body = Some body'
        /\ isStatic body' = false /\ state (plugin body') = rewinding
        /\ side (plugin body') = side (plugin body)
        /\ rewindStartTime (plugin body') = rewindStartTime (plugin body)
        /\ progress (plugin body') = t).
Proof.
  intros S T W F P. cbv zeta. unfold tearStep. rewrite S.
  cbn [set_restitution plugin]. rewrite T. unfold rewindStep. tear_cbn.
  assert (NW : match rewindStartTime (plugin body) with
               | Some t => negb (t =? 0)%Z && (now <? t)%Z
               | None => false
               end = false).
  { unfold started in W. destruct (rewindStartTime (plugin body)) as [t |]; [| reflexivity].
    rewrite (proj2 (Z.ltb_ge _ _) W). apply andb_false_r. }
  rewrite NW.
  destruct (facePath w (side (plugin body))) as [[[p0Raw p1Raw] p2Raw] |]; [| tauto].
  assert (G : Qgeb (progress (plugin body)) 1 = false).
  { unfold Qgeb. destruct (Qle_bool 1 (progress (plugin body))) eqn:E; [| reflexivity].
    apply Qle_bool_iff in E. lra. }
  rewrite G. unfold Qleb. split; intro L.
  - rewrite (proj2 (Qle_bool_iff _ _) L). reflexivity.
  - destruct (Qle_bool _ 0) eqn:E; [apply Qle_bool_iff in E; lra |].
    eexists. split; [reflexivity |]. tear_cbn. repeat split; assumption.
Qed.

Lemma rewinding_frames (frames : list (World * Z)) (rnd : nat -> Q * Q)
    (sd : Side) (start : option Z) (s : Q) (body : TearBody) :
  frames <> [] -> 0 < s ->
  isStatic body = false -> state (plugin body) = rewinding ->
  side (plugin body) = sd -> rewindStartTime (plugin body) = start ->
  Forall (fun f => facePath (fst f) sd <> None /\ s <= speed (settingsRef (fst f))
                   /\ match start with Some t => (t <= snd f)%Z | None => True end)
         frames ->
  progress (plugin body) < 1 ->
  progress (plugin body) <= inject_Z (Z.of_nat (length frames)) * ((4 # 100) * s) ->
  tearFrames frames rnd body = None.
Proof.
  intros NE Sp. revert body NE.
  induction frames as [| [w now] rest IH]; intros body NE S T Sd St F P B;
    [congruence |].
  inversion F as [| ? ? (Fp & Fs & Fw) F']; subst. cbn [fst snd] in *.
  cbn [tearFrames].
  assert (W : started body now) by (unfold started; destruct (rewindStartTime _); auto).
  destruct (rewinding_frame w now rnd (repulsionPoints w) body S T W Fp P) as [Gone Stay].
  cbv zeta in Gone, Stay.
  set (t := progress (plugin body) - (4 # 100) * speed (settingsRef w)) in *.
  destruct (Qlt_le_dec 0 t) as [L | L]; [| now rewrite (Gone L)].
  destruct (Stay L) as (body' & -> & S' & T' & Sd' & St' & P').
  assert (D : t <= progress (plugin body) - (4 # 100) * s) by (unfold t; lra).
  destruct rest as [| f rest'].
  - exfalso. cbn [length] in B. change (inject_Z (Z.of_nat 1)) with 1 in B. lra.
  - apply IH; try assumption; try congruence.
    + rewrite P'. lra.
    + rewrite P'. cbn [length] in *.
      rewrite Nat2Z.inj_succ, <- Z.add_1_r, inject_Z_plus in B.
      change (inject_Z 1) with 1 in B.
      set (k := inject_Z (Z.of_nat (Datatypes.S (length rest')))) in *.
      assert (E : (k + 1) * ((4 # 100) * s) == k * ((4 # 100) * s) + (4 # 100) * s)
        by ring.
      lra.
Qed.

(** A falling tear stays a falling tear. *)
Lemma falling_frame (w : World) (now : Z) (rnd : nat -> Q * Q) (pts : list Point)
    (body : TearBody) :
  isStatic body = false -> state (plugin body) = falling ->
  exists body',
    tearStep w now rnd pts body = Some body'
    /\ isStatic body' = false /\ state (plugin body') = falling.
Proof.
  intros S T. unfold tearStep. rewrite S. cbn [set_restitution plugin]. rewrite T.
  cbv beta iota. cbn [set_restitution plugin]. rewrite T.
  eexists. split; [reflexivity |].
  match goal with |- context [fallStep pts ?b] =>
    destruct (fallStep_frame pts b) as (-> & _ & _ & _ & -> & _) end.
  tear_cbn. split; assumption.
Qed.

Lemma falling_frames (frames : list (World * Z)) (rnd : nat -> Q * Q) (body : TearBody) :
  isStatic body = false -> state (plugin body) = falling ->
  exists body',
    tearFrames frames rnd body = Some body' /\ state (plugin body') = falling.
Proof.
  revert body. induction frames as [| [w now] rest IH]; intros body S T; cbn [tearFrames].
  - now exists body.
  - destruct (falling_frame w now rnd (repulsionPoints w) body S T) as (b1 & -> & S1 & T1).
    apply IH; assumption.
Qed.

(** One frame of a sliding tear: it falls, or it slides on with a progress
    that has grown by at least 0.01 and is still below 1. *)
Lemma sliding_frame (w : World) (now : Z) (rnd : nat -> Q * Q) (pts : list Point)
    (body : TearBody) :
  isStatic body = false -> state (plugin body) = sliding ->
  0 <= progress (plugin body) ->
  exists body',
    tearStep w now rnd pts body = Some body' /\ isStatic body' = false
    /\ (state (plugin body') = falling
        \/ (state (plugin body') = sliding
            /\ progress (plugin body) + (1 # 100) <= progress (plugin body')
            /\ progress (plugin body') < 1)).
Proof.
  intros S T P. unfold tearStep. rewrite S. cbn [set_restitution plugin]. rewrite T.
  unfold slideStep. tear_cbn.
  destruct (facePath w (side (plugin body))) as [[[p0Raw p1Raw] p2Raw] |].
  - tear_cbn.
    destruct (Qgeb (progress (plugin body)
                    + ((1 # 100) + progress (plugin body) * (3 # 100))) 1) eqn:G;
      tear_cbn.
    + eexists. split; [reflexivity |].
      match goal with |- context [fallStep pts ?b] =>
        destruct (fallStep_frame pts b) as (-> & _ & _ & _ & -> & _) end.
      tear_cbn. split; [exact S | now left].
    + rewrite T. eexists. split; [reflexivity |]. tear_cbn.
      split; [exact S | right]. split; [exact T |].
      unfold Qgeb in G. split; [lra |].
      match goal with |- ?a < 1 =>
        destruct (Qlt_le_dec a 1) as [L | L]; [exact L |] end.
      apply Qle_bool_iff in L. congruence.
  - tear_cbn. eexists. split; [reflexivity |].
    match goal with |- context [fallStep pts ?b] =>
      destruct (fallStep_frame pts b) as (-> & _ & _ & _ & -> & _) end.
    tear_cbn. split; [exact S | now left].
Qed.

Lemma sliding_frames (k : nat) (frames : list (World * Z)) (rnd : nat -> Q * Q)
    (body : TearBody) :
  isStatic body = false -> state (plugin body) = sliding ->
  0 <= progress (plugin body) ->
  (1 <= k)%nat -> 1 - inject_Z (Z.of_nat k) * (1 # 100) <= progress (plugin body) ->
  (k <= length frames)%nat ->
  exists body',
    tearFrames frames rnd body = Some body' /\ state (plugin body') = falling.
Proof.
  revert frames body. induction k as [| k IH]; intros frames body S T P K B L; [lia |].
  destruct frames as [| [w now] rest]; [cbn in L; lia |].
  cbn [tearFrames length] in *.
  destruct (sliding_frame w now rnd (repulsionPoints w) body S T P)
    as (b1 & -> & S1 & [F | (T1 & G & U)]).
  - apply falling_frames; assumption.
  - rewrite Nat2Z.inj_succ, <- Z.add_1_r, inject_Z_plus in B.
    change (inject_Z 1) with 1 in B.
    set (q := inject_Z (Z.of_nat k)) in *.
    assert (E : (q + 1) * (1 # 100) == q * (1 # 100) + (1 # 100)) by ring.
    destruct k as [| k'].
    + exfalso. unfold q in *. change (inject_Z (Z.of_nat 0)) with 0 in B. lra.
    + apply IH; try assumption; try lia; try lra.
Qed.

End TearLife.

(** X6.  A rewinding tear that slides back along the face is removed
    after finitely many frames.  Let the tear have waited for its start,
    have a progress below 1, and let every frame see its three face
    landmarks with the camera on and a speed setting of at least [s],
    where [s] is at least 0.1, the least speed of the slider: then it is
    out of the world after any number of frames that is at least
    [progress / (0.04 s) + 1], one frame more than the exact count. *)
Theorem rewinding_tear_is_removed `{MathLib} (frames : list (ARCanvas.World * Z))
    (rnd : nat -> Q * Q) (s : Q) (body : ARCanvas.TearBody) :
  frames <> [] -> 1 # 10 <= s ->
  ARCanvas.isStatic body = false ->
  ARCanvas.state (ARCanvas.plugin body) = ARCanvas.rewinding ->
  Forall (fun f => seesFace (fst f) (ARCanvas.side (ARCanvas.plugin body))
                   /\ s <= ARCanvas.speed (ARCanvas.settingsRef (fst f))
                   /\ started body (snd f)) frames ->
  ARCanvas.progress (ARCanvas.plugin body) < 1 ->
  ARCanvas.progress (ARCanvas.plugin body) + (4 # 100) * s
    <= inject_Z (Z.of_nat (length frames)) * ((4 # 100) * s) ->
  tearFrames frames rnd body = None.
Proof.
  intros NE Sp S T F P B.
  apply (rewinding_frames frames rnd (ARCanvas.side (ARCanvas.plugin body))
           (ARCanvas.rewindStartTime (ARCanvas.plugin body)) s body);
    try assumption; try reflexivity; try lra.
  apply (Forall_impl _ (P := fun f =>
           seesFace (fst f) (ARCanvas.side (ARCanvas.plugin body))
           /\ s <= ARCanvas.speed (ARCanvas.settingsRef (fst f))
           /\ started body (snd f))); [| exact F].
  intros f ((C & face & eye & cheek & drop & Fa & E0 & E1 & E2) & Sf & St).
  split; [| split; [exact Sf | exact St]].
  rewrite (facePath_landmarks (fst f) _ face eye cheek drop C Fa E0 E1 E2). discriminate.
Qed.

Lemma rewinding_tear_is_removed_witness :
  tearFrames (H := approxMath) (map (fun t => (faceWorld, t)) [600; 616; 633; 650; 666;
                                                                683; 700; 716; 733]%Z)
    (fun _ => (0, 0)) rewindingTear = None.
Proof.
  apply (rewinding_tear_is_removed (H := approxMath) _ _ (8 # 10)).
  - discriminate.
  - lra.
  - reflexivity.
  - reflexivity.
  - repeat constructor; cbn; try lra; try lia;
      do 4 eexists; repeat split; reflexivity.
  - reflexivity.
  - apply Qle_bool_iff. reflexivity.
Defined.

(** X7.  A tear does not slide for ever: whatever the detector sees, a
    sliding tear whose progress is not negative is a falling tear after at
    most 100 physics frames, and it is still in the world. *)
Theorem sliding_tear_falls_within_100_frames `{MathLib}
    (frames : list (ARCanvas.World * Z)) (rnd : nat -> Q * Q) (body : ARCanvas.TearBody) :
  ARCanvas.isStatic body = false ->
  ARCanvas.state (ARCanvas.plugin body) = ARCanvas.sliding ->
  0 <= ARCanvas.progress (ARCanvas.plugin body) ->
  (100 <= length frames)%nat ->
  exists body',
    tearFrames frames rnd body = Some body'
    /\ ARCanvas.state (ARCanvas.plugin body') = ARCanvas.falling.
Proof.
  intros S T P L.
  apply (sliding_frames 100 frames rnd body S T P); [lia | | exact L].
  assert (E : 1 - inject_Z (Z.of_nat 100) * (1 # 100) == 0) by (vm_compute; reflexivity).
  rewrite E. exact P.
Qed.

Lemma sliding_tear_falls_within_100_frames_witness :
  exists body',
    tearFrames (H := approxMath) (repeat (faceWorld, 0%Z) 100) (fun _ => (0, 0)) slidingTear
    = Some body'
    /\ ARCanvas.state (ARCanvas.plugin body') = ARCanvas.falling.
Proof.
  apply (sliding_tear_falls_within_100_frames (H := approxMath)).
  - reflexivity.
  - reflexivity.
  - cbn. lra.
  - cbn. lia.
Defined.

(** ** The grid stretch without a stretching hand *)

Ltac loop_with P :=
  match goal with
  | |- context [GridStretch.for_ ?m ?b ?s] =>
      let F := fresh "F" in
      pose proof (for_inv P m b s) as F; cbv beta in F
  end.

Ltac grid_cbn :=
  cbn [GridStretch.n GridStretch.currentWeightsX GridStretch.currentWeightsY
       GridStretch.targetWeightsX GridStretch.targetWeightsY fst snd] in *.

Section GridRelaxation.
Context `{MathLib}.
Import GridStretch.

Lemma intensity_tight (point : GridInteraction) :
  radius point <= 3 # 100 -> intensityOf point = 0.
Proof.
  intro R. unfold intensityOf, Math_max.
  destruct (Qltb 0 ((radius point - (3 # 100)) * 50)) eqn:E; [| reflexivity].
  apply Qltb_lt in E. lra.
Qed.

(** A pinch at or below the threshold adds nothing to the targets. *)
Lemma influence_tight (point : GridInteraction) (g : GridStretchManager) :
  radius point <= 3 # 100 ->
  let g' := influence point g in
  n g' = n g /\ currentWeightsX g' = currentWeightsX g
  /\ currentWeightsY g' = currentWeightsY g
  /\ forall j, at_ (targetWeightsX g') j == at_ (targetWeightsX g) j
               /\ at_ (targetWeightsY g') j == at_ (targetWeightsY g) j.
Proof.
  intro R. unfold influence. cbv zeta. rewrite (intensity_tight point R).
  loop_with (fun (k : nat) (g' : GridStretchManager) =>
               n g' = n g /\ currentWeightsX g' = currentWeightsX g
               /\ currentWeightsY g' = currentWeightsY g
               /\ forall j, at_ (targetWeightsX g') j == at_ (targetWeightsX g) j
                            /\ at_ (targetWeightsY g') j == at_ (targetWeightsY g) j).
  apply F.
  - repeat split; reflexivity.
  - intros i g' _ (En & Ex & Ey & A). grid_cbn. repeat split; try assumption;
      rewrite at_assign; destruct (Nat.eqb_spec j i) as [-> | NE];
        try apply A; destruct (A i) as [Ax Ay]; rewrite ?Ax, ?Ay; ring.
Qed.

Lemma influences_tight (interactions : list GridInteraction) (g : GridStretchManager) :
  Forall (fun point => radius point <= 3 # 100) interactions ->
  let g' := fold_left (fun g point => influence point g) interactions g in
  n g' = n g /\ currentWeightsX g' = currentWeightsX g
  /\ currentWeightsY g' = currentWeightsY g
  /\ forall j, at_ (targetWeightsX g') j == at_ (targetWeightsX g) j
               /\ at_ (targetWeightsY g') j == at_ (targetWeightsY g) j.
Proof.
  intro F. revert g. induction F as [| point rest R _ IH]; intro g; cbn [fold_left].
  - repeat split; reflexivity.
  - destruct (influence_tight point g R) as (En & Ex & Ey & A).
    destruct (IH (influence point g)) as (En' & Ex' & Ey' & A').
    cbv zeta in *. repeat split; try congruence;
      destruct (A j) as [Ax Ay]; destruct (A' j) as [Ax' Ay'];
      [now rewrite Ax', Ax | now rewrite Ay', Ay].
Qed.

(** The smoothing loop moves every current weight 12% of the way to its
    target. *)
Lemma smooth_exact (g : GridStretchManager) :
  let g' := smooth g in
  n g' = n g /\ targetWeightsX g' = targetWeightsX g
  /\ targetWeightsY g' = targetWeightsY g
  /\ forall j, (j < n g)%nat ->
       at_ (currentWeightsX g') j
       = at_ (currentWeightsX g) j
         + (at_ (targetWeightsX g) j - at_ (currentWeightsX g) j) * (12 # 100)
       /\ at_ (currentWeightsY g') j
          = at_ (currentWeightsY g) j
            + (at_ (targetWeightsY g) j - at_ (currentWeightsY g) j) * (12 # 100).
Proof.
  unfold smooth. cbv zeta.
  loop_with (fun (k : nat) (g' : GridStretchManager) =>
               n g' = n g /\ targetWeightsX g' = targetWeightsX g
               /\ targetWeightsY g' = targetWeightsY g
               /\ forall j,
                    ((j < k)%nat ->
                     at_ (currentWeightsX g') j
                     = at_ (currentWeightsX g) j
                       + (at_ (targetWeightsX g) j - at_ (currentWeightsX g) j) * (12 # 100)
                     /\ at_ (currentWeightsY g') j
                        = at_ (currentWeightsY g) j
                          + (at_ (targetWeightsY g) j - at_ (currentWeightsY g) j)
                            * (12 # 100))
                    /\ ((k <= j)%nat ->
                        at_ (currentWeightsX g') j = at_ (currentWeightsX g) j
                        /\ at_ (currentWeightsY g') j = at_ (currentWeightsY g) j)).
  destruct F as (En & Ex & Ey & A).
  - repeat split; intros; lia || reflexivity.
  - intros i g' Li (En & Ex & Ey & A). grid_cbn.
    split; [exact En | split; [exact Ex | split; [exact Ey |]]].
    intro j. rewrite !at_assign.
    destruct (Nat.eqb_spec j i) as [-> | NE].
    + destruct (A i) as [_ Same]. destruct (Same (Nat.le_refl i)) as [Sx Sy].
      rewrite Sx, Sy, Ex, Ey. split; [intros _; split; reflexivity | intro; lia].
    + destruct (A j) as [Done Same]. split; intro L; [apply Done | apply Same]; lia.
  - repeat split; try assumption; apply (proj1 (A j)); assumption.
Qed.

End GridRelaxation.

(** X8.  Without a stretching hand the grid relaxes to the uniform grid.
    When every interaction of a frame has a radius of at most 0.03 (a
    tight pinch), and in particular when there is none, [update] leaves
    every target weight at 1, and every current weight keeps 88% of its
    distance to 1. *)
Theorem tight_pinch_relaxes_grid `{MathLib} (g : GridStretch.GridStretchManager)
    (interactions : list GridStretch.GridInteraction) (j : nat) :
  reachable g ->
  Forall (fun point => GridStretch.radius point <= 3 # 100) interactions ->
  (j < GridStretch.n g)%nat ->
  let g' := GridStretch.update interactions g in
  GridStretch.at_ (GridStretch.targetWeightsX g') j == 1
  /\ GridStretch.at_ (GridStretch.targetWeightsY g') j == 1
  /\ GridStretch.at_ (GridStretch.currentWeightsX g') j - 1
     == (88 # 100) * (GridStretch.at_ (GridStretch.currentWeightsX g) j - 1)
  /\ GridStretch.at_ (GridStretch.currentWeightsY g') j - 1
     == (88 # 100) * (GridStretch.at_ (GridStretch.currentWeightsY g) j - 1).
Proof.
  intros _ T L. cbv zeta. unfold GridStretch.update.
  destruct (resetTargets_spec g) as (En & Ex & Ey & Ox & Oy). cbv zeta in *.
  set (g1 := GridStretch.resetTargets g) in *.
  destruct (influences_tight interactions g1 T) as (En2 & Ex2 & Ey2 & A). cbv zeta in *.
  set (g2 := fold_left (fun g point => GridStretch.influence point g) interactions g1) in *.
  destruct (smooth_exact g2) as (En3 & Ex3 & Ey3 & C). cbv zeta in *.
  assert (L2 : (j < GridStretch.n g2)%nat) by congruence.
  destruct (C j L2) as [Cx Cy]. destruct (A j) as [Ax Ay].
  rewrite Ex3, Ey3, Cx, Cy, Ax, Ay, Ex2, Ey2, Ex, Ey, (Ox j L), (Oy j L).
  repeat split; try reflexivity; ring.
Qed.

Lemma tight_pinch_relaxes_grid_witness :
  let g := GridStretch.update (H := approxMath) [spreadInteraction] GridStretch.new in
  GridStretch.at_ (GridStretch.currentWeightsX (GridStretch.update (H := approxMath) [] g)) 7
    - 1
  == (88 # 100) * (GridStretch.at_ (GridStretch.currentWeightsX g) 7 - 1).
Proof.
  cbv zeta.
  destruct (tight_pinch_relaxes_grid (H := approxMath)
              (GridStretch.update (H := approxMath) [spreadInteraction] GridStretch.new)
              [] 7) as (_ & _ & C & _).
  - apply reach_update, reach_new.
  - constructor.
  - cbn. lia.
  - exact C.
Defined.

(** ** The path and the horses *)

Lemma bezier_between (t x0 x1 x2 x3 lo hi : Q) :
  0 <= t -> t <= 1 ->
  lo <= x0 <= hi -> lo <= x1 <= hi -> lo <= x2 <= hi -> lo <= x3 <= hi ->
  let b := (1 - t) ^ 3 * x0 + 3 * (1 - t) ^ 2 * t * x1
           + 3 * (1 - t) * t ^ 2 * x2 + t ^ 3 * x3 in
  lo <= b <= hi.
Proof.
  intros T0 T1 [L0 H0] [L1 H1] [L2 H2] [L3 H3] b.
  assert (U : 0 <= 1 - t) by lra.
  assert (A0 : 0 <= (1 - t) * (1 - t) * (1 - t))
    by (repeat apply Qmult_le_0_compat; assumption).
  assert (A1 : 0 <= 3 * ((1 - t) * (1 - t) * t))
    by (repeat apply Qmult_le_0_compat; try assumption; lra).
  assert (A2 : 0 <= 3 * ((1 - t) * t * t))
    by (repeat apply Qmult_le_0_compat; try assumption; lra).
  assert (A3 : 0 <= t * t * t) by (repeat apply Qmult_le_0_compat; assumption).
  assert (P : forall a y, 0 <= a -> 0 <= y -> 0 <= a * y)
    by (intros; now apply Qmult_le_0_compat).
  pose proof (P _ (x0 - lo) A0 ltac:(lra)) as Lo0.
  pose proof (P _ (x1 - lo) A1 ltac:(lra)) as Lo1.
  pose proof (P _ (x2 - lo) A2 ltac:(lra)) as Lo2.
  pose proof (P _ (x3 - lo) A3 ltac:(lra)) as Lo3.
  pose proof (P _ (hi - x0) A0 ltac:(lra)) as Hi0.
  pose proof (P _ (hi - x1) A1 ltac:(lra)) as Hi1.
  pose proof (P _ (hi - x2) A2 ltac:(lra)) as Hi2.
  pose proof (P _ (hi - x3) A3 ltac:(lra)) as Hi3.
  assert (E1 : (1 - t) * (1 - t) * (1 - t) * (x0 - lo)
               + 3 * ((1 - t) * (1 - t) * t) * (x1 - lo)
               + 3 * ((1 - t) * t * t) * (x2 - lo) + t * t * t * (x3 - lo)
               == b - lo) by (unfold b; ring).
  assert (E2 : (1 - t) * (1 - t) * (1 - t) * (hi - x0)
               + 3 * ((1 - t) * (1 - t) * t) * (hi - x1)
               + 3 * ((1 - t) * t * t) * (hi - x2) + t * t * t * (hi - x3)
               == hi - b) by (unfold b; ring).
  clearbody b. split; lra.
Qed.

Lemma Math_min_le (a b : Q) : Math_min a b <= a /\ Math_min a b <= b.
Proof.
  unfold Math_min. destruct (Qltb b a) eqn:E;
    [apply Qltb_lt in E | apply Qltb_ge in E]; lra.
Qed.

Lemma Math_min_glb (a b c : Q) : c <= a -> c <= b -> c <= Math_min a b.
Proof. intros A B. unfold Math_min. destruct (Qltb b a); assumption. Qed.

Lemma Math_max_lub (a b c : Q) : a <= c -> b <= c -> Math_max a b <= c.
Proof. intros A B. unfold Math_max. destruct (Qltb a b); assumption. Qed.

(** The control points of a generated path lie in the box, the end points
    a margin inside it. *)
Lemma generate_in_box (w h : Q) (r : nat -> Q) :
  0 <= w -> 0 <= h -> unitDraws r ->
  exists p0 p1 p2 p3,
    Santa.points (Santa.generate w h r) = [p0; p1; p2; p3]
    /\ (let margin := Math_min w h * (2 # 10) in
        margin <= px p0 <= w - margin /\ margin <= py p0 <= h - margin
        /\ margin <= px p3 <= w - margin /\ margin <= py p3 <= h - margin
        /\ 0 <= margin)
    /\ 0 <= px p1 <= w /\ 0 <= py p1 <= h /\ 0 <= px p2 <= w /\ 0 <= py p2 <= h.
Proof.
  intros W Hh R. unfold Santa.generate. cbv zeta.
  do 4 eexists. split; [reflexivity |]. cbn [px py].
  destruct (Math_min_le w h) as [Mw Mh].
  pose proof (Math_min_glb w h 0 W Hh) as M0.
  set (m := Math_min w h) in *. clearbody m.
  assert (box : forall d s, 0 <= d <= 1 -> m <= s -> 0 <= s ->
                  m * (2 # 10) <= d * (s - 2 * (m * (2 # 10))) + m * (2 # 10)
                  <= s - m * (2 # 10)).
  { intros d s [D0 D1] Ms S0.
    assert (P : 0 <= d * (s - 2 * (m * (2 # 10)))) by (apply Qmult_le_0_compat; lra).
    assert (P' : 0 <= (1 - d) * (s - 2 * (m * (2 # 10))))
      by (apply Qmult_le_0_compat; lra).
    assert (E : (1 - d) * (s - 2 * (m * (2 # 10)))
                == (s - 2 * (m * (2 # 10))) - d * (s - 2 * (m * (2 # 10)))) by ring.
    split; lra. }
  assert (unit : forall d s, 0 <= d <= 1 -> 0 <= s -> 0 <= d * s <= s).
  { intros d s [D0 D1] S0.
    assert (P : 0 <= d * s) by (apply Qmult_le_0_compat; lra).
    assert (P' : 0 <= (1 - d) * s) by (apply Qmult_le_0_compat; lra).
    assert (E : (1 - d) * s == s - d * s) by ring.
    split; lra. }
  repeat split;
    try (apply box; [apply R | assumption | assumption]);
    try (apply unit; [apply R | assumption]); lra.
Qed.

Lemma getPoint_in_box (w h : Q) (r : nat -> Q) (t : Q) :
  0 <= w -> 0 <= h -> unitDraws r -> 0 <= t -> t <= 1 ->
  0 <= px (Santa.getPoint (Santa.generate w h r) t) <= w
  /\ 0 <= py (Santa.getPoint (Santa.generate w h r) t) <= h.
Proof.
  intros W Hh R T0 T1.
  destruct (generate_in_box w h r W Hh R)
    as (p0 & p1 & p2 & p3 & E & (X0 & Y0 & X3 & Y3 & M) & X1 & Y1 & X2 & Y2).
  unfold Santa.getPoint. rewrite E. cbn [px py].
  split; apply bezier_between; try assumption; lra.
Qed.

(** X9.  A generated path stays in its box.  For a box of non-negative
    size and random draws between 0 and 1, the path starts and ends a
    margin of a fifth of the smaller side inside the box, and every point
    of it, for a parameter from 0 to 1, lies in the box; a path without
    points yields the origin. *)
Theorem path_stays_in_box (w h : Q) (r : nat -> Q) (t : Q) :
  0 <= w -> 0 <= h -> unitDraws r -> 0 <= t -> t <= 1 ->
  let path := Santa.generate w h r in
  let margin := Math_min w h * (2 # 10) in
  (0 <= px (Santa.getPoint path t) <= w /\ 0 <= py (Santa.getPoint path t) <= h)
  /\ (margin <= px (Santa.getPoint path 0) <= w - margin
      /\ margin <= py (Santa.getPoint path 0) <= h - margin)
  /\ (margin <= px (Santa.getPoint path 1) <= w - margin
      /\ margin <= py (Santa.getPoint path 1) <= h - margin)
  /\ Santa.getPoint (Santa.mkPath []) t = mkPoint 0 0.
Proof.
  intros W Hh R T0 T1. cbv zeta.
  split; [apply getPoint_in_box; assumption |].
  destruct (generate_in_box w h r W Hh R)
    as (p0 & p1 & p2 & p3 & E & (X0 & Y0 & X3 & Y3 & M) & _).
  cbv zeta in *. unfold Santa.getPoint. rewrite E. cbn [px py].
  set (m := Math_min w h * (2 # 10)) in *.
  assert (S0 : forall a b c d : Q,
             (1 - 0) ^ 3 * a + 3 * (1 - 0) ^ 2 * 0 * b + 3 * (1 - 0) * 0 ^ 2 * c + 0 ^ 3 * d
             == a) by (intros; ring).
  assert (S1 : forall a b c d : Q,
             (1 - 1) ^ 3 * a + 3 * (1 - 1) ^ 2 * 1 * b + 3 * (1 - 1) * 1 ^ 2 * c + 1 ^ 3 * d
             == d) by (intros; ring).
  rewrite !S0, !S1. repeat split; tauto.
Qed.

Lemma path_stays_in_box_witness :
  0 <= px (Santa.getPoint (Santa.generate 400 300 (fun _ => 1 # 2)) (1 # 3)) <= 400.
Proof.
  assert (R : unitDraws (fun _ => 1 # 2)) by (intro i; split; lra).
  destruct (path_stays_in_box 400 300 (fun _ => 1 # 2) (1 # 3)
              ltac:(lra) ltac:(lra) R ltac:(lra) ltac:(lra)) as ((X & _) & _).
  exact X.
Defined.

(** X10.  The strings cannot pull a horse out of the rect.  In a rect of
    non-negative width, the target that [solveControlPoint] computes for a
    finger lies horizontally inside the rect and not above its top; and
    when the rect is high enough for it (10 px for a knee, 45 px for the
    head), the target is at least that far above the floor, wherever the
    finger is.  The anchor of the string is the finger itself. *)
Theorem control_target_inside_rect (rect : Rect) (handLandmarks : NormalizedLandmarkList)
    (screenW screenH : Q) (idx : nat) (type : Santa.ControlType) (target anchor : Point) :
  0 <= rw rect ->
  Santa.solveControlPoint rect handLandmarks screenW screenH idx type
    = Some (target, anchor) ->
  withinX rect (px target)
  /\ ry rect <= py target
  /\ (ry rect <= lowestControl rect type -> py target <= lowestControl rect type)
  /\ exists lm, nth_error handLandmarks idx = Some lm
                /\ anchor = mkPoint (x lm * screenW) (y lm * screenH).
Proof.
  intros W E. unfold Santa.solveControlPoint in E.
  destruct (nth_error handLandmarks idx) as [lm |]; [| discriminate E].
  injection E as <- <-. cbn [px py]. unfold withinX.
  split; [| split; [apply Math_max_l | split; [| now exists lm]]].
  - split; [apply Math_max_l |].
    apply Math_max_lub; [lra | apply Math_min_le].
  - intro C. apply Math_max_lub; [exact C |].
    unfold lowestControl, Santa.standHeight, Santa.legUpperLength, Santa.legLowerLength,
      Santa.bodyHeight in *.
    destruct type.
    + apply Math_min_le.
    + destruct (Math_min_le (ry rect + rh rect - (25 + 25 + 30 / 2) + 20)
                  (y lm * screenH + rh rect * (4 # 10))) as [A _].
      assert (E : ry rect + rh rect - (25 + 25 + 30 / 2) + 20 == ry rect + rh rect - 45)
        by field.
      lra.
Qed.

Lemma control_target_inside_rect_witness :
  exists target anchor,
    Santa.solveControlPoint (mkRect 200 150 400 300) spreadHand 800 600 20 Santa.KNEE
      = Some (target, anchor)
    /\ withinX (mkRect 200 150 400 300) (px target).
Proof.
  destruct (Santa.solveControlPoint (mkRect 200 150 400 300) spreadHand 800 600 20
              Santa.KNEE) as [[target anchor] |] eqn:E; [| vm_compute in E; discriminate E].
  exists target, anchor. split; [reflexivity |].
  apply (control_target_inside_rect (mkRect 200 150 400 300) spreadHand 800 600 20
           Santa.KNEE target anchor); [cbn; lra | exact E].
Defined.

Lemma resolveHoof_above (floorY : Q) (knee currentHoof : Point) :
  py currentHoof <= floorY -> py (Santa.resolveHoof floorY knee currentHoof) <= floorY.
Proof.
  intro C. unfold Santa.resolveHoof, Santa.lerpPoint, Santa.legLowerLength. cbn [px py].
  destruct (Qgtb (py knee + 25) floorY) eqn:G.
  - lra.
  - unfold Qgtb in G. apply Qltb_ge in G. lra.
Qed.

(** X11.  The hooves stay on or above the floor.  Whatever the mode, the
    hand and the clock, when [update] returns, a horse whose four hooves
    were on or above the bottom edge of the rect has them there
    afterwards. *)
Theorem hooves_stay_above_floor `{MathLib} (time : Q) (mode : Santa.Mode) (rect : Rect)
    (path : Santa.BezierPath) (progress : Q)
    (handLandmarks : option NormalizedLandmarkList) (screenW screenH : Q)
    (mirrorAuto : bool) (p p' : Santa.SantaPuppet) :
  hoovesAbove (ry rect + rh rect) p ->
  Santa.update time mode rect path progress handLandmarks screenW screenH mirrorAuto p
    = Some p' ->
  hoovesAbove (ry rect + rh rect) p'.
Proof.
  intros (A & B & C & D) E.
  assert (G : exists q, p' = Santa.resolveHooves rect q
                        /\ Santa.flHoof q = Santa.flHoof p
                        /\ Santa.frHoof q = Santa.frHoof p
                        /\ Santa.blHoof q = Santa.blHoof p
                        /\ Santa.brHoof q = Santa.brHoof p).
  { unfold Santa.update in E. destruct mode.
    - injection E as <-. eexists. split; [reflexivity |]. repeat split.
    - destruct handLandmarks as [hl |];
        [| injection E as <-; exists p; repeat split].
      destruct (Santa.truthy screenW && Santa.truthy screenH);
        [| injection E as <-; exists p; repeat split].
      unfold Santa.updatePuppet in E.
      repeat match type of E with
             | context [match ?c with Some _ => _ | None => _ end] =>
                 destruct c; try discriminate E
             end.
      injection E as <-. eexists. split; [reflexivity |]. repeat split. }
  destruct G as (q & -> & Ea & Eb & Ec & Ed).
  unfold hoovesAbove, Santa.resolveHooves.
  cbn [Santa.flHoof Santa.frHoof Santa.blHoof Santa.brHoof].
  rewrite Ea, Eb, Ec, Ed. repeat split; apply resolveHoof_above; assumption.
Qed.

Lemma hooves_stay_above_floor_witness :
  exists p',
    Santa.update (H := approxMath) 5 Santa.AUTO (mkRect 200 150 400 300)
      (TimeSlice.santaPathRef horseApp) (1 # 2) None 800 600 false
      (Santa.new Santa.THEME_BROWN) = Some p'
    /\ hoovesAbove 450 p'.
Proof.
  eexists. split; [reflexivity |].
  apply (hooves_stay_above_floor (H := approxMath) 5 Santa.AUTO (mkRect 200 150 400 300)
           (TimeSlice.santaPathRef horseApp) (1 # 2) None 800 600 false
           (Santa.new Santa.THEME_BROWN)); [| reflexivity].
  unfold hoovesAbove. cbn. repeat split; lra.
Defined.

(** X12.  On auto-pilot a horse stays horizontally inside the rect.  On a
    path generated for the rect (of non-negative size, from draws between
    0 and 1) and for a progress from 0 to 1, the x the auto-pilot steers
    to lies in the rect, for the mirrored horse as well; so a horse whose
    body is horizontally inside the rect still is after the update. *)
Theorem auto_pilot_stays_in_rect `{MathLib} (time : Q) (rect : Rect) (r : nat -> Q)
    (progress : Q) (handLandmarks : option NormalizedLandmarkList) (screenW screenH : Q)
    (mirrorAuto : bool) (p p' : Santa.SantaPuppet) :
  0 <= rw rect -> 0 <= rh rect -> unitDraws r -> 0 <= progress -> progress <= 1 ->
  let path := Santa.generate (rw rect) (rh rect) r in
  Santa.update time Santa.AUTO rect path progress handLandmarks screenW screenH
    mirrorAuto p = Some p' ->
  withinX rect (Santa.autoTargetX rect path progress mirrorAuto)
  /\ (withinX rect (px (Santa.body p)) -> withinX rect (px (Santa.body p'))).
Proof.
  intros W Hh R P0 P1 path E.
  assert (T : withinX rect (Santa.autoTargetX rect path progress mirrorAuto)).
  { unfold Santa.autoTargetX, withinX.
    destruct (getPoint_in_box (rw rect) (rh rect) r progress W Hh R P0 P1) as [[X0 X1] _].
    fold path in X0, X1. set (q := px (Santa.getPoint path progress)) in *. clearbody q.
    destruct mirrorAuto.
    - assert (E1 : rx rect + rw rect / 2 - (rx rect + q - (rx rect + rw rect / 2))
                   == rx rect + rw rect - q) by field.
      rewrite E1. split; lra.
    - split; lra. }
  split; [exact T |].
  intros [B0 B1]. cbn [Santa.update] in E. injection E as <-.
  unfold Santa.resolveHooves, Santa.updateAuto, Santa.lerpPoint.
  cbn [Santa.body px py].
  destruct T as [T0 T1].
  set (tx := Santa.autoTargetX rect path progress mirrorAuto) in *. clearbody tx.
  set (bx := px (Santa.body p)) in *. clearbody bx.
  unfold withinX. split; lra.
Qed.

Lemma auto_pilot_stays_in_rect_witness :
  withinX (mkRect 200 150 400 300)
    (Santa.autoTargetX (mkRect 200 150 400 300)
       (Santa.generate 400 300 (fun _ => 1 # 2)) (1 # 3) true).
Proof.
  assert (R : unitDraws (fun _ => 1 # 2)) by (intro i; split; lra).
  destruct (auto_pilot_stays_in_rect (H := approxMath) 5 (mkRect 200 150 400 300)
              (fun _ => 1 # 2) (1 # 3) None 800 600 true (Santa.new Santa.THEME_WHITE)
              (Santa.resolveHooves (mkRect 200 150 400 300)
                 (Santa.updateAuto (H := approxMath) 5 (mkRect 200 150 400 300)
                    (Santa.generate 400 300 (fun _ => 1 # 2)) (1 # 3) true
                    (Santa.new Santa.THEME_WHITE))))
    as [T _]; try (cbn; lra); [exact R | reflexivity | exact T].
Defined.

(** ** Invariants of the time-slice camera *)

Section Invariants.
Context `{MathLib}.
Import TimeSlice.
Local Open Scope app_scope.

Lemma preserves_mret {A} (P : App -> Prop) (v : A) : preserves P (mret v).
Proof. intros a Pa. exact Pa. Qed.

Lemma preserves_get (P : App -> Prop) : preserves P get.
Proof. intros a Pa. exact Pa. Qed.

Lemma preserves_orThrow {A} (P : App -> Prop) (o : option A) : preserves P (orThrow o).
Proof. intros a Pa. exact Pa. Qed.

Lemma preserves_modify (P : App -> Prop) (f : App -> App) :
  (forall a, P a -> P (f a)) -> preserves P (modify f).
Proof. intros E a. apply E. Qed.

Lemma preserves_mbind {A B} (P : App -> Prop) (m : M A) (k : A -> M B) :
  preserves P m -> (forall v, preserves P (k v)) -> preserves P (mbind m k).
Proof. apply relates_mbind. intros a b c E1 E2 Pa. auto. Qed.

Lemma preserves_when (P : App -> Prop) (b : bool) (m : M unit) :
  preserves P m -> preserves P (when b m).
Proof. intro K. destruct b; [exact K | apply preserves_mret]. Qed.

Lemma preserves_keeps {X A} (P : App -> Prop) (g : App -> X) (m : M A) :
  (forall a a', g a' = g a -> P a -> P a') -> keeps g m -> preserves P m.
Proof. intros E K a Pa. apply (E a); [apply K | exact Pa]. Qed.

End Invariants.

(** A structural proof that a computation preserves a property of the
    refs; [tac] proves that a single write does. *)
Ltac preserves_step tac :=
  first
    [ apply preserves_mret | apply preserves_get | apply preserves_orThrow
    | apply preserves_modify; intros ? ?; solve [tac]
    | apply preserves_when
    | apply preserves_mbind; [| intro]
    | match goal with
      | |- preserves _ (match ?c with _ => _ end) => destruct c
      | |- preserves _ (if ?c then _ else _) => destruct c
      | |- preserves _ (let '(_, _) := ?c in _) => destruct c
      end ].

Section RectInvariant.
Context `{MathLib}.
Import TimeSlice.
Local Open Scope app_scope.

Lemma Math_abs_nonneg (a : Q) : 0 <= Math_abs a.
Proof.
  unfold Math_abs. destruct (Qltb a 0) eqn:E;
    [apply Qltb_lt in E | apply Qltb_ge in E]; lra.
Qed.

Ltac rect_write :=
  unfold rectOk in *; app_simpl;
  repeat match goal with
         | |- context [if ?c then _ else _] => destruct c
         end;
  app_simpl; cbn [rw rh] in *; unfold lerp;
  repeat match goal with
         | |- context [Math_abs ?e] =>
             pose proof (Math_abs_nonneg e); generalize dependent (Math_abs e); intros
         end;
  try assumption; try (split; lra).

Lemma onResults_rectOk (f : Frame) : preserves rectOk (onResults f).
Proof.
  unfold onResults.
  apply preserves_mbind;
    [apply (preserves_keeps _ rectRef);
       [intros a a' E; unfold rectOk; now rewrite E
       | apply keeps_resizeCanvas; reflexivity] | intro].
  apply preserves_mbind; [apply preserves_get | intro a0].
  apply preserves_mbind; [preserves_step rect_write | intro].
  apply preserves_mbind.
  { unfold stateMachine, bothHands, lm, initSanta. repeat preserves_step rect_write. }
  intro.
  apply preserves_mbind.
  { apply (preserves_keeps _ rectRef); [| apply activeHandsOf_keeps].
    intros a a' E. unfold rectOk. now rewrite E. }
  intro hs.
  apply preserves_mbind.
  { apply (preserves_keeps _ coreOf); [| apply render_keeps_core].
    intros a a' E. unfold rectOk. unfold coreOf in E. injection E as _ E _ _ _ _ _.
    now rewrite E. }
  intro.
  apply preserves_mbind.
  { unfold resetLogic, resetSystem. repeat preserves_step rect_write. }
  intro.
  apply preserves_mbind; [| intro; apply preserves_mret].
  apply (preserves_keeps _ selectionOf); [| apply effectSwitchLogic_keeps_selection].
  intros a a' E. unfold rectOk. unfold selectionOf in E. injection E as _ E _ _ _.
  now rewrite E.
Qed.

End RectInvariant.

(** X13.  The selection rect never has a negative width or height:
    whatever events the camera has seen since it was mounted, frames of any
    content, resets and zoom changes, in any order, and whether or not a
    frame ended in an exception. *)
Theorem selection_rect_is_never_negative `{MathLib} (es : list TimeSlice.Event) :
  0 <= rw (TimeSlice.rectRef (TimeSlice.run es TimeSlice.initial))
  /\ 0 <= rh (TimeSlice.rectRef (TimeSlice.run es TimeSlice.initial)).
Proof.
  change (rectOk (TimeSlice.run es TimeSlice.initial)).
  assert (I : rectOk TimeSlice.initial) by (unfold rectOk; cbn; split; lra).
  revert I. generalize TimeSlice.initial. unfold TimeSlice.run.
  induction es as [| e es IH]; intros a I; [exact I |].
  cbn [fold_left]. apply IH. destruct e as [f | | zoom]; cbn [TimeSlice.step].
  - apply (onResults_rectOk f a I).
  - unfold rectOk. cbn. split; lra.
  - exact I.
Qed.

Section ProgressInvariant.
Context `{MathLib}.
Import TimeSlice.
Local Open Scope app_scope.

Ltac progress_write :=
  unfold progressOk in *; app_simpl;
  repeat match goal with
         | |- context [if ?c then _ else _] => destruct c
         end;
  app_simpl; try assumption; try (split; lra).

(** The auto-pilot's step along the path: 0.002 further, and back to the
    start once the end is passed. *)
Lemma advance_progressOk (f : Frame) (r : Rect) (b : bool) :
  preserves progressOk
    (when b
       (modify (fun a => set_santaPathProgressRef (santaPathProgressRef a + (2 # 1000)) a) ;;;
        a <- get ;;
        when (Qgtb (santaPathProgressRef a) 1)
          (modify (fun a =>
                     set_santaPathRef (Santa.generate (rw r) (rh r) (random f 1%nat))
                       (set_santaPathProgressRef 0 a))))).
Proof.
  intros a [P0 P1]. destruct b; [| split; assumption].
  unfold progressOk. app_simpl.
  destruct (Qgtb (santaPathProgressRef a + (2 # 1000)) 1) eqn:G; app_simpl.
  - split; lra.
  - unfold Qgtb in G. apply Qltb_ge in G. split; lra.
Qed.

Lemma onResults_progressOk (f : Frame) : preserves progressOk (onResults f).
Proof.
  unfold onResults.
  apply preserves_mbind;
    [apply (preserves_keeps _ santaPathProgressRef);
       [intros a a' E; unfold progressOk; now rewrite E
       | apply keeps_resizeCanvas; reflexivity] | intro].
  apply preserves_mbind; [apply preserves_get | intro a0].
  apply preserves_mbind; [preserves_step progress_write | intro].
  apply preserves_mbind.
  { unfold stateMachine, bothHands, lm, initSanta. repeat preserves_step progress_write. }
  intro.
  apply preserves_mbind.
  { apply (preserves_keeps _ santaPathProgressRef); [| apply activeHandsOf_keeps].
    intros a a' E. unfold progressOk. now rewrite E. }
  intro hs.
  apply preserves_mbind.
  { unfold render.
    apply preserves_mbind; [apply preserves_get | intro a1].
    destruct (stateRef a1); try apply preserves_mret.
    destruct (effectModeRef a1); try apply preserves_mret.
    - unfold renderGrid.
      apply preserves_mbind; [apply preserves_get | intro].
      apply preserves_mbind.
      { apply (preserves_keeps _ santaPathProgressRef); [| apply gridInteractions_keeps].
        intros a a' E. unfold progressOk. now rewrite E. }
      intro. repeat preserves_step progress_write.
    - apply preserves_mbind; [| intro; apply preserves_mret].
      unfold renderSanta.
      apply preserves_mbind; [apply preserves_get | intro a2].
      apply preserves_mbind; [apply advance_progressOk | intro].
      repeat preserves_step progress_write. }
  intro.
  apply preserves_mbind.
  { unfold resetLogic, resetSystem. repeat preserves_step progress_write. }
  intro.
  apply preserves_mbind; [| intro; apply preserves_mret].
  unfold effectSwitchLogic, handleEffectSwitch, initSanta.
  repeat preserves_step progress_write.
Qed.

End ProgressInvariant.

(** X14.  The auto-pilot never leaves the path: whatever events the camera
    has seen since it was mounted, the progress along the path of the
    horses is between 0 and 1, the bounds for which the path lies in its
    box. *)
Theorem path_progress_stays_in_range `{MathLib} (es : list TimeSlice.Event) :
  0 <= TimeSlice.santaPathProgressRef (TimeSlice.run es TimeSlice.initial)
  /\ TimeSlice.santaPathProgressRef (TimeSlice.run es TimeSlice.initial) <= 1.
Proof.
  change (progressOk (TimeSlice.run es TimeSlice.initial)).
  assert (I : progressOk TimeSlice.initial) by (unfold progressOk; cbn; split; lra).
  revert I. generalize TimeSlice.initial. unfold TimeSlice.run.
  induction es as [| e es IH]; intros a I; [exact I |].
  cbn [fold_left]. apply IH. destruct e as [f | | zoom]; cbn [TimeSlice.step].
  - apply (onResults_progressOk f a I).
  - exact I.
  - exact I.
Qed.

Section FrozenSelection.
Context `{MathLib}.
Import TimeSlice.
Local Open Scope app_scope.

Lemma onResults_frozen (f : Frame) (a : App) :
  stateRef a = FROZEN ->
  exists r a',
    onResults f a = (r, a')
    /\ ((stateRef a' = FROZEN /\ rectRef a' = rectRef a
         /\ frozenCanvas a' = if sizeChanged f a then None else frozenCanvas a)
        \/ (isResetGesture f = true
            /\ stateRef a' = IDLE /\ rectRef a' = mkRect 0 0 0 0
            /\ frozenCanvas a' = None)).
Proof.
  intros S. unfold onResults.
  rewrite (mbind_run _ _ _ _ _ (resizeCanvas_run f a)).
  unfold mbind at 1. cbn [get fst snd]. unfold mbind at 1. cbn [modify].
  change (zoomLevelRef (resized f a)) with (zoomLevelRef a).
  set (a0 := set_handCountRef (handCount f) (resized f a)).
  assert (S0 : stateRef a0 = FROZEN) by exact S.
  assert (R0 : rectRef a0 = rectRef a) by reflexivity.
  assert (C0 : frozenCanvas a0 = if sizeChanged f a then None else frozenCanvas a)
    by reflexivity.
  clearbody a0.
  unfold mbind at 1. rewrite (stateMachine_frozen f _ a0 S0).
  unfold mbind at 1.
  pose proof (activeHandsOf_keeps coreOf f a0) as K1. cbv beta in K1.
  destruct (activeHandsOf f a0) as [[hs |] a1]; cbn [snd] in K1;
    unfold coreOf in K1; injection K1 as K1s K1r _ _ _ K1c _;
    [| do 2 eexists; split; [reflexivity | left; repeat split; congruence]].
  unfold mbind at 1.
  pose proof (render_keeps_core f (viewOf f (zoomLevelRef a)) hs a1) as K2. cbv beta in K2.
  destruct (render f (viewOf f (zoomLevelRef a)) hs a1) as [[ops |] a2]; cbn [snd] in K2;
    unfold coreOf in K2; injection K2 as K2s K2r _ _ _ K2c _;
    [| do 2 eexists; split; [reflexivity | left; repeat split; congruence]].
  unfold mbind at 1.
  destruct (resetLogic_spec f a2) as (a3 & E3 & _ & N & Y). rewrite E3.
  unfold mbind at 1.
  pose proof (effectSwitchLogic_keeps_selection f a3) as K4. cbv beta in K4.
  destruct (effectSwitchLogic f a3) as [[sw |] a4]; cbn [snd] in K4;
    unfold selectionOf in K4; injection K4 as K4s K4r _ K4c _; cbn [mret];
    (do 2 eexists; split; [reflexivity |]);
    (destruct (snd (dwell 1500 (isResetGesture f) (resetClock f) (resetStartTimeRef a2)))
       eqn:D;
     [ right; destruct (Y eq_refl) as (Y1 & Y2 & _ & _ & Y5);
       split; [| repeat split; congruence];
       unfold dwell in D; destruct (isResetGesture f); [reflexivity | discriminate D]
     | left; rewrite (N eq_refl) in K4s, K4r, K4c;
       cbn [set_resetStartTimeRef stateRef rectRef frozenCanvas] in K4s, K4r, K4c;
       repeat split; congruence ]).
Qed.

End FrozenSelection.

(** X15.  A frozen selection cannot be moved.  A frame that reaches a
    frozen camera, whatever hands it shows and whether or not it ends in
    an exception, leaves the camera frozen with the same rect; the frozen
    picture is kept while the canvas is displayed at the size it has, and
    is cleared by a frame that finds the display at another size.  The
    exception is a frame that shows two fists when the reset fires, which
    leaves the camera idle with a zero rect and the frozen picture
    cleared. *)
Theorem frozen_selection_is_fixed `{MathLib} (f : TimeSlice.Frame) (a : TimeSlice.App) :
  TimeSlice.stateRef a = TimeSlice.FROZEN ->
  let a' := snd (TimeSlice.onResults f a) in
  (TimeSlice.stateRef a' = TimeSlice.FROZEN
   /\ TimeSlice.rectRef a' = TimeSlice.rectRef a
   /\ TimeSlice.frozenCanvas a'
      = if Qeq_bool (TimeSlice.canvasWidth a) (TimeSlice.canvasW f)
           && Qeq_bool (TimeSlice.canvasHeight a) (TimeSlice.canvasH f)
        then TimeSlice.frozenCanvas a else None)
  \/ (TimeSlice.isResetGesture f = true
      /\ TimeSlice.stateRef a' = TimeSlice.IDLE
      /\ TimeSlice.rectRef a' = mkRect 0 0 0 0
      /\ TimeSlice.frozenCanvas a' = None).
Proof.
  intros S a'. subst a'.
  destruct (onResults_frozen f a S) as (r & a' & -> & G). cbn [snd].
  destruct G as [(G1 & G2 & G3) | G]; [left | right; exact G].
  repeat split; try assumption. rewrite G3. unfold TimeSlice.sizeChanged.
  destruct (Qeq_bool _ (TimeSlice.canvasW f)), (Qeq_bool _ (TimeSlice.canvasH f));
    reflexivity.
Qed.

Lemma frozen_selection_is_fixed_witness :
  TimeSlice.rectRef (snd (TimeSlice.onResults (H := approxMath) emptyFrame horseApp))
  = mkRect 200 150 400 300.
Proof.
  destruct (frozen_selection_is_fixed (H := approxMath) emptyFrame horseApp eq_refl)
    as [(_ & R & _) | (G & _)].
  - exact R.
  - vm_compute in G. discriminate G.
Defined.

Section Resizing.
Context `{MathLib}.
Import TimeSlice.
Local Open Scope app_scope.

Lemma box_spans (p q : Point) :
  spans (mkRect (Math_min (px p) (px q)) (Math_min (py p) (py q))
           (Math_abs (px p - px q)) (Math_abs (py p - py q))) p q.
Proof.
  unfold spans, Math_min, Math_abs. cbn [rx ry rw rh].
  split.
  - destruct (Qltb (px q) (px p)) eqn:A; [apply Qltb_lt in A | apply Qltb_ge in A];
      destruct (Qltb (px p - px q) 0) eqn:B;
      try apply Qltb_lt in B; try apply Qltb_ge in B;
      try (exfalso; lra); [right | left | left]; split; lra.
  - destruct (Qltb (py q) (py p)) eqn:A; [apply Qltb_lt in A | apply Qltb_ge in A];
      destruct (Qltb (py p - py q) 0) eqn:B;
      try apply Qltb_lt in B; try apply Qltb_ge in B;
      try (exfalso; lra); [right | left | left]; split; lra.
Qed.

Lemma stateMachine_resizing (f : Frame) (v : View) (a : App)
    (h0 h1 : NormalizedLandmarkList) (t0 t1 : Landmark) :
  stateRef a = RESIZING -> multiHandLandmarks f = Some [h0; h1] ->
  nth_error h0 8 = Some t0 -> nth_error h1 8 = Some t1 ->
  let p1 := getScreenCoord v (x t0) (y t0) in
  let p2 := getScreenCoord v (x t1) (y t1) in
  let r := rectRef a in
  rectRef (snd (stateMachine f v a))
  = (if Qeq_bool (rw r) 0 && Qeq_bool (rh r) 0
     then mkRect (Math_min (px p1) (px p2)) (Math_min (py p1) (py p2))
            (Math_abs (px p1 - px p2)) (Math_abs (py p1 - py p2))
     else mkRect (lerp (rx r) (Math_min (px p1) (px p2)) (4 # 10))
            (lerp (ry r) (Math_min (py p1) (py p2)) (4 # 10))
            (lerp (rw r) (Math_abs (px p1 - px p2)) (4 # 10))
            (lerp (rh r) (Math_abs (py p1 - py p2)) (4 # 10))).
Proof.
  intros S E E0 E1. cbv zeta.
  unfold stateMachine, bothHands, lm. rewrite E, E0, E1.
  repeat (progress (app_simpl; rewrite ?S)).
  destruct (Qeq_bool (rw (rectRef a)) 0 && Qeq_bool (rh (rectRef a)) 0);
    repeat (progress (app_simpl; rewrite ?S));
    destruct (holds (Gesture.isPinching (Some h0)) && holds (Gesture.isPinching (Some h1)));
    repeat (progress (app_simpl; rewrite ?S)); try reflexivity;
    destruct (effectModeRef a); unfold initSanta; app_simpl; reflexivity.
Qed.

End Resizing.

(** X16.  While the camera is resizing, the rect follows the two index
    fingertips.  On a frame with two hands whose index fingertips are
    detected there is a box of which the two mapped fingertips are
    opposite corners; a rect of zero width and height is set to this box,
    and any other rect moves towards it, each of x, y, width and height by
    40% of its distance. *)
Theorem resizing_rect_follows_fingertips `{MathLib} (f : TimeSlice.Frame)
    (v : TimeSlice.View) (a : TimeSlice.App) (h0 h1 : NormalizedLandmarkList)
    (t0 t1 : Landmark) :
  TimeSlice.stateRef a = TimeSlice.RESIZING ->
  TimeSlice.multiHandLandmarks f = Some [h0; h1] ->
  nth_error h0 8 = Some t0 -> nth_error h1 8 = Some t1 ->
  let r := TimeSlice.rectRef a in
  let r' := TimeSlice.rectRef (snd (TimeSlice.stateMachine f v a)) in
  exists box,
    spans box (TimeSlice.getScreenCoord v (x t0) (y t0))
              (TimeSlice.getScreenCoord v (x t1) (y t1))
    /\ (rw r == 0 /\ rh r == 0 -> r' = box)
    /\ (~ (rw r == 0 /\ rh r == 0) ->
        rx box - rx r' == (6 # 10) * (rx box - rx r)
        /\ ry box - ry r' == (6 # 10) * (ry box - ry r)
        /\ rw box - rw r' == (6 # 10) * (rw box - rw r)
        /\ rh box - rh r' == (6 # 10) * (rh box - rh r)).
Proof.
  intros S E E0 E1 r r'. subst r'.
  rewrite (stateMachine_resizing f v a h0 h1 t0 t1 S E E0 E1). cbv zeta. fold r.
  eexists. split; [apply box_spans |].
  destruct (Qeq_bool (rw r) 0) eqn:W; destruct (Qeq_bool (rh r) 0) eqn:Hh; cbn [andb].
  - split; [reflexivity |]. intro N. exfalso. apply N. split; now apply Qeq_bool_iff.
  - split.
    + intros [_ Z0]. apply Qeq_bool_iff in Z0. congruence.
    + intros _. unfold TimeSlice.lerp. cbn [rx ry rw rh]. repeat split; ring.
  - split.
    + intros [Z0 _]. apply Qeq_bool_iff in Z0. congruence.
    + intros _. unfold TimeSlice.lerp. cbn [rx ry rw rh]. repeat split; ring.
  - split.
    + intros [Z0 _]. apply Qeq_bool_iff in Z0. congruence.
    + intros _. unfold TimeSlice.lerp. cbn [rx ry rw rh]. repeat split; ring.
Qed.

Lemma resizing_rect_follows_fingertips_witness :
  exists box,
    spans box
      (TimeSlice.getScreenCoord (TimeSlice.viewOf twoOpenHands 1) (3 # 10) (2 # 10))
      (TimeSlice.getScreenCoord (TimeSlice.viewOf twoOpenHands 1) (7 # 10) (6 # 10))
    /\ rw box
       - rw (TimeSlice.rectRef
               (snd (TimeSlice.stateMachine (H := approxMath) twoOpenHands
                       (TimeSlice.viewOf twoOpenHands 1) resizingApp)))
       == (6 # 10) * (rw box - 200).
Proof.
  destruct (resizing_rect_follows_fingertips (H := approxMath) twoOpenHands
              (TimeSlice.viewOf twoOpenHands 1) resizingApp
              (handOf (fun _ => (3 # 10, 2 # 10))) (handOf (fun _ => (7 # 10, 6 # 10)))
              (mkLandmark (3 # 10) (2 # 10) 0) (mkLandmark (7 # 10) (6 # 10) 0)
              eq_refl eq_refl eq_refl eq_refl) as (box & Sp & _ & M).
  exists box. split; [exact Sp |].
  apply M. intros [Z0 _]. discriminate Z0.
Defined.

(** ** The order of the hands *)

Section HandOrder.
Import TimeSlice.

Lemma nondecreasing_cons (a : Q) (l : list Q) :
  nondecreasing (a :: l) <->
  match l with [] => True | b :: _ => a <= b end /\ nondecreasing l.
Proof. destruct l as [| b l]; cbn; tauto. Qed.

Lemma insertByX_sorted (k : Q) (h : NormalizedLandmarkList)
    (l : list (Q * NormalizedLandmarkList)) :
  nondecreasing (map fst l) -> nondecreasing (map fst (insertByX k h l)).
Proof.
  induction l as [| [k' h'] rest IH]; intro N; cbn [insertByX]; [exact I |].
  unfold Qleb. destruct (Qle_bool k k') eqn:E.
  - apply Qle_bool_iff in E. cbn [map fst] in *. split; [exact E | exact N].
  - assert (L : k' <= k).
    { destruct (Qlt_le_dec k' k) as [L | L]; [lra |].
      apply Qle_bool_iff in L. congruence. }
    cbn [map fst] in *. apply nondecreasing_cons in N. destruct N as [Hd N].
    apply nondecreasing_cons. split; [| now apply IH].
    destruct rest as [| [k'' h''] rest']; cbn [insertByX map fst]; [exact L |].
    unfold Qleb. destruct (Qle_bool k k''); cbn [map fst]; [exact L | exact Hd].
Qed.

Lemma insertByX_perm (k : Q) (h : NormalizedLandmarkList)
    (l : list (Q * NormalizedLandmarkList)) :
  Permutation ((k, h) :: l) (insertByX k h l).
Proof.
  induction l as [| [k' h'] rest IH]; cbn [insertByX]; [reflexivity |].
  destruct (Qleb k k'); [reflexivity |].
  rewrite perm_swap. now apply perm_skip.
Qed.

Lemma keyed_spec (hands : list NormalizedLandmarkList)
    (ks : list (Q * NormalizedLandmarkList)) :
  keyed hands = Some ks ->
  map snd ks = hands /\ Forall (fun kh => fst kh = x (at0 (snd kh) 8)) ks.
Proof.
  revert ks. induction hands as [| h rest IH]; intros ks E; cbn [keyed] in E.
  - injection E as <-. split; [reflexivity | constructor].
  - destruct (nth_error h 8) as [t |] eqn:T; [| discriminate E].
    destruct (keyed rest) as [ks' |]; [| discriminate E].
    injection E as <-. destruct (IH ks' eq_refl) as [M F].
    split; [cbn [map snd]; now rewrite M |].
    constructor; [| exact F]. cbn [fst snd]. unfold at0.
    now rewrite (nth_error_nth _ _ _ T).
Qed.

Lemma keyed_some (hands : list NormalizedLandmarkList) :
  Forall (fun h => (8 < length h)%nat) hands -> exists ks, keyed hands = Some ks.
Proof.
  induction 1 as [| h rest L _ [ks E]]; cbn [keyed]; [now exists [] |].
  rewrite (nth_error_nth' h (mkLandmark 0 0 0) L), E. eexists. reflexivity.
Qed.

End HandOrder.

(** X17.  In a frozen camera the hands are taken from left to right.
    [sortByX] returns the hands it was given, each as often as it was
    given, in an order in which the x of the index fingertip never
    decreases; it returns whenever every hand has an index fingertip, and
    for fewer than two hands in any case. *)
Theorem hands_are_sorted_left_to_right (hands : list NormalizedLandmarkList) :
  (forall sorted,
      TimeSlice.sortByX hands = Some sorted ->
      Permutation hands sorted
      /\ nondecreasing (map (fun h => x (at0 h 8)) sorted))
  /\ (Forall (fun h => (8 < length h)%nat) hands \/ (length hands < 2)%nat ->
      exists sorted, TimeSlice.sortByX hands = Some sorted).
Proof.
  split.
  - intros sorted E. unfold TimeSlice.sortByX in E.
    destruct hands as [| h0 [| h1 rest]];
      try (injection E as <-; split; [reflexivity | exact I]).
    destruct (TimeSlice.keyed (h0 :: h1 :: rest)) as [ks |] eqn:K; [| discriminate E].
    cbn [option_map] in E. injection E as <-.
    destruct (keyed_spec _ _ K) as [M F]. rewrite <- M. clear K M.
    induction ks as [| [k h] ks IH]; [split; [reflexivity | exact I] |].
    inversion F as [| ? ? Fk F']; subst. cbn [fst snd] in Fk.
    destruct (IH F') as [P N]. cbn [fold_right fst snd map].
    set (done := fold_right (fun kh acc => TimeSlice.insertByX (fst kh) (snd kh) acc) [] ks)
      in *.
    assert (Fd : Forall (fun kh => fst kh = x (at0 (snd kh) 8)) done).
    { unfold done. clear - F'. induction F' as [| [k' h'] ks' Fk' _ IH']; [constructor |].
      cbn [fold_right fst snd].
      eapply Permutation_Forall; [apply insertByX_perm |].
      constructor; assumption. }
    assert (Fi : Forall (fun kh => fst kh = x (at0 (snd kh) 8))
                   (TimeSlice.insertByX k h done)).
    { eapply Permutation_Forall; [apply insertByX_perm |]. constructor; assumption. }
    assert (Keys : forall l, Forall (fun kh => fst kh = x (at0 (snd kh) 8)) l ->
                     map (fun h => x (at0 h 8)) (map snd l) = map fst l).
    { clear. induction 1 as [| [k' h'] l E _ IH]; [reflexivity |].
      cbn [map fst snd] in *. now rewrite IH, E. }
    split.
    + transitivity (map snd ((k, h) :: done)).
      * cbn [map snd]. now apply perm_skip.
      * apply Permutation_map, insertByX_perm.
    + rewrite (Keys _ Fi). apply insertByX_sorted. now rewrite <- (Keys _ Fd).
  - intros [F | L]; unfold TimeSlice.sortByX.
    + destruct hands as [| h0 [| h1 rest]]; try (eexists; reflexivity).
      destruct (keyed_some _ F) as [ks ->]. eexists. reflexivity.
    + destruct hands as [| h0 [| h1 rest]]; try (eexists; reflexivity).
      cbn in L. lia.
Qed.

Lemma hands_are_sorted_left_to_right_witness :
  exists sorted,
    TimeSlice.sortByX [pointAndPinch (7 # 10); pointAndPinch (3 # 10)] = Some sorted
    /\ nondecreasing (map (fun h => x (at0 h 8)) sorted).
Proof.
  destruct (hands_are_sorted_left_to_right
              [pointAndPinch (7 # 10); pointAndPinch (3 # 10)]) as [Ord Ret].
  destruct Ret as [sorted E].
  - left. repeat constructor; cbn; lia.
  - exists sorted. split; [exact E | apply (Ord sorted E)].
Defined.

(** ** The effect switch *)

(** X18.  The victory sign cycles through all seven effects: from any
    effect, every effect is reached by at most six switches, and the
    seventh switch is back at the start. *)
Theorem effect_switch_cycles_through_all (m m' : TimeSlice.EffectMode) :
  (exists k, (k <= 6)%nat /\ Nat.iter k TimeSlice.nextMode m = m')
  /\ Nat.iter 7 TimeSlice.nextMode m = m
  /\ forall k, (0 < k < 7)%nat -> Nat.iter k TimeSlice.nextMode m <> m.
Proof.
  split; [| split].
  - destruct m, m';
      first [ exists 0%nat; split; [lia | reflexivity]
            | exists 1%nat; split; [lia | reflexivity]
            | exists 2%nat; split; [lia | reflexivity]
            | exists 3%nat; split; [lia | reflexivity]
            | exists 4%nat; split; [lia | reflexivity]
            | exists 5%nat; split; [lia | reflexivity]
            | exists 6%nat; split; [lia | reflexivity] ].
  - destruct m; reflexivity.
  - intros k K. do 7 (destruct k as [| k]; [try lia; destruct m; discriminate |]). lia.
Qed.

(** ** The catch game's engine *)

Lemma last_default_any {A} (x c d : A) (l : list A) : last (x :: l) c = last (x :: l) d.
Proof.
  revert x. induction l as [|y l IH]; intros x; [reflexivity|].
  change (last (y :: l) c = last (y :: l) d). apply IH.
Qed.

Lemma last_app_any {A} (l1 l2 : list A) (d : A) :
  last (l1 ++ l2) d = last l2 (last l1 d).
Proof.
  revert d. induction l1 as [|a l1 IH]; intros d; [reflexivity|].
  destruct l1 as [|b l1].
  - cbn [app]. destruct l2 as [|b l2]; [reflexivity|].
    change (last (b :: l2) d = last (b :: l2) a). apply last_default_any.
  - change (last ((b :: l1) ++ l2) d = last l2 (last (b :: l1) d)). apply IH.
Qed.

Lemma put_length {A} (i : nat) (v : A) (l : list A) :
  (i < length l)%nat -> length (ARGameEngine.put i v l) = length l.
Proof.
  intros L. unfold ARGameEngine.put.
  rewrite length_app. cbn [length]. rewrite length_firstn, length_skipn. lia.
Qed.

Lemma splice_length {A} (i : nat) (l : list A) :
  (i < length l)%nat -> S (length (ARGameEngine.splice i l)) = length l.
Proof.
  intros L. unfold ARGameEngine.splice.
  rewrite length_app, length_firstn, length_skipn. lia.
Qed.

Lemma hits_app (a b : list ARGameEngine.Effect) :
  ARGameEngine.hits (a ++ b) = (ARGameEngine.hits a + ARGameEngine.hits b)%nat.
Proof. unfold ARGameEngine.hits. rewrite filter_app, length_app. reflexivity. Qed.

Lemma reported_app (a b : list ARGameEngine.Effect) :
  ARGameEngine.reported (a ++ b) = ARGameEngine.reported a ++ ARGameEngine.reported b.
Proof. unfold ARGameEngine.reported. apply flat_map_app. Qed.

Section EngineFacts.
Context `{MathLib}.
Import ARGameEngine.

Lemma boundary_quiet (c : GameConfig) (w h : Q) (t : Target) :
  hits (snd (boundary c w h t)) = 0%nat /\ reported (snd (boundary c w h t)) = [].
Proof.
  unfold boundary.
  destruct (_ || _ || _ || _); cbn [snd]; [|split; reflexivity].
  destruct (_ && _ && _); split; reflexivity.
Qed.

(** One visit either destroys its target for 100 points, which it
    reports, or leaves the score alone and reports nothing. *)
Lemma visit_cases (k : Tick) (hands : list Hand) (t : Target) (s : Z) :
  (exists v, interactingHand (radius t + cursorSize k + 50) t hands = Some v /\ v < - (8)
     /\ exists x y l, visit k hands t s = (None, (s + 100)%Z, [ScoreUpdate (s + 100); Explosion x y l]))
  \/ (fst (fst (visit k hands t s)) = fst (boundary (config k) (width k) (height k)
        match interactingHand (radius t + cursorSize k + 50) t hands with
        | Some _ => set_isLocked true t
        | None => move (config k) (now k) (set_isLocked false t)
        end)
      /\ snd (fst (visit k hands t s)) = s
      /\ hits (snd (visit k hands t s)) = 0%nat
      /\ reported (snd (visit k hands t s)) = []
      /\ forall v, interactingHand (radius t + cursorSize k + 50) t hands = Some v -> - (8) <= v).
Proof.
  unfold visit.
  destruct (interactingHand _ t hands) as [v|] eqn:I.
  - destruct (Qltb v (- (8))) eqn:F.
    + left. exists v. split; [reflexivity|]. split; [apply Qltb_lt; exact F|].
      eexists _, _, _. reflexivity.
    + right.
      pose proof (boundary_quiet (config k) (width k) (height k) (set_isLocked true t)) as [B1 B2].
      destruct (boundary _ _ _ _) as [r e]. cbn [fst snd] in *.
      repeat split; try assumption.
      intros v' E. injection E as <-. apply Qltb_ge. exact F.
  - right.
    pose proof (boundary_quiet (config k) (width k) (height k)
                  (move (config k) (now k) (set_isLocked false t))) as [B1 B2].
    destruct (boundary _ _ _ _) as [r e]. cbn [fst snd] in *.
    repeat split; try assumption. intros v' E. discriminate E.
Qed.

Lemma forEachFrom_step (todo index : nat) (k : Tick) (hands : list Hand)
    (targets : list Target) (s : Z) (t : Target) :
  nth_error targets index = Some t ->
  forEachFrom (S todo) index k hands targets s =
    (let out := visit k hands t s in
     let rest := forEachFrom todo (S index) k hands
                   match fst (fst out) with
                   | Some t' => put index t' targets
                   | None => splice index targets
                   end (snd (fst out)) in
     (fst (fst rest), snd (fst rest), snd out ++ snd rest)).
Proof.
  intros N. cbn [forEachFrom]. rewrite N.
  destruct (visit k hands t s) as [[r s'] e]. cbn [fst snd].
  destruct (forEachFrom todo (S index) k hands _ s') as [[t2 s2] e2]. reflexivity.
Qed.

Lemma forEachFrom_accounts (todo index : nat) (k : Tick) (hands : list Hand)
    (targets : list Target) (s : Z) :
  let out := forEachFrom todo index k hands targets s in
  snd (fst out) = (s + 100 * Z.of_nat (hits (snd out)))%Z
  /\ (length (fst (fst out)) + hits (snd out) <= length targets)%nat
  /\ last (reported (snd out)) s = snd (fst out).
Proof.
  revert index targets s. induction todo as [|todo IH]; intros index targets s.
  - cbn. repeat split; try lia.
  - destruct (nth_error targets index) as [t|] eqn:N.
    2:{ cbn [forEachFrom]. rewrite N. cbn. repeat split; try lia. }
    assert (L : (index < length targets)%nat)
      by (apply nth_error_Some; rewrite N; discriminate).
    rewrite (forEachFrom_step _ _ _ _ _ _ _ N). cbv zeta. cbn [fst snd].
    destruct (visit_cases k hands t s) as [(v & _ & _ & x & y & l & V)|(R & S1 & H1 & H2 & _)].
    + rewrite V. cbn [fst snd].
      specialize (IH (S index) (splice index targets) (s + 100)%Z). cbv zeta in IH.
      destruct IH as (A & B & C).
      pose proof (splice_length index targets L) as SL.
      rewrite hits_app, reported_app, last_app_any.
      change (hits [ScoreUpdate (s + 100); Explosion x y l]) with 1%nat.
      change (last (reported [ScoreUpdate (s + 100); Explosion x y l]) s) with (s + 100)%Z.
      repeat split; try lia; try exact C.
    + rewrite hits_app, reported_app, last_app_any, H1, H2, S1. cbn [last].
      set (targets' := match fst (fst (visit k hands t s)) with
                       | Some t' => put index t' targets
                       | None => splice index targets
                       end).
      assert (LT : (length targets' <= length targets)%nat).
      { subst targets'. destruct (fst (fst (visit k hands t s))).
        - rewrite put_length by exact L. lia.
        - pose proof (splice_length index targets L). lia. }
      specialize (IH (S index) targets' s). cbv zeta in IH.
      destruct IH as (A & B & C).
      repeat split; try lia; try exact C.
Qed.

Lemma interactingHand_harmless (d : Q) (t : Target) (hands : list Hand) (v : Q) :
  Forall harmless hands -> interactingHand d t hands = Some v -> - (8) <= v.
Proof.
  induction 1 as [|h hands Hh _ IH]; cbn [interactingHand]; [discriminate|].
  destruct (isActive h) eqn:A; cbn [negb]; [|exact IH].
  destruct (Qltb _ d); [|exact IH].
  intros E. injection E as <-. destruct Hh as [Hh|Hh]; [congruence|exact Hh].
Qed.

Lemma forEachFrom_harmless (todo index : nat) (k : Tick) (hands : list Hand)
    (targets : list Target) (s : Z) :
  Forall harmless hands ->
  let out := forEachFrom todo index k hands targets s in
  snd (fst out) = s /\ hits (snd out) = 0%nat /\ reported (snd out) = [].
Proof.
  intros Hh. revert index targets s. induction todo as [|todo IH]; intros index targets s.
  - cbn. repeat split.
  - destruct (nth_error targets index) as [t|] eqn:N.
    2:{ cbn [forEachFrom]. rewrite N. cbn. repeat split. }
    rewrite (forEachFrom_step _ _ _ _ _ _ _ N). cbv zeta. cbn [fst snd].
    destruct (visit_cases k hands t s) as [(v & I & F & _)|(_ & S1 & H1 & H2 & _)].
    + pose proof (interactingHand_harmless _ _ _ _ Hh I). lra.
    + rewrite hits_app, reported_app, H1, H2, S1.
      match goal with |- context [forEachFrom todo (S index) k hands ?ts s] =>
        specialize (IH (S index) ts s) end.
      cbv zeta in IH. destruct IH as (A & B & C).
      rewrite A, B, C. repeat split.
Qed.

(** The loop leaves the targets in front of its index alone. *)
Lemma forEachFrom_front (todo index : nat) (k : Tick) (hands : list Hand)
    (targets : list Target) (s : Z) :
  firstn index (fst (fst (forEachFrom todo index k hands targets s))) = firstn index targets.
Proof.
  revert index targets s. induction todo as [|todo IH]; intros index targets s; [reflexivity|].
  destruct (nth_error targets index) as [t|] eqn:N.
  2:{ cbn [forEachFrom]. rewrite N. reflexivity. }
  assert (L : (index < length targets)%nat)
    by (apply nth_error_Some; rewrite N; discriminate).
  rewrite (forEachFrom_step _ _ _ _ _ _ _ N). cbv zeta. cbn [fst snd].
  match goal with |- context [forEachFrom todo (S index) k hands ?ts ?s'] =>
    specialize (IH (S index) ts s'); set (ts' := ts) in * end.
  assert (F : firstn index ts' = firstn index targets).
  { subst ts'. destruct (fst (fst (visit k hands t s))); unfold put, splice;
      rewrite firstn_app, firstn_firstn, length_firstn;
      replace (index - Nat.min index (length targets))%nat with 0%nat by lia;
      rewrite Nat.min_id; cbn [firstn]; apply app_nil_r. }
  assert (X : forall l : list Target, firstn index l = firstn index (firstn (S index) l))
    by (intros l; rewrite firstn_firstn, Nat.min_l by lia; reflexivity).
  rewrite X, IH, <- X. exact F.
Qed.

Lemma handPositionsFrom_fresh (index : nat) (hands : list NormalizedLandmarkList)
    (w h : Q) (l : list Hand) :
  handPositionsFrom index hands w h [] = Some l -> Forall harmless l.
Proof.
  revert index l. induction hands as [|lm hands IH]; intros index l; cbn [handPositionsFrom].
  - intros E. injection E as <-. constructor.
  - destruct (nth_error lm 8) as [i|]; [|discriminate].
    destruct (nth_error lm 4) as [t|]; [|discriminate].
    destruct (handPositionsFrom (S index) hands w h []) as [l'|] eqn:E; [|discriminate].
    cbn [option_map]. intros E'. injection E' as <-.
    constructor; [|exact (IH _ _ E)].
    right. cbn [hvy]. destruct index; cbn [nth_error]; apply Qle_bool_iff; reflexivity.
Qed.

Lemma updateGameEngine_out (k : Tick) (g : Game) :
  let spawn := Qgtb (inject_Z (now k - lastSpawnTimeRef g)) (spawnRate (config k)) in
  let targets := if spawn then targetsRef g ++ [spawned k] else targetsRef g in
  let out := forEachFrom (length targets) 0 k (handPositionsRef g) targets (scoreRef g) in
  targetsRef (fst (updateGameEngine k g)) = fst (fst out)
  /\ scoreRef (fst (updateGameEngine k g)) = snd (fst out)
  /\ snd (updateGameEngine k g) = snd out
  /\ handPositionsRef (fst (updateGameEngine k g)) = handPositionsRef g.
Proof.
  cbv zeta. unfold updateGameEngine.
  destruct (forEachFrom _ 0 k _ _ _) as [[t s] e]. cbn. repeat split.
Qed.

Lemma step_reports (e : Event) (g : Game) :
  last (reported (snd (step e g))) (scoreRef g) = scoreRef (fst (step e g)).
Proof.
  destruct e as [r k|[|]|t]; cbn [step]; try reflexivity.
  unfold onResults.
  destruct (handPositions r (width k) (height k) (prevHandPositionsRef g)) as [l|];
    [|reflexivity].
  destruct (gameActiveRef g); [|reflexivity].
  match goal with |- context [updateGameEngine k ?g1] =>
    destruct (updateGameEngine_out k g1) as (_ & S1 & E1 & _); set (g' := g1) in * end.
  rewrite S1, E1.
  match goal with |- context [forEachFrom ?n 0 k ?hs ?ts ?s] =>
    destruct (forEachFrom_accounts n 0 k hs ts s) as (_ & _ & C) end.
  exact C.
Qed.

Lemma run_reports (es : list Event) (g : Game) :
  last (reported (snd (run es g))) (scoreRef g) = scoreRef (fst (run es g)).
Proof.
  revert g. induction es as [|e es IH]; intros g; [reflexivity|].
  cbn [run]. pose proof (step_reports e g) as S1.
  destruct (step e g) as [g1 a1]. cbn [fst snd] in S1.
  specialize (IH g1). destruct (run es g1) as [g2 a2]. cbn [fst snd] in *.
  rewrite reported_app, last_app_any, S1. exact IH.
Qed.

End EngineFacts.

(** X19.  One frame of the catch game's engine pays 100 points for each
    target it destroys and for nothing else: the score grows by 100 times
    the number of explosions, and the targets left plus the targets
    destroyed are at most the targets there were, with the one spawned in
    this frame. *)
Theorem each_hit_removes_its_target `{MathLib} (k : ARGameEngine.Tick) (g : ARGameEngine.Game) :
  let out := ARGameEngine.updateGameEngine k g in
  let destroyed := ARGameEngine.hits (snd out) in
  ARGameEngine.scoreRef (fst out) = (ARGameEngine.scoreRef g + 100 * Z.of_nat destroyed)%Z
  /\ (length (ARGameEngine.targetsRef (fst out)) + destroyed
        <= length (ARGameEngine.targetsRef g) + 1)%nat
  /\ (inject_Z (ARGameEngine.now k - ARGameEngine.lastSpawnTimeRef g)
        <= ARGameEngine.spawnRate (ARGameEngine.config k) ->
      (length (ARGameEngine.targetsRef (fst out)) + destroyed
        <= length (ARGameEngine.targetsRef g))%nat).
Proof.
  cbv zeta.
  destruct (updateGameEngine_out k g) as (T & S1 & E & _). cbv zeta in T, S1, E.
  rewrite T, S1, E.
  match goal with |- context [ARGameEngine.forEachFrom ?n 0 k ?hs ?ts ?s] =>
    destruct (ARGameEngine.forEachFrom n 0 k hs ts s) as [[t' s'] e'] eqn:F;
    pose proof (forEachFrom_accounts n 0 k hs ts s) as A end.
  cbv zeta in A. rewrite F in A. cbn [fst snd] in *. destruct A as (A & B & _).
  split; [exact A|]. split.
  - destruct (Qgtb _ _); [rewrite length_app in B; cbn [length] in B|]; lia.
  - intros Q. apply Qltb_ge in Q. unfold Qgtb in B. rewrite Q in B. exact B.
Qed.

(** X20.  The score the page was last told is the score of the game: over
    any sequence of camera frames, starts and stops of the game and targets
    pushed by the launch timers, from the mounted component, the last
    value passed to [onScoreUpdate] is the score held by the engine (0 if
    none was passed). *)
Theorem reported_score_is_current `{MathLib} (es : list ARGameEngine.Event) :
  let out := ARGameEngine.run es ARGameEngine.mounted in
  ARGameEngine.scoreRef (fst out) = last (ARGameEngine.reported (snd out)) 0%Z.
Proof. cbv zeta. symmetry. apply (run_reports es ARGameEngine.mounted). Qed.

(** X21.  Only an upward flick scores: in a frame of the engine in which
    every hand either does not make the gun gesture or does not move up by
    more than 8 pixels, the score stays, no target explodes and no score
    is reported. *)
Theorem only_a_flick_scores `{MathLib} (k : ARGameEngine.Tick) (g : ARGameEngine.Game) :
  Forall ARGameEngine.harmless (ARGameEngine.handPositionsRef g) ->
  let out := ARGameEngine.updateGameEngine k g in
  ARGameEngine.scoreRef (fst out) = ARGameEngine.scoreRef g
  /\ ARGameEngine.hits (snd out) = 0%nat
  /\ ARGameEngine.reported (snd out) = [].
Proof.
  intros Hh. cbv zeta.
  destruct (updateGameEngine_out k g) as (_ & S1 & E & _). cbv zeta in S1, E.
  rewrite S1, E. apply forEachFrom_harmless. exact Hh.
Qed.

(** X22.  A hand scores at the earliest in the second frame it is seen:
    when the frame before had no hand, the camera frame leaves the score
    as it is and destroys no target, whatever the hands of this frame
    are. *)
Theorem first_sight_never_scores `{MathLib}
    (r : option (list NormalizedLandmarkList)) (k : ARGameEngine.Tick) (g : ARGameEngine.Game) :
  ARGameEngine.prevHandPositionsRef g = [] ->
  let out := ARGameEngine.step (ARGameEngine.Results r k) g in
  ARGameEngine.scoreRef (fst out) = ARGameEngine.scoreRef g
  /\ ARGameEngine.hits (snd out) = 0%nat.
Proof.
  intros P. cbv zeta. cbn [ARGameEngine.step]. unfold ARGameEngine.onResults. rewrite P.
  destruct (ARGameEngine.handPositions r _ _ []) as [l|] eqn:E; [|split; reflexivity].
  destruct (ARGameEngine.gameActiveRef g); [|split; reflexivity].
  assert (Hh : Forall ARGameEngine.harmless l).
  { destruct r as [hands|]; cbn [ARGameEngine.handPositions] in E.
    - exact (handPositionsFrom_fresh _ _ _ _ _ E).
    - injection E as <-. constructor. }
  match goal with |- context [ARGameEngine.updateGameEngine k ?g1] =>
    destruct (updateGameEngine_out k g1) as (_ & S1 & E1 & _); set (g' := g1) in * end.
  cbv zeta in S1, E1. rewrite S1, E1.
  match goal with |- context [ARGameEngine.forEachFrom ?n 0 k ?hs ?ts ?s] =>
    destruct (forEachFrom_harmless n 0 k hs ts s Hh) as (A & B & _) end.
  split; assumption.
Qed.

(** X23.  Removing a target inside the loop makes the loop pass over the
    next one: when the first target is flicked away, the second target is
    the first of the array after the frame, exactly as it was, neither
    moved nor tested against the hands or the bounds. *)
Theorem flick_freezes_the_next_target `{MathLib} (k : ARGameEngine.Tick) (g : ARGameEngine.Game)
    (t1 t2 : ARGameEngine.Target) (rest : list ARGameEngine.Target) (v : Q) :
  ARGameEngine.targetsRef g = t1 :: t2 :: rest ->
  ARGameEngine.interactingHand
    (ARGameEngine.radius t1 + ARGameEngine.cursorSize k + 50) t1
    (ARGameEngine.handPositionsRef g) = Some v ->
  v < - (8) ->
  exists rest',
    ARGameEngine.targetsRef (fst (ARGameEngine.updateGameEngine k g)) = t2 :: rest'.
Proof.
  intros T I F.
  destruct (updateGameEngine_out k g) as (T1 & _). cbv zeta in T1. rewrite T1, T.
  set (targets := if Qgtb _ _ then _ else _).
  assert (exists tl, targets = t1 :: t2 :: tl) as [tl ->].
  { subst targets. destruct (Qgtb _ _); eexists; reflexivity. }
  cbn [length].
  rewrite (forEachFrom_step _ 0 k _ (t1 :: t2 :: tl) _ t1 eq_refl). cbv zeta. cbn [fst snd].
  destruct (visit_cases k (ARGameEngine.handPositionsRef g) t1 (ARGameEngine.scoreRef g))
    as [(v' & _ & _ & x & y & l & V)|(_ & _ & _ & _ & N)].
  2:{ specialize (N v I). lra. }
  rewrite V. cbn [fst snd ARGameEngine.splice firstn skipn app].
  match goal with |- context [ARGameEngine.forEachFrom ?n 1 k ?hs ?ts ?s] =>
    pose proof (forEachFrom_front n 1 k hs ts s) as Fr;
    destruct (ARGameEngine.forEachFrom n 1 k hs ts s) as [[t' s'] e'] end.
  cbn [fst snd firstn] in *.
  destruct t' as [|a t']; [discriminate Fr|].
  injection Fr as ->. exists t'. reflexivity.
Qed.

Lemma only_a_flick_scores_witness :
  let out := ARGameEngine.updateGameEngine (H := approxMath) ballTick
               (playing [ball 100 100] [gun 100 100 (- (8))]) in
  ARGameEngine.scoreRef (fst out) = 0%Z
  /\ ARGameEngine.hits (snd out) = 0%nat
  /\ ARGameEngine.reported (snd out) = [].
Proof.
  apply (only_a_flick_scores (H := approxMath) ballTick
           (playing [ball 100 100] [gun 100 100 (- (8))])).
  constructor; [|constructor].
  right. apply Qle_bool_iff. reflexivity.
Defined.

Lemma first_sight_never_scores_witness :
  let out := ARGameEngine.step (H := approxMath)
               (ARGameEngine.Results (Some [gunHand]) ballTick)
               (playing [ball 128 72] []) in
  ARGameEngine.scoreRef (fst out) = 0%Z /\ ARGameEngine.hits (snd out) = 0%nat.
Proof.
  apply (first_sight_never_scores (H := approxMath)
           (Some [gunHand]) ballTick (playing [ball 128 72] [])).
  reflexivity.
Defined.

Lemma flick_freezes_the_next_target_witness :
  exists rest',
    ARGameEngine.targetsRef
      (fst (ARGameEngine.updateGameEngine (H := approxMath) ballTick
              (playing [ball 100 100; ball 110 100] [gun 100 100 (- (20))])))
    = ball 110 100 :: rest'.
Proof.
  apply (flick_freezes_the_next_target (H := approxMath) ballTick
           (playing [ball 100 100; ball 110 100] [gun 100 100 (- (20))])
           (ball 100 100) (ball 110 100) [] (- (20))).
  - reflexivity.
  - vm_compute. reflexivity.
  - reflexivity.
Defined.

(** In that frame both balls are under the flicking hand; the one that
    follows the destroyed ball is kept and not even locked, and the frame
    scores once. *)
Example two_balls_under_one_flick :
  let out := ARGameEngine.updateGameEngine (H := approxMath) ballTick
               (playing [ball 100 100; ball 110 100] [gun 100 100 (- (20))]) in
  ARGameEngine.targetsRef (fst out) = [ball 110 100]
  /\ ARGameEngine.scoreRef (fst out) = 100%Z.
Proof. vm_compute. split; reflexivity. Qed.

Lemma smoothstep_unit (f : Q) :
  0 <= f -> f < 1 -> 0 <= f * f * (3 - 2 * f) /\ f * f * (3 - 2 * f) <= 1.
Proof.
  intros A B.
  assert (0 <= f * f) by nra.
  assert (0 <= (1 - f) * (1 - f)) by nra.
  assert (0 <= f * f * (3 - 2 * f)) by (apply Qmult_le_0_compat; lra).
  assert (0 <= (1 - f) * (1 - f) * (1 + 2 * f)) by (apply Qmult_le_0_compat; lra).
  split; [assumption|].
  setoid_replace (f * f * (3 - 2 * f)) with (1 - (1 - f) * (1 - f) * (1 + 2 * f)) by ring.
  lra.
Qed.

Lemma fraction_unit (v : Q) : 0 <= v - inject_Z (Qfloor v) /\ v - inject_Z (Qfloor v) < 1.
Proof.
  pose proof (Qfloor_le v). pose proof (Qlt_floor v) as L.
  rewrite inject_Z_plus in L. change (inject_Z 1) with 1 in L. split; lra.
Qed.

(** X24.  The value noise that shapes the petals is a number from 0 up to,
    but not reaching, 1, for every position and seed. *)
Theorem noise_in_unit_interval `{MathLib} (x seed : Q) :
  0 <= ARGameEngine.noise x seed /\ ARGameEngine.noise x seed < 1.
Proof.
  unfold ARGameEngine.noise, ARGameEngine.hash. cbv zeta.
  pose proof (fraction_unit x) as [F0 F1].
  set (f := x - inject_Z (Qfloor x)) in *.
  pose proof (smoothstep_unit f F0 F1) as [W0 W1].
  set (w := f * f * (3 - 2 * f)) in *.
  match goal with |- 0 <= ?a * _ + ?b * _ /\ _ =>
    pose proof (fraction_unit (Math_sin (inject_Z (Qfloor x) * (129898 # 10000) + seed)
                               * (437585453 # 10000))) as [A0 A1];
    pose proof (fraction_unit (Math_sin ((inject_Z (Qfloor x) + 1) * (129898 # 10000) + seed)
                               * (437585453 # 10000))) as [B0 B1];
    set (a' := a) in *; set (b' := b) in * end.
  clearbody a' b' w. clear f F0 F1.
  assert (0 <= a' * (1 - w)) by (apply Qmult_le_0_compat; lra).
  assert (0 <= b' * w) by (apply Qmult_le_0_compat; lra).
  split; [lra|].
  destruct (Qlt_le_dec 0 w) as [P|P].
  - assert (0 < (1 - b') * w) by (apply Qmult_lt_0_compat; lra).
    assert (0 <= (1 - a') * (1 - w)) by (apply Qmult_le_0_compat; lra).
    lra.
  - assert (0 <= (1 - b') * w) by (apply Qmult_le_0_compat; lra).
    assert (0 < (1 - a') * (1 - w)) by (apply Qmult_lt_0_compat; lra).
    lra.
Qed.

(** ** The pixel grid's particles *)

Lemma upTo_In (n z : Z) : In z (PixelGrid.upTo n) -> (0 <= z < n)%Z.
Proof.
  unfold PixelGrid.upTo. intros I. apply in_map_iff in I as (k & <- & I).
  apply in_seq in I. lia.
Qed.

(** A cell that fits [n] times into [w] has its centre [c] at least
    [c] and at most [c] pixels from the ends of the floored [w]. *)
Lemma cell_centre (w : Q) (z : Z) :
  (0 <= z < Qfloor (w / 12))%Z ->
  let c := (12 * z + 6)%Z in
  Math_min (Math_max (inject_Z (Qfloor (inject_Z z * 12 + 12 / 2))) 0) (w - 1) = inject_Z c
  /\ (6 <= c <= Qfloor w - 6)%Z
  /\ inject_Z z * 12 + 12 <= w.
Proof.
  intros [Z0 Z1]. cbv zeta.
  assert (E : inject_Z z * 12 + 12 / 2 == inject_Z (12 * z + 6)).
  { rewrite inject_Z_plus, inject_Z_mult. change (inject_Z 12) with 12.
    change (inject_Z 6) with 6. field. }
  rewrite E, Qfloor_Z.
  assert (W : inject_Z (z + 1) * 12 <= w).
  { assert (A : inject_Z (z + 1) <= inject_Z (Qfloor (w / 12)))
      by (rewrite <- Zle_Qle; lia).
    pose proof (Qfloor_le (w / 12)) as B.
    assert (C : w / 12 == (1 # 12) * w) by field.
    assert (D : inject_Z (z + 1) <= (1 # 12) * w)
      by (rewrite <- C; eapply Qle_trans; eassumption).
    lra. }
  rewrite inject_Z_plus in W. change (inject_Z 1) with 1 in W.
  assert (F : (12 * z + 12 <= Qfloor w)%Z).
  { rewrite <- (Qfloor_Z (12 * z + 12)). apply Qfloor_resp_le.
    rewrite inject_Z_plus, inject_Z_mult. change (inject_Z 12) with 12. lra. }
  assert (P : 0 <= inject_Z z) by (change 0 with (inject_Z 0); rewrite <- Zle_Qle; lia).
  assert (C6 : inject_Z (12 * z + 6) == inject_Z z * 12 + 6).
  { rewrite inject_Z_plus, inject_Z_mult. change (inject_Z 12) with 12.
    change (inject_Z 6) with 6. ring. }
  split; [|split; [lia|lra]].
  unfold Math_min, Math_max.
  assert (M : Qltb (inject_Z (12 * z + 6)) 0 = false) by (apply Qltb_ge; lra).
  rewrite M.
  assert (N : Qltb (w - 1) (inject_Z (12 * z + 6)) = false) by (apply Qltb_ge; lra).
  rewrite N. reflexivity.
Qed.

(** X25.  Every particle of the pixel grid reads a pixel of the region it
    was made for: its pixel index is four times the index of a pixel that
    lies at least six pixels inside the floored rectangle, so it passes
    the test of the renderer against the length of the region's data; and
    the particle rests at its origin, a cell of 12 pixels inside the
    rectangle. *)
Theorem particles_address_pixels_of_the_region (r : Rect) (p : PixelGrid.Particle) :
  In p (PixelGrid.initParticles r) ->
  exists col row : Z,
    (6 <= col <= Qfloor (rw r) - 6)%Z /\ (6 <= row <= Qfloor (rh r) - 6)%Z
    /\ PixelGrid.pixelIdx p == inject_Z (4 * (row * Qfloor (rw r) + col))
    /\ PixelGrid.pixelIdx p < inject_Z (PixelGrid.roiLength r) - 4
    /\ rx r <= PixelGrid.originX p /\ PixelGrid.originX p + 12 <= rx r + rw r
    /\ ry r <= PixelGrid.originY p /\ PixelGrid.originY p + 12 <= ry r + rh r
    /\ PixelGrid.x p = PixelGrid.originX p /\ PixelGrid.y p = PixelGrid.originY p
    /\ PixelGrid.vx p = 0 /\ PixelGrid.vy p = 0.
Proof.
  unfold PixelGrid.initParticles. cbv zeta. intros I.
  apply in_flat_map in I as (yz & Iy & I).
  apply in_map_iff in I as (xz & <- & Ix).
  apply upTo_In in Ix, Iy.
  destruct (cell_centre (rw r) xz Ix) as (EX & BX & WX).
  destruct (cell_centre (rh r) yz Iy) as (EY & BY & WY).
  cbv zeta in EX, EY.
  exists (12 * xz + 6)%Z, (12 * yz + 6)%Z.
  cbn [PixelGrid.pixelIdx PixelGrid.originX PixelGrid.originY PixelGrid.x PixelGrid.y
       PixelGrid.vx PixelGrid.vy].
  rewrite EX, EY.
  assert (P : (inject_Z (12 * yz + 6) * inject_Z (Qfloor (rw r)) + inject_Z (12 * xz + 6)) * 4
              == inject_Z (4 * ((12 * yz + 6) * Qfloor (rw r) + (12 * xz + 6)))).
  { repeat (rewrite inject_Z_mult || rewrite inject_Z_plus).
    change (inject_Z 4) with 4. ring. }
  assert (X0 : 0 <= inject_Z xz) by (change 0 with (inject_Z 0); rewrite <- Zle_Qle; lia).
  assert (Y0 : 0 <= inject_Z yz) by (change 0 with (inject_Z 0); rewrite <- Zle_Qle; lia).
  repeat split; try lia; try lra; try exact P.
  rewrite P. unfold PixelGrid.roiLength.
  match goal with |- _ < inject_Z ?L - 4 =>
    setoid_replace (inject_Z L - 4) with (inject_Z (L - 4))
      by (unfold Qminus, Z.sub; rewrite inject_Z_plus, inject_Z_opp; reflexivity) end.
  rewrite <- Zlt_Qlt. nia.
Qed.

Lemma particles_address_pixels_of_the_region_witness :
  exists col row : Z,
    (6 <= col <= 30 - 6)%Z /\ (6 <= row <= 25 - 6)%Z
    /\ PixelGrid.pixelIdx (nth 3 (PixelGrid.initParticles (mkRect 100 50 (61 # 2) 25))
                              (PixelGrid.mkParticle 0 0 0 0 0 0 0))
       == inject_Z (4 * (row * 30 + col)).
Proof.
  destruct (particles_address_pixels_of_the_region (mkRect 100 50 (61 # 2) 25)
              (nth 3 (PixelGrid.initParticles (mkRect 100 50 (61 # 2) 25))
                     (PixelGrid.mkParticle 0 0 0 0 0 0 0)))
    as (col & row & A & B & C & _).
  - apply nth_In. vm_compute. lia.
  - exists col, row. exact (conj A (conj B C)).
Defined.

(** ** The flipping tiles *)

Lemma total_app (a b : list Q) : total (a ++ b) == total a + total b.
Proof.
  unfold total. induction a as [|q a IH]; cbn [app fold_right].
  - ring.
  - rewrite IH. ring.
Qed.

Lemma strides_In (fuel : nat) (from limit v : Q) :
  In v (Slice3D.strides fuel from limit) -> from <= v /\ v < limit.
Proof.
  revert from. induction fuel as [|fuel IH]; intros from; cbn [Slice3D.strides]; [intros []|].
  destruct (Qltb from limit) eqn:L; [|intros []].
  apply Qltb_lt in L. intros [<-|I].
  - split; [apply Qle_refl|exact L].
  - apply IH in I. unfold Slice3D.gridSize in I. split; lra.
Qed.

(** With enough fuel the loop ends by its test, and the strides it made
    add up to the length they cut. *)
Lemma strides_total (fuel : nat) (from limit : Q) :
  from <= limit -> limit - from <= 50 * inject_Z (Z.of_nat fuel) ->
  total (map (fun v => Math_min Slice3D.gridSize (limit - v))
             (Slice3D.strides fuel from limit)) == limit - from.
Proof.
  revert from. induction fuel as [|fuel IH]; intros from A B.
  - change (inject_Z (Z.of_nat 0)) with 0 in B. cbn. lra.
  - cbn [Slice3D.strides]. destruct (Qltb from limit) eqn:L.
    2:{ apply Qltb_ge in L. cbn. lra. }
    apply Qltb_lt in L. cbn [map total fold_right].
    change (fold_right Qplus 0 ?l) with (total l).
    rewrite Nat2Z.inj_succ, <- Z.add_1_r, inject_Z_plus in B. change (inject_Z 1) with 1 in B.
    unfold Math_min at 1, Slice3D.gridSize at 1.
    destruct (Qltb (limit - from) 50) eqn:M.
    + apply Qltb_lt in M.
      assert (E : Slice3D.strides fuel (from + Slice3D.gridSize) limit = []).
      { destruct fuel; [reflexivity|]. cbn [Slice3D.strides].
        assert (N : Qltb (from + Slice3D.gridSize) limit = false)
          by (apply Qltb_ge; unfold Slice3D.gridSize; lra).
        rewrite N. reflexivity. }
      rewrite E. cbn. lra.
    + apply Qltb_ge in M. rewrite IH; unfold Slice3D.gridSize; lra.
Qed.

Lemma strides_fuel (fuel fuel' : nat) (from limit : Q) :
  limit - from <= 50 * inject_Z (Z.of_nat fuel) ->
  limit - from <= 50 * inject_Z (Z.of_nat fuel') ->
  Slice3D.strides fuel from limit = Slice3D.strides fuel' from limit.
Proof.
  revert fuel' from. induction fuel as [|fuel IH]; intros fuel' from A B.
  - change (inject_Z (Z.of_nat 0)) with 0 in A.
    destruct fuel'; [reflexivity|]. cbn [Slice3D.strides].
    assert (N : Qltb from limit = false) by (apply Qltb_ge; lra).
    rewrite N. reflexivity.
  - destruct fuel' as [|fuel'].
    + change (inject_Z (Z.of_nat 0)) with 0 in B. cbn [Slice3D.strides].
      assert (N : Qltb from limit = false) by (apply Qltb_ge; lra).
      rewrite N. reflexivity.
    + cbn [Slice3D.strides]. destruct (Qltb from limit); [|reflexivity].
      rewrite Nat2Z.inj_succ, <- Z.add_1_r, inject_Z_plus in A, B.
      change (inject_Z 1) with 1 in A, B.
      f_equal. apply IH; unfold Slice3D.gridSize; lra.
Qed.

Lemma row_total (xs : list Q) (y wd hy : Q) :
  total (map (fun q => Slice3D.w q * Slice3D.h q)
           (map (fun x => Slice3D.mkQuad x y (Math_min Slice3D.gridSize (wd - x)) hy 0 0) xs))
  == total (map (fun v => Math_min Slice3D.gridSize (wd - v)) xs) * hy.
Proof.
  induction xs as [|x xs IH]; cbn [map total fold_right Slice3D.w Slice3D.h].
  - ring.
  - change (fold_right Qplus 0 ?l) with (total l). rewrite IH. ring.
Qed.

Lemma rows_total (xs ys : list Q) (wd ht : Q) :
  total (map (fun q => Slice3D.w q * Slice3D.h q)
           (flat_map (fun y =>
              map (fun x => Slice3D.mkQuad x y (Math_min Slice3D.gridSize (wd - x))
                              (Math_min Slice3D.gridSize (ht - y)) 0 0) xs) ys))
  == total (map (fun v => Math_min Slice3D.gridSize (wd - v)) xs)
     * total (map (fun v => Math_min Slice3D.gridSize (ht - v)) ys).
Proof.
  induction ys as [|y ys IH]; cbn [flat_map map total fold_right].
  - ring.
  - change (fold_right Qplus 0 ?l) with (total l).
    rewrite map_app, total_app, row_total, IH. ring.
Qed.

Lemma stride_fits (from limit v : Q) :
  from <= v -> v < limit ->
  0 < Math_min Slice3D.gridSize (limit - v)
  /\ Math_min Slice3D.gridSize (limit - v) <= 50
  /\ v + Math_min Slice3D.gridSize (limit - v) <= limit.
Proof.
  intros A B. unfold Math_min, Slice3D.gridSize.
  destruct (Qltb (limit - v) 50) eqn:M.
  - apply Qltb_lt in M. repeat split; lra.
  - apply Qltb_ge in M. repeat split; lra.
Qed.

(** X26.  The tiles of the flip effect cover the selection exactly: for a
    rectangle that is not negative, once the two loops have room to end,
    every tile has a positive width and height of at most 50 and lies
    inside the rectangle, the areas of the tiles add up to the area of
    the rectangle, every tile lies flat and still, and more room for the
    loops changes nothing. *)
Theorem tiles_cover_the_rect (fuel : nat) (rect : Rect) :
  0 <= rw rect -> 0 <= rh rect ->
  rw rect <= 50 * inject_Z (Z.of_nat fuel) ->
  rh rect <= 50 * inject_Z (Z.of_nat fuel) ->
  Forall (fun q =>
            0 <= Slice3D.relX q /\ 0 < Slice3D.w q <= 50
            /\ Slice3D.relX q + Slice3D.w q <= rw rect
            /\ 0 <= Slice3D.relY q /\ 0 < Slice3D.h q <= 50
            /\ Slice3D.relY q + Slice3D.h q <= rh rect
            /\ Slice3D.angle q = 0 /\ Slice3D.velocity q = 0)
         (Slice3D.quads (Slice3D.init fuel rect))
  /\ total (map (fun q => Slice3D.w q * Slice3D.h q) (Slice3D.quads (Slice3D.init fuel rect)))
     == rw rect * rh rect
  /\ Slice3D.init (S fuel) rect = Slice3D.init fuel rect.
Proof.
  intros W0 H0 WF HF. unfold Slice3D.init. cbn [Slice3D.quads]. split; [|split].
  - apply Forall_forall. intros q I.
    apply in_flat_map in I as (y & Iy & I). apply in_map_iff in I as (x & <- & Ix).
    apply strides_In in Ix as [X0 X1]. apply strides_In in Iy as [Y0 Y1].
    destruct (stride_fits 0 (rw rect) x X0 X1) as (A1 & A2 & A3).
    destruct (stride_fits 0 (rh rect) y Y0 Y1) as (B1 & B2 & B3).
    cbn [Slice3D.relX Slice3D.relY Slice3D.w Slice3D.h Slice3D.angle Slice3D.velocity].
    repeat split; assumption.
  - rewrite rows_total, !strides_total by lra. ring.
  - assert (S1 : forall limit, limit <= 50 * inject_Z (Z.of_nat fuel) ->
                   Slice3D.strides (S fuel) 0 limit = Slice3D.strides fuel 0 limit).
    { intros limit L. apply strides_fuel; [|lra].
      rewrite Nat2Z.inj_succ, <- Z.add_1_r, inject_Z_plus. change (inject_Z 1) with 1. lra. }
    rewrite !S1 by assumption. reflexivity.
Qed.

Lemma tiles_cover_the_rect_witness :
  total (map (fun q => Slice3D.w q * Slice3D.h q)
           (Slice3D.quads (Slice3D.init 3 (mkRect 10 20 120 (141 # 2)))))
  == 120 * (141 # 2)
  /\ length (Slice3D.quads (Slice3D.init 3 (mkRect 10 20 120 (141 # 2)))) = 6%nat.
Proof.
  split; [|reflexivity].
  apply (tiles_cover_the_rect 3 (mkRect 10 20 120 (141 # 2)));
    apply Qle_bool_iff; reflexivity.
Defined.

(** ** The blocks of the pixel text *)

Lemma ease_shrinks (t1 t2 : Q) :
  0 <= t1 -> t1 <= t2 -> t2 <= 1 ->
  0 <= (1 - t2) ^ 3 /\ (1 - t2) ^ 3 <= (1 - t1) ^ 3 /\ (1 - t1) ^ 3 <= 1.
Proof.
  intros A B C. set (u := 1 - t1). set (v := 1 - t2).
  assert (U : 0 <= u <= 1) by (subst u; lra).
  assert (V : 0 <= v <= u) by (subst u v; lra).
  clearbody u v. clear A B C.
  assert (0 <= v * v) by nra.
  assert (v * v <= u * u) by nra.
  assert (u * u <= 1) by nra.
  assert (E : forall q : Q, q ^ 3 == q * q * q) by (intros q; ring).
  rewrite !E. repeat split; nra.
Qed.

Lemma approach (s T c1 c2 : Q) :
  0 <= c2 -> c2 <= c1 -> c1 <= 1 ->
  PixelText.between s T (s + (T - s) * (1 - c2))
  /\ Math_abs (T - (s + (T - s) * (1 - c2))) <= Math_abs (T - (s + (T - s) * (1 - c1))).
Proof.
  intros A B C. unfold PixelText.between, Math_abs.
  destruct (Qlt_le_dec T s) as [L|L].
  - assert ((s - T) * c2 <= (s - T) * c1) by nra.
    assert (0 <= (s - T) * c2) by nra.
    assert ((s - T) * c1 <= s - T) by nra.
    split; [right; split; lra|].
    destruct (Qltb (T - (s + (T - s) * (1 - c2))) 0) eqn:P,
             (Qltb (T - (s + (T - s) * (1 - c1))) 0) eqn:Q;
      try apply Qltb_lt in P; try apply Qltb_ge in P;
      try apply Qltb_lt in Q; try apply Qltb_ge in Q; lra.
  - assert ((T - s) * c2 <= (T - s) * c1) by nra.
    assert (0 <= (T - s) * c2) by nra.
    assert ((T - s) * c1 <= T - s) by nra.
    split; [left; split; lra|].
    destruct (Qltb (T - (s + (T - s) * (1 - c2))) 0) eqn:P,
             (Qltb (T - (s + (T - s) * (1 - c1))) 0) eqn:Q;
      try apply Qltb_lt in P; try apply Qltb_ge in P;
      try apply Qltb_lt in Q; try apply Qltb_ge in Q; lra.
Qed.

Lemma progress_unit (now startTime : Z) :
  (startTime <= now)%Z ->
  let progress := Math_min 1 (inject_Z (now - startTime) / 5200) in
  0 <= progress <= 1
  /\ ((startTime + 5200 <= now)%Z -> Qltb progress 1 = false)
  /\ forall now', (now <= now')%Z ->
       progress <= Math_min 1 (inject_Z (now' - startTime) / 5200).
Proof.
  intros L. cbv zeta.
  assert (D : forall z : Z, inject_Z z / 5200 == (1 # 5200) * inject_Z z) by (intros; field).
  assert (E0 : 0 <= inject_Z (now - startTime))
    by (change 0 with (inject_Z 0); rewrite <- Zle_Qle; lia).
  pose proof (D (now - startTime)%Z) as D1.
  set (q := inject_Z (now - startTime) / 5200) in *. clearbody q.
  unfold Math_min. split; [|split].
  - destruct (Qltb q 1) eqn:M.
    + apply Qltb_lt in M. lra.
    + lra.
  - intros F.
    assert (5200 <= inject_Z (now - startTime))
      by (change 5200 with (inject_Z 5200); rewrite <- Zle_Qle; lia).
    destruct (Qltb q 1) eqn:M.
    + apply Qltb_lt in M. lra.
    + apply Qltb_ge. lra.
  - intros now' N.
    assert (inject_Z (now - startTime) <= inject_Z (now' - startTime))
      by (rewrite <- Zle_Qle; lia).
    pose proof (D (now' - startTime)%Z) as D2.
    set (q' := inject_Z (now' - startTime) / 5200) in *. clearbody q'.
    destruct (Qltb q 1) eqn:M, (Qltb q' 1) eqn:M';
      try apply Qltb_lt in M; try apply Qltb_ge in M;
      try apply Qltb_lt in M'; try apply Qltb_ge in M'; lra.
Qed.

(** X28.  The blocks of the pixel text only ever close in on their
    targets: drawn at a time not before the start of the animation, every
    block lies between its start and its target, in x and in y, and is no
    farther from its target than it was at any earlier drawing; from 5200
    milliseconds after the start it is at its target. *)
Theorem text_blocks_close_in (startTime earlier now : Z)
    (blocks : list PixelText.PixelBlock) (i : nat) (b : PixelText.PixelBlock) :
  (startTime <= earlier <= now)%Z ->
  nth_error blocks i = Some b ->
  exists b1 b2,
    nth_error (PixelText.draw earlier startTime blocks) i = Some b1
    /\ nth_error (PixelText.draw now startTime blocks) i = Some b2
    /\ PixelText.between (PixelText.startX b) (PixelText.targetX b) (PixelText.x b2)
    /\ PixelText.between (PixelText.startY b) (PixelText.targetY b) (PixelText.y b2)
    /\ Math_abs (PixelText.targetX b - PixelText.x b2)
       <= Math_abs (PixelText.targetX b - PixelText.x b1)
    /\ Math_abs (PixelText.targetY b - PixelText.y b2)
       <= Math_abs (PixelText.targetY b - PixelText.y b1)
    /\ ((startTime + 5200 <= now)%Z ->
        PixelText.x b2 = PixelText.targetX b /\ PixelText.y b2 = PixelText.targetY b).
Proof.
  intros [L1 L2] N. unfold PixelText.draw. cbv zeta.
  rewrite !nth_error_map, N. cbn [option_map].
  eexists _, _. split; [reflexivity|]. split; [reflexivity|].
  destruct (progress_unit earlier startTime L1) as ((P0 & P1) & _ & PM).
  specialize (PM now L2).
  destruct (progress_unit now startTime ltac:(lia)) as ((Q0 & Q1) & QF & _).
  cbv zeta in *.
  set (t1 := Math_min 1 (inject_Z (earlier - startTime) / 5200)) in *.
  set (t2 := Math_min 1 (inject_Z (now - startTime) / 5200)) in *.
  clearbody t1 t2.
  destruct (Qltb t2 1) eqn:A2.
  - assert (A1 : Qltb t1 1 = true) by (apply Qltb_lt; apply Qltb_lt in A2; lra).
    rewrite A1. cbn [PixelText.update PixelText.x PixelText.y].
    destruct (ease_shrinks t1 t2 P0 PM Q1) as (C0 & C1 & C2).
    destruct (approach (PixelText.startX b) (PixelText.targetX b) _ _ C0 C1 C2) as [X1 X2].
    destruct (approach (PixelText.startY b) (PixelText.targetY b) _ _ C0 C1 C2) as [Y1 Y2].
    split; [exact X1|]. split; [exact Y1|]. split; [exact X2|]. split; [exact Y2|].
    intros F. specialize (QF F). congruence.
  - cbn [PixelText.x PixelText.y].
    assert (Z0 : forall q, Math_abs (q - q) <= Math_abs 0).
    { intros q. unfold Math_abs. destruct (Qltb (q - q) 0) eqn:M;
        [apply Qltb_lt in M; lra|]. cbn. lra. }
    assert (ZX : forall q r, Math_abs (q - q) <= Math_abs r).
    { intros q r. eapply Qle_trans; [apply Z0|]. apply Math_abs_nonneg. }
    assert (B : forall u v, PixelText.between u v v).
    { intros u v. unfold PixelText.between.
      destruct (Qlt_le_dec u v); [left|right]; split; lra. }
    split; [apply B|]. split; [apply B|]. split; [apply ZX|]. split; [apply ZX|].
    intros _. split; reflexivity.
Qed.

Lemma text_blocks_close_in_witness :
  exists b1 b2,
    nth_error (PixelText.draw 1300 1000 [PixelText.mkBlock 7 9 7 9 100 50]) 0 = Some b1
    /\ nth_error (PixelText.draw 3600 1000 [PixelText.mkBlock 7 9 7 9 100 50]) 0 = Some b2
    /\ PixelText.between 7 100 (PixelText.x b2)
    /\ Math_abs (100 - PixelText.x b2) <= Math_abs (100 - PixelText.x b1).
Proof.
  destruct (text_blocks_close_in 1000 1300 3600 [PixelText.mkBlock 7 9 7 9 100 50] 0
              (PixelText.mkBlock 7 9 7 9 100 50))
    as (b1 & b2 & A & B & C & _ & D & _).
  - lia.
  - reflexivity.
  - exists b1, b2. exact (conj A (conj B (conj C D))).
Defined.
